(** * Serial API polyfill over WebUSB (CDC-ACM): model and properties

    The development embeds the two generations of [serial.ts]:
    - [Legacy]: flat lowercase options, line-coding encode and decode,
      streams built in [open];
    - [Polyfill]: the current generation with [findInterface],
      [findEndpoint], the underlying source and sink and the lazily built
      streams.

    JavaScript numbers are modelled as rationals extended with NaN and the
    two infinities; a quotient or a product is rounded to the nearest IEEE
    754 double; the sign of zero is not modelled.  The USB device and the
    streams are the host's: they are modelled as an environment whose
    replies are supplied by a script. *)

From Stdlib Require Import String ZArith QArith Qround Qabs Qpower List Bool.
From Stdlib Require Import Lia Lqa.
Import ListNotations.
Local Open Scope Z_scope.

(* ------------------------------------------------------------------ *)
(** ** JavaScript values used by the code *)

Module Js.

Inductive number : Type :=
| Fin (q : Q)
| NaN
| PosInf
| NegInf.

Definition of_Z (z : Z) : number := Fin (inject_Z z).

(** [x === y] on numbers. *)
Definition strict_eq (x y : number) : bool :=
  match x, y with
  | Fin p, Fin q => Qeq_bool p q
  | PosInf, PosInf => true
  | NegInf, NegInf => true
  | _, _ => false
  end.

(** SameValueZero, the comparison of [Array.prototype.includes]. *)
Definition same_value_zero (x y : number) : bool :=
  match x, y with
  | NaN, NaN => true
  | _, _ => strict_eq x y
  end.

(** Numeric sameness of two numbers, as a proposition. *)
Definition num_eq (x y : number) : Prop :=
  match x, y with
  | Fin p, Fin q => Qeq p q
  | NaN, NaN => True
  | PosInf, PosInf => True
  | NegInf, NegInf => True
  | _, _ => False
  end.

(** An integer value (finite, no fractional part). *)
Definition is_integer (x : number) : Prop :=
  exists z : Z, num_eq x (of_Z z).

(** Truncation toward zero of a finite number. *)
Definition truncate (q : Q) : Z := Z.quot (Qnum q) (Zpos (Qden q)).

(** ToUint32 / ToUint8: NaN and the infinities map to 0, a finite number is
    truncated and reduced modulo [2^bits]. *)
Definition ToUint (bits : Z) (x : number) : Z :=
  match x with
  | Fin q => (truncate q) mod (2 ^ bits)
  | _ => 0
  end.

(** [x % y]. *)
Definition rem (x y : number) : number :=
  match x, y with
  | Fin p, Fin q =>
      if Qeq_bool q 0 then NaN
      else Fin (p - q * inject_Z (truncate (p / q)))
  | Fin p, (PosInf | NegInf) => Fin p
  | _, _ => NaN
  end.

Definition Qsign_pos (q : Q) : bool := (0 <? Qnum q)%Z.

(** The integer nearest to a rational, a tie going to the even one. *)
Definition round_half_even (q : Q) : Z :=
  let f := Qfloor q in
  match Qcompare (q - inject_Z f) (1 # 2) with
  | Lt => f
  | Gt => f + 1
  | Eq => if Z.even f then f else f + 1
  end.

Definition pow2 (e : Z) : Q := Qpower 2 e.

(** The binary exponent of a positive rational: [2^e <= q < 2^(e+1)]. *)
Definition exponent (q : Q) : Z :=
  let k := Z.log2 (Qnum q) - Z.log2 (Zpos (Qden q)) in
  if Qle_bool (pow2 k) q then k else k - 1.

(** Rounding of an exact result to the nearest double (binary64: 53
    significant bits, least exponent -1022 with gradual underflow, ties to
    even); a result that rounds to 2^1024 or beyond is an infinity. *)
Definition round_reduced (q : Q) : number :=
  if Qeq_bool q 0 then Fin 0 else
  let a := Qabs q in
  let e := Z.max (exponent a) (-1022) in
  let ulp := pow2 (e - 52) in
  let r := (inject_Z (round_half_even (a / ulp)) * ulp)%Q in
  if Qle_bool (pow2 1024) r
  then (if Qsign_pos q then PosInf else NegInf)
  else Fin (Qred (if Qsign_pos q then r else - r)).

Definition round (q : Q) : number := round_reduced (Qred q).

(** [x / y] (the divisor zero is the positive zero). *)
Definition div (x y : number) : number :=
  match x, y with
  | Fin p, Fin q =>
      if Qeq_bool q 0 then
        (if Qeq_bool p 0 then NaN
         else if Qsign_pos p then PosInf else NegInf)
      else round (p / q)
  | Fin _, (PosInf | NegInf) => Fin 0
  | PosInf, Fin q => if (Qnum q <? 0)%Z then NegInf else PosInf
  | NegInf, Fin q => if (Qnum q <? 0)%Z then PosInf else NegInf
  | _, _ => NaN
  end.

(** [x * y]. *)
Definition mul (x y : number) : number :=
  match x, y with
  | Fin p, Fin q => round (p * q)
  | Fin p, PosInf | PosInf, Fin p =>
      if Qeq_bool p 0 then NaN else if Qsign_pos p then PosInf else NegInf
  | Fin p, NegInf | NegInf, Fin p =>
      if Qeq_bool p 0 then NaN else if Qsign_pos p then NegInf else PosInf
  | PosInf, PosInf | NegInf, NegInf => PosInf
  | PosInf, NegInf | NegInf, PosInf => NegInf
  | _, _ => NaN
  end.

(** [Math.ceil]. *)
Definition ceil (x : number) : number :=
  match x with
  | Fin q => Fin (inject_Z (Qceiling q))
  | _ => x
  end.

(** Truthiness of a number: 0 and NaN are falsy. *)
Definition truthy (x : number) : bool :=
  match x with
  | Fin q => negb (Qeq_bool q 0)
  | NaN => false
  | _ => true
  end.

(** [Array.prototype.includes] and [Array.prototype.indexOf], over the
    comparison the element type uses. *)
Definition includes {A : Type} (same : A -> A -> bool)
    (arr : list A) (x : A) : bool :=
  existsb (same x) arr.

Fixpoint indexOf_from {A : Type} (eq : A -> A -> bool)
    (arr : list A) (x : A) (i : Z) : Z :=
  match arr with
  | [] => -1
  | y :: rest => if eq y x then i else indexOf_from eq rest x (i + 1)
  end.

Definition indexOf {A : Type} (eq : A -> A -> bool)
    (arr : list A) (x : A) : Z :=
  indexOf_from eq arr x 0.

(** An object property in a literal that may omit it or carry [undefined]. *)
Inductive field (A : Type) : Type :=
| Absent
| Undefined
| Val (a : A).
Arguments Absent {A}.
Arguments Undefined {A}.
Arguments Val {A} a.

(** Reading a property: absent and [undefined] both read as [undefined]. *)
Definition read {A : Type} (f : field A) : option A :=
  match f with
  | Val a => Some a
  | _ => None
  end.

(** One property of [{...old, ...new}]: an own property of [new], even one
    holding [undefined], replaces the old one. *)
Definition spread {A : Type} (old new : field A) : field A :=
  match new with
  | Absent => old
  | _ => new
  end.

(** [a ?? b]. *)
Definition nullish {A : Type} (a : option A) (b : A) : A :=
  match a with
  | Some v => v
  | None => b
  end.

(** A variable declared to hold an object or [null]; until it is
    assigned it holds [undefined]. *)
Inductive nullable (A : Type) : Type :=
| Unassigned
| Null
| Object (a : A).
Arguments Unassigned {A}.
Arguments Null {A}.
Arguments Object {A} a.

(** Truthiness of such a variable. *)
Definition is_object {A : Type} (v : nullable A) : bool :=
  match v with
  | Object _ => true
  | _ => false
  end.

End Js.

(* ------------------------------------------------------------------ *)
(** ** Exceptions and the state-and-exception monad *)

Inductive OptionField : Type :=
| BaudRate
| DataBits
| StopBits
| Parity.

Inductive USBDirection : Type :=
| dir_in
| dir_out.

Inductive exn : Type :=
| RangeError (f : OptionField)
    (* new RangeError('invalid <field> ' + value) *)
| DataViewRangeError
    (* DataView access outside the buffer *)
| InterfaceNotFound (classCode : Z)
    (* new TypeError(`Unable to find interface with class ...`) *)
| EndpointNotFound (interfaceNumber : Z) (direction : USBDirection)
    (* new TypeError(`Interface ... does not have an ... endpoint.`) *)
| UndefinedAccess
    (* TypeError: property read on undefined *)
| NotUint8Array
    (* new TypeError('Can only send Uint8Array ...') *)
| StreamTypeError
    (* TypeError thrown by a stream controller *)
| StreamRangeError
    (* RangeError of a stream constructor: invalid highWaterMark *)
| StreamLockedError
    (* TypeError of cancel() or abort() on a locked stream *)
| StreamStoredError
    (* the stored error of an errored stream: what was given to the
       controller.error() call that errored it *)
| NetworkError
    (* new DOMException('NetworkError', 'Failed to set line coding.') *)
| HostError (name : string)
    (* a rejection raised by the USB layer *)
| PlainError (message : string)
    (* new Error(message) *)
| SetupError (cause : exn).
    (* new Error('Error setting up device: ' + error.toString()) *)

Inductive Result (A : Type) : Type :=
| Ok (a : A)
| Throw (e : exn).
Arguments Ok {A} a.
Arguments Throw {A} e.

(** A computation over a mutable state [S]; a throw keeps the state reached. *)
Definition M (S A : Type) : Type := S -> Result A * S.

Definition ret {S A : Type} (a : A) : M S A := fun s => (Ok a, s).

Definition bind {S A B : Type} (m : M S A) (k : A -> M S B) : M S B :=
  fun s =>
    match m s with
    | (Ok a, s') => k a s'
    | (Throw e, s') => (Throw e, s')
    end.

Definition throw {S A : Type} (e : exn) : M S A := fun s => (Throw e, s).

Definition try_catch {S A : Type} (body : M S A) (handler : exn -> M S A)
  : M S A :=
  fun s =>
    match body s with
    | (Ok a, s') => (Ok a, s')
    | (Throw e, s') => handler e s'
    end.

(** A call that returns a promise, not yet awaited: its effects have
    happened, how it settles is kept. *)
Definition promise {S A : Type} (m : M S A) : M S (Result A) :=
  fun s => let (r, s') := m s in (Ok r, s').

(** [await Promise.all(promises)] on promises whose rejections are settled
    when they are made: the first rejection in the array is thrown. *)
Fixpoint await_all {S : Type} (promises : list (Result unit)) : M S unit :=
  match promises with
  | [] => ret tt
  | Ok _ :: rest => await_all rest
  | Throw e :: _ => throw e
  end.

(** How a call of a function that returns a promise ends for its caller:
    the function throws before it returns, or it returns a promise that is
    fulfilled or rejected. *)
Inductive Settled (A : Type) : Type :=
| Fulfilled (a : A)
| Rejected (e : exn)
| ThrownSync (e : exn).
Arguments Fulfilled {A} a.
Arguments Rejected {A} e.
Arguments ThrownSync {A} e.

(** The call of an [async] function: whatever its body throws rejects the
    promise it returns. *)
Definition async {S A : Type} (body : M S A) : S -> Settled A * S :=
  fun s =>
    match body s with
    | (Ok a, s') => (Fulfilled a, s')
    | (Throw e, s') => (Rejected e, s')
    end.

Definition get {S : Type} : M S S := fun s => (Ok s, s).
Definition modify {S : Type} (f : S -> S) : M S unit := fun s => (Ok tt, f s).
Definition when_ {S : Type} (b : bool) (m : M S unit) : M S unit :=
  if b then m else ret tt.

Declare Scope js_scope.
Delimit Scope js_scope with js.
Notation "x <- m ;; k" := (bind m (fun x => k))
  (at level 61, m at next level, right associativity) : js_scope.
Notation "m ;; k" := (bind m (fun _ => k))
  (at level 61, right associativity) : js_scope.

(* ------------------------------------------------------------------ *)
(** ** DataView over an ArrayBuffer *)

Module DataView.

(** An ArrayBuffer: its bytes, each an integer in [0, 256). *)
Definition ArrayBuffer : Type := list Z.

Definition new_ArrayBuffer (n : nat) : ArrayBuffer := repeat 0 n.

Fixpoint write (buf : ArrayBuffer) (off : nat) (bytes : list Z)
  : ArrayBuffer :=
  match off, buf with
  | O, _ => bytes ++ skipn (length bytes) buf
  | S off', b :: buf' => b :: write buf' off' bytes
  | S _, [] => []
  end.

Definition in_range (buf : ArrayBuffer) (off width : nat) : bool :=
  (off + width <=? length buf)%nat.

Definition le_bytes32 (v : Z) : list Z :=
  [ v mod 256; (v / 256) mod 256; (v / 65536) mod 256;
    (v / 16777216) mod 256 ].

(** [view.setUint32(off, value, true)]. *)
Definition setUint32 (off : nat) (value : Js.number)
  : M ArrayBuffer unit :=
  fun buf =>
    if in_range buf off 4
    then (Ok tt, write buf off (le_bytes32 (Js.ToUint 32 value)))
    else (Throw DataViewRangeError, buf).

(** [view.setUint8(off, value)]. *)
Definition setUint8 (off : nat) (value : Js.number) : M ArrayBuffer unit :=
  fun buf =>
    if in_range buf off 1
    then (Ok tt, write buf off [Js.ToUint 8 value])
    else (Throw DataViewRangeError, buf).

(** [view.getUint8(off)]. *)
Definition getUint8 (buf : ArrayBuffer) (off : nat) : Result Z :=
  match nth_error buf off with
  | Some b => Ok b
  | None => Throw DataViewRangeError
  end.

(** [view.getUint32(off, true)]. *)
Definition getUint32 (buf : ArrayBuffer) (off : nat) : Result Z :=
  match firstn 4 (skipn off buf) with
  | [b0; b1; b2; b3] =>
      Ok (b0 + 256 * b1 + 65536 * b2 + 16777216 * b3)
  | _ => Throw DataViewRangeError
  end.

End DataView.

(* ------------------------------------------------------------------ *)
(** ** The WebUSB device: descriptor tree and host behaviour

    The device object belongs to the host.  Its descriptor tree is read-only
    data.  Every method the code awaits is a call whose outcome the host
    decides: the model logs the call and takes the outcome from a script of
    replies, so that a statement over all scripts covers every pattern of
    successes, non-ok statuses and rejections.  A call the host carries out
    changes the device as WebUSB says: [open] sets [opened], [close] clears
    it and releases the claimed interfaces, [selectConfiguration] makes the
    configuration with that value the active one, [claimInterface] adds the
    interface to the claimed ones. *)

Module Usb.

Record USBEndpoint : Type := {
  endpointNumber : Z;
  direction : USBDirection;
  packetSize : Z
}.

Record USBAlternateInterface : Type := {
  interfaceClass : Z;
  endpoints : list USBEndpoint
}.

Record USBInterface : Type := {
  interfaceNumber : Z;
  alternates : list USBAlternateInterface
}.

Record USBConfiguration : Type := {
  configurationValue : Z;
  interfaces : list USBInterface
}.

Inductive USBTransferStatus : Type :=
| status_ok
| status_stall
| status_babble.

Definition is_ok (s : USBTransferStatus) : bool :=
  match s with
  | status_ok => true
  | _ => false
  end.

(** A value offered to a sink as a chunk. *)
Inductive chunk : Type :=
| Uint8Array (bytes : list Z)
| OtherBufferSource (bytes : list Z)
    (* an ArrayBuffer, a DataView or another typed array *)
| NotABuffer (description : string).
    (* a string, a number, a plain object, ... *)

Definition instanceof_Uint8Array (c : chunk) : bool :=
  match c with
  | Uint8Array _ => true
  | _ => false
  end.

(** The calls the code makes on the device. *)
Inductive call : Type :=
| Open
| Close
| SelectConfiguration (value : Z)
| ClaimInterface (interfaceNumber : Z)
| ControlTransferOut (request value index : Z) (data : option (list Z))
| ControlTransferIn (request value index : Z) (length : Z)
| TransferIn (endpointNumber : Z) (length : Js.number)
| TransferOut (endpointNumber : Z) (data : chunk).

(** What a fulfilled transfer promise carries. *)
Record USBTransferResult : Type := {
  status : USBTransferStatus;
  data : option (list Z)
}.

(** How the host settles one call. *)
Inductive reply : Type :=
| Resolve (r : USBTransferResult)
| Reject (name : string).   (* the name of the DOMException *)

Definition resolved_ok : USBTransferResult :=
  {| status := status_ok; data := None |}.

Record USBDevice : Type := {
  configurations : list USBConfiguration;
  configuration : option USBConfiguration;
  opened : bool;
  claimed : list Z;
  vendorId : Z;
  productId : Z;
  log : list call;      (* calls made so far, oldest first *)
  script : list reply   (* replies to the next calls; then all succeed *)
}.

Definition set_opened (b : bool) (d : USBDevice) : USBDevice :=
  {| configurations := configurations d; configuration := configuration d;
     opened := b; claimed := claimed d; vendorId := vendorId d;
     productId := productId d; log := log d; script := script d |}.

Definition set_claimed (l : list Z) (d : USBDevice) : USBDevice :=
  {| configurations := configurations d; configuration := configuration d;
     opened := opened d; claimed := l; vendorId := vendorId d;
     productId := productId d; log := log d; script := script d |}.

Definition set_configuration (c : option USBConfiguration) (d : USBDevice)
  : USBDevice :=
  {| configurations := configurations d; configuration := c;
     opened := opened d; claimed := claimed d; vendorId := vendorId d;
     productId := productId d; log := log d; script := script d |}.

Definition record_call (c : call) (d : USBDevice) : USBDevice :=
  {| configurations := configurations d; configuration := configuration d;
     opened := opened d; claimed := claimed d; vendorId := vendorId d;
     productId := productId d; log := log d ++ [c];
     script := tl (script d) |}.

(** The effect of a call the host carried out. *)
Definition effect (c : call) (d : USBDevice) : USBDevice :=
  match c with
  | Open => set_opened true d
  | Close => set_claimed [] (set_opened false d)
  | SelectConfiguration v =>
      set_configuration
        (find (fun cfg => configurationValue cfg =? v) (configurations d)) d
  | ClaimInterface n => set_claimed (n :: claimed d) d
  | _ => d
  end.

(** One awaited call: it is logged, the host's reply is taken from the
    script, a rejection leaves the device as it was. *)
Definition invoke (c : call) : M USBDevice USBTransferResult :=
  fun d =>
    match script d with
    | Reject name :: _ => (Throw (HostError name), record_call c d)
    | Resolve r :: _ => (Ok r, effect c (record_call c d))
    | [] => (Ok resolved_ok, effect c (record_call c d))
    end.

End Usb.

(* ------------------------------------------------------------------ *)
(** ** Stream controllers (WHATWG streams)

    The streams and their controllers belong to the streams implementation.
    The model keeps what the adapters and the port can observe or cause: the
    state of the stream, whether a reader or writer holds it, the desired
    size, the chunks accepted by [enqueue] and the reasons passed to
    [error]. *)

Module Streams.

Inductive stream_state : Type :=
| Active     (* "readable" or "writable" *)
| Closed
| Errored.

Definition is_active (s : stream_state) : bool :=
  match s with
  | Active => true
  | _ => false
  end.

(** The reason given to [controller.error]. *)
Inductive reason : Type :=
| UsbStatus (s : Usb.USBTransferStatus)   (* `USB error: ${status}` or status *)
| ErrorString (e : exn)                   (* error.toString() *)
| ErrorObject (e : exn).                  (* an Error object *)

Record ReadableByteStreamController : Type := {
  desiredSize : option Js.number;
  rstate : stream_state;
  enqueued : list (list Z);        (* chunks handed to the consumer *)
  rerrors : list reason;           (* arguments of the error() calls *)
  rlocked : bool                   (* a reader holds the stream *)
}.

(** [controller.error(e)]: recorded; it errors a readable stream and does
    nothing to a closed or errored one. *)
Definition rerror (e : reason) : M ReadableByteStreamController unit :=
  fun c =>
    (Ok tt,
     {| desiredSize := if is_active (rstate c) then None else desiredSize c;
        rstate := if is_active (rstate c) then Errored else rstate c;
        enqueued := enqueued c;
        rerrors := rerrors c ++ [e];
        rlocked := rlocked c |}).

(** [controller.enqueue(chunk)]: throws a TypeError for an empty chunk or
    when the stream is not readable. *)
Definition enqueue (chunk : list Z) : M ReadableByteStreamController unit :=
  fun c =>
    if is_active (rstate c) && negb (Nat.eqb (length chunk) 0)
    then (Ok tt,
          {| desiredSize := desiredSize c; rstate := rstate c;
             enqueued := enqueued c ++ [chunk]; rerrors := rerrors c;
             rlocked := rlocked c |})
    else (Throw StreamTypeError, c).

(** [stream.cancel()] on the stream of the controller: rejected with a
    TypeError when a reader holds the stream and with the stored error when
    the stream is errored; it closes a readable stream. *)
Definition cancel : M ReadableByteStreamController unit :=
  fun c =>
    if rlocked c then (Throw StreamLockedError, c)
    else
      match rstate c with
      | Closed => (Ok tt, c)
      | Errored => (Throw StreamStoredError, c)
      | Active =>
          (Ok tt,
           {| desiredSize := Some (Js.of_Z 0); rstate := Closed;
              enqueued := enqueued c; rerrors := rerrors c;
              rlocked := rlocked c |})
      end.

(** The [highWaterMark] a stream constructor takes from its strategy: NaN
    or a negative value throws a RangeError. *)
Definition ExtractHighWaterMark (highWaterMark : Js.number)
  : Result Js.number :=
  match highWaterMark with
  | Js.Fin q => if Qle_bool 0 q then Ok highWaterMark
                else Throw StreamRangeError
  | Js.PosInf => Ok highWaterMark
  | Js.NaN | Js.NegInf => Throw StreamRangeError
  end.

Record WritableStreamDefaultController : Type := {
  wstate : stream_state;
  werrors : list reason;
  wlocked : bool                   (* a writer holds the stream *)
}.

Definition werror (e : reason) : M WritableStreamDefaultController unit :=
  fun c =>
    (Ok tt,
     {| wstate := if is_active (wstate c) then Errored else wstate c;
        werrors := werrors c ++ [e];
        wlocked := wlocked c |}).

(** [stream.abort()] on the stream of the controller: rejected with a
    TypeError when a writer holds the stream; it errors a writable stream
    and does nothing to a closed or errored one. *)
Definition abort : M WritableStreamDefaultController unit :=
  fun c =>
    if wlocked c then (Throw StreamLockedError, c)
    else
      (Ok tt,
       {| wstate := if is_active (wstate c) then Errored else wstate c;
          werrors := werrors c;
          wlocked := wlocked c |}).

End Streams.

(* ------------------------------------------------------------------ *)
(** ** The legacy generation (serial.ts, flat lowercase options) *)

Module Legacy.
Import Usb.

Record SerialOptions : Type := {
  baudrate : Js.number;
  databits : Js.number;
  stopbits : Js.number;
  parity : string;
  buffersize : Js.number;
  rtscts : bool;
  xon : bool;
  xoff : bool;
  xany : bool
}.

Definition kSetControlLineState : Z := 0x22.
Definition kGetLineCoding : Z := 0x21.
Definition kSetLineCoding : Z := 0x20.

Definition kDefaultSerialOptions : SerialOptions :=
  {| baudrate := Js.of_Z 115200; databits := Js.of_Z 8;
     stopbits := Js.of_Z 1; parity := "none"; buffersize := Js.of_Z 255;
     rtscts := false; xon := false; xoff := false; xany := false |}.

Definition kAcceptableDataBits : list Js.number :=
  [Js.of_Z 16; Js.of_Z 8; Js.of_Z 7; Js.of_Z 6; Js.of_Z 5].
Definition kAcceptableStopBits : list Js.number := [Js.of_Z 1; Js.of_Z 2].
Definition kAcceptableParity : list string :=
  ["none"; "even"; "mark"; "odd"; "space"]%string.

Definition kParityIndexMapping : list string :=
  ["none"; "odd"; "even"; "mark"; "space"]%string.
Definition kStopbitsIndexMapping : list Js.number :=
  [Js.of_Z 1; Js.Fin (3 # 2); Js.of_Z 2].

Record SerialPort : Type := {
  transferInterface_ : USBInterface;
  controlInterface_ : USBInterface;
  serialOptions_ : SerialOptions
}.

Definition set_serialOptions (o : SerialOptions) (p : SerialPort)
  : SerialPort :=
  {| transferInterface_ := transferInterface_ p;
     controlInterface_ := controlInterface_ p;
     serialOptions_ := o |}.

Definition set_baudrate (v : Js.number) (o : SerialOptions) : SerialOptions :=
  {| baudrate := v; databits := databits o; stopbits := stopbits o;
     parity := parity o; buffersize := buffersize o; rtscts := rtscts o;
     xon := xon o; xoff := xoff o; xany := xany o |}.
Definition set_databits (v : Js.number) (o : SerialOptions) : SerialOptions :=
  {| baudrate := baudrate o; databits := v; stopbits := stopbits o;
     parity := parity o; buffersize := buffersize o; rtscts := rtscts o;
     xon := xon o; xoff := xoff o; xany := xany o |}.
Definition set_stopbits (v : Js.number) (o : SerialOptions) : SerialOptions :=
  {| baudrate := baudrate o; databits := databits o; stopbits := v;
     parity := parity o; buffersize := buffersize o; rtscts := rtscts o;
     xon := xon o; xoff := xoff o; xany := xany o |}.
Definition set_parity (v : string) (o : SerialOptions) : SerialOptions :=
  {| baudrate := baudrate o; databits := databits o; stopbits := stopbits o;
     parity := v; buffersize := buffersize o; rtscts := rtscts o;
     xon := xon o; xoff := xoff o; xany := xany o |}.

(** The port, its device and the controller of the [out] stream. *)
Record World : Type := {
  this : SerialPort;
  device_ : USBDevice;
  out_controller : Streams.WritableStreamDefaultController
}.

Definition on_this {A : Type} (m : M SerialPort A) : M World A :=
  fun w =>
    let (r, p) := m (this w) in
    (r, {| this := p; device_ := device_ w;
           out_controller := out_controller w |}).

Definition on_device {A : Type} (m : M USBDevice A) : M World A :=
  fun w =>
    let (r, d) := m (device_ w) in
    (r, {| this := this w; device_ := d;
           out_controller := out_controller w |}).

Definition on_controller {A : Type}
    (m : M Streams.WritableStreamDefaultController A) : M World A :=
  fun w =>
    let (r, c) := m (out_controller w) in
    (r, {| this := this w; device_ := device_ w; out_controller := c |}).

Local Open Scope js_scope.

Definition isValidBaudRate (baudrate : Js.number) : bool :=
  Js.strict_eq (Js.rem baudrate (Js.of_Z 1)) (Js.of_Z 0).
Definition isValidDataBits (databits : Js.number) : bool :=
  Js.includes Js.same_value_zero kAcceptableDataBits databits.
Definition isValidStopBits (stopbits : Js.number) : bool :=
  Js.includes Js.same_value_zero kAcceptableStopBits stopbits.
Definition isValidParity (parity : string) : bool :=
  Js.includes String.eqb kAcceptableParity parity.

Definition validateOptions : M SerialPort unit :=
  p <- get ;;
  let o := serialOptions_ p in
  if negb (isValidBaudRate (baudrate o)) then throw (RangeError BaudRate)
  else if negb (isValidDataBits (databits o)) then throw (RangeError DataBits)
  else if negb (isValidStopBits (stopbits o)) then throw (RangeError StopBits)
  else if negb (isValidParity (parity o)) then throw (RangeError Parity)
  else ret tt.

(** [getLineCodingStructure]: the 7-byte line coding of the port's
    options. *)
Definition getLineCodingStructure (p : SerialPort)
  : Result DataView.ArrayBuffer :=
  let o := serialOptions_ p in
  let fill : M DataView.ArrayBuffer unit :=
    DataView.setUint32 0 (baudrate o) ;;
    DataView.setUint8 4
      (Js.of_Z (Js.indexOf Js.strict_eq kStopbitsIndexMapping (stopbits o))) ;;
    DataView.setUint8 5
      (Js.of_Z (Js.indexOf String.eqb kParityIndexMapping (parity o))) ;;
    DataView.setUint8 6 (databits o)
  in
  match fill (DataView.new_ArrayBuffer 7) with
  | (Ok _, buffer) => Ok buffer
  | (Throw e, _) => Throw e
  end.

Definition lift_result {S A : Type} (r : Result A) : M S A :=
  fun s => (r, s).

Definition update_options (f : SerialOptions -> SerialOptions)
  : M SerialPort unit :=
  modify (fun p => set_serialOptions (f (serialOptions_ p)) p).

(** [readLineCoding]: [options] is the port's own options object, which
    the function updates in place and returns. *)
Definition readLineCoding (buffer : DataView.ArrayBuffer)
  : M SerialPort SerialOptions :=
  baud <- lift_result (DataView.getUint32 buffer 0) ;;
  update_options (set_baudrate (Js.of_Z baud)) ;;
  b4 <- lift_result (DataView.getUint8 buffer 4) ;;
  update_options (set_stopbits
    (if b4 <? Z.of_nat (length kStopbitsIndexMapping)
     then nth (Z.to_nat b4) kStopbitsIndexMapping (Js.of_Z 1)
     else Js.of_Z 1)) ;;
  b5 <- lift_result (DataView.getUint8 buffer 5) ;;
  update_options (set_parity
    (if b5 <? Z.of_nat (length kParityIndexMapping)
     then nth (Z.to_nat b5) kParityIndexMapping "none"%string
     else "none"%string)) ;;
  b6 <- lift_result (DataView.getUint8 buffer 6) ;;
  update_options (set_databits (Js.of_Z b6)) ;;
  p <- get ;;
  ret (serialOptions_ p).

(** [getInterfaceWithClass]: both [forEach] loops run to the end, every
    match overwrites the variable. *)
Definition getInterfaceWithClass (device : USBDevice) (classNumber : Z)
  : Result (option USBInterface) :=
  match configuration device with
  | None => Throw UndefinedAccess
  | Some cfg =>
      Ok (fold_left
            (fun found deviceInterface =>
               fold_left
                 (fun found' alternate =>
                    if interfaceClass alternate =? classNumber
                    then Some deviceInterface
                    else found')
                 (alternates deviceInterface) found)
            (interfaces cfg) None)
  end.

Definition direction_eqb (a b : USBDirection) : bool :=
  match a, b with
  | dir_in, dir_in => true
  | dir_out, dir_out => true
  | _, _ => false
  end.

(** [getDirectionEndpoint]: the last endpoint of the transfer interface,
    over all its alternates, with the direction. *)
Definition getDirectionEndpoint (p : SerialPort) (dir : USBDirection)
  : option USBEndpoint :=
  fold_left
    (fun found alternate =>
       fold_left
         (fun found' endpoint =>
            if direction_eqb (direction endpoint) dir
            then Some endpoint
            else found')
         (endpoints alternate) found)
    (alternates (transferInterface_ p)) None.

(** [write], the sink of the [out] stream. *)
Definition write (c : chunk) : M World unit :=
  w <- get ;;
  match getDirectionEndpoint (this w) dir_out with
  | None =>
      on_controller (Streams.werror
        (Streams.ErrorObject (PlainError "No OUT endpoint available.")))
  | Some endpoint =>
      if instanceof_Uint8Array c then
        try_catch
          (_ <- on_device (invoke (TransferOut (endpointNumber endpoint) c)) ;;
           ret tt)
          (fun error =>
             on_controller (Streams.werror (Streams.ErrorString error)))
      else throw NotUint8Array
  end.

End Legacy.

(* ------------------------------------------------------------------ *)
(** ** The current generation (camel-cased options, lazily built streams) *)

Module Polyfill.
Import Usb.

Inductive SerialPolyfillProtocol : Type :=
| UsbCdcAcm.

Record SerialPolyfillOptions : Type := {
  protocol : Js.field SerialPolyfillProtocol;
  usbControlInterfaceClass : Js.field Z;
  usbTransferInterfaceClass : Js.field Z
}.

Definition kSetLineCoding : Z := 0x20.
Definition kSetControlLineState : Z := 0x22.
Definition kSendBreak : Z := 0x23.

Definition kDefaultBufferSize : Js.number := Js.of_Z 255.
Definition kDefaultDataBits : Js.number := Js.of_Z 8.
Definition kDefaultParity : string := "none".
Definition kDefaultStopBits : Js.number := Js.of_Z 1.

Definition kAcceptableDataBits : list Js.number :=
  [Js.of_Z 16; Js.of_Z 8; Js.of_Z 7; Js.of_Z 6; Js.of_Z 5].
Definition kAcceptableStopBits : list Js.number := [Js.of_Z 1; Js.of_Z 2].
Definition kAcceptableParity : list string := ["none"; "even"; "odd"]%string.

Definition kParityIndexMapping : list string :=
  ["none"; "odd"; "even"]%string.
Definition kStopBitsIndexMapping : list Js.number :=
  [Js.of_Z 1; Js.Fin (3 # 2); Js.of_Z 2].

Definition kDefaultPolyfillOptions : SerialPolyfillOptions :=
  {| protocol := Js.Val UsbCdcAcm;
     usbControlInterfaceClass := Js.Val 2;
     usbTransferInterfaceClass := Js.Val 10 |}.

(** [findInterface]: the loop over [configuration.interfaces]. *)
Fixpoint findInterface_loop (ifaces : list USBInterface) (classCode : Z)
  : Result USBInterface :=
  match ifaces with
  | [] => Throw (InterfaceNotFound classCode)
  | iface :: rest =>
      match nth_error (alternates iface) 0 with
      | None => Throw UndefinedAccess
      | Some alternate =>
          if interfaceClass alternate =? classCode
          then Ok iface
          else findInterface_loop rest classCode
      end
  end.

Definition findInterface (device : USBDevice) (classCode : Z)
  : Result USBInterface :=
  match nth_error (configurations device) 0 with
  | None => Throw UndefinedAccess
  | Some configuration => findInterface_loop (interfaces configuration) classCode
  end.

Definition direction_eqb (a b : USBDirection) : bool :=
  match a, b with
  | dir_in, dir_in => true
  | dir_out, dir_out => true
  | _, _ => false
  end.

(** [findEndpoint]: the loop over [alternate.endpoints]. *)
Fixpoint findEndpoint_loop (iface : USBInterface) (eps : list USBEndpoint)
    (dir : USBDirection) : Result USBEndpoint :=
  match eps with
  | [] => Throw (EndpointNotFound (interfaceNumber iface) dir)
  | endpoint :: rest =>
      if direction_eqb (direction endpoint) dir
      then Ok endpoint
      else findEndpoint_loop iface rest dir
  end.

Definition findEndpoint (iface : USBInterface) (dir : USBDirection)
  : Result USBEndpoint :=
  match nth_error (alternates iface) 0 with
  | None => Throw UndefinedAccess
  | Some alternate => findEndpoint_loop iface (endpoints alternate) dir
  end.

Record SerialOptions : Type := {
  baudRate : Js.number;
  dataBits : Js.field Js.number;
  stopBits : Js.field Js.number;
  parity : Js.field string;
  bufferSize : Js.field Js.number;
  flowControl : Js.field string
}.

Record SerialOutputSignals : Type := {
  dataTerminalReady : Js.field bool;
  requestToSend : Js.field bool;
  break : Js.field bool
}.

(** The closures the port hands to its adapters as [onError]. *)
Inductive callback : Type :=
| InvalidateReadable    (* () => { this.readable_ = null; } *)
| InvalidateWritable.   (* () => { this.writable_ = null; } *)

Record UsbEndpointUnderlyingSource : Type := {
  source_endpoint_ : USBEndpoint;
  source_onError_ : callback
}.

Record UsbEndpointUnderlyingSink : Type := {
  sink_endpoint_ : USBEndpoint;
  sink_onError_ : callback
}.

Record ReadableStream : Type := {
  underlyingSource : UsbEndpointUnderlyingSource;
  readableHighWaterMark : Js.number
}.

Record WritableStream : Type := {
  underlyingSink : UsbEndpointUnderlyingSink;
  writableHighWaterMark : Js.number
}.

Record SerialPort : Type := {
  polyfillOptions_ : SerialPolyfillOptions;
  controlInterface_ : USBInterface;
  transferInterface_ : USBInterface;
  inEndpoint_ : USBEndpoint;
  outEndpoint_ : USBEndpoint;
  serialOptions_ : option SerialOptions;
  readable_ : Js.nullable ReadableStream;
  writable_ : Js.nullable WritableStream;
  outputSignals_ : SerialOutputSignals
}.

Definition set_serialOptions (o : option SerialOptions) (p : SerialPort)
  : SerialPort :=
  {| polyfillOptions_ := polyfillOptions_ p;
     controlInterface_ := controlInterface_ p;
     transferInterface_ := transferInterface_ p;
     inEndpoint_ := inEndpoint_ p; outEndpoint_ := outEndpoint_ p;
     serialOptions_ := o;
     readable_ := readable_ p; writable_ := writable_ p;
     outputSignals_ := outputSignals_ p |}.

Definition set_readable (r : Js.nullable ReadableStream) (p : SerialPort)
  : SerialPort :=
  {| polyfillOptions_ := polyfillOptions_ p;
     controlInterface_ := controlInterface_ p;
     transferInterface_ := transferInterface_ p;
     inEndpoint_ := inEndpoint_ p; outEndpoint_ := outEndpoint_ p;
     serialOptions_ := serialOptions_ p;
     readable_ := r; writable_ := writable_ p;
     outputSignals_ := outputSignals_ p |}.

Definition set_writable (r : Js.nullable WritableStream) (p : SerialPort)
  : SerialPort :=
  {| polyfillOptions_ := polyfillOptions_ p;
     controlInterface_ := controlInterface_ p;
     transferInterface_ := transferInterface_ p;
     inEndpoint_ := inEndpoint_ p; outEndpoint_ := outEndpoint_ p;
     serialOptions_ := serialOptions_ p;
     readable_ := readable_ p; writable_ := r;
     outputSignals_ := outputSignals_ p |}.

Definition set_outputSignals (s : SerialOutputSignals) (p : SerialPort)
  : SerialPort :=
  {| polyfillOptions_ := polyfillOptions_ p;
     controlInterface_ := controlInterface_ p;
     transferInterface_ := transferInterface_ p;
     inEndpoint_ := inEndpoint_ p; outEndpoint_ := outEndpoint_ p;
     serialOptions_ := serialOptions_ p;
     readable_ := readable_ p; writable_ := writable_ p;
     outputSignals_ := s |}.

(** The port, the device it refers to, the controllers of its two streams,
    and the number of times an [onError] closure has run. *)
Record World : Type := {
  this : SerialPort;
  device_ : USBDevice;
  readable_controller : Streams.ReadableByteStreamController;
  writable_controller : Streams.WritableStreamDefaultController;
  onError_runs : nat
}.

Definition on_this {A : Type} (m : M SerialPort A) : M World A :=
  fun w =>
    let (r, p) := m (this w) in
    (r, {| this := p; device_ := device_ w;
           readable_controller := readable_controller w;
           writable_controller := writable_controller w;
           onError_runs := onError_runs w |}).

Definition on_device {A : Type} (m : M USBDevice A) : M World A :=
  fun w =>
    let (r, d) := m (device_ w) in
    (r, {| this := this w; device_ := d;
           readable_controller := readable_controller w;
           writable_controller := writable_controller w;
           onError_runs := onError_runs w |}).

Definition on_readable_controller {A : Type}
    (m : M Streams.ReadableByteStreamController A) : M World A :=
  fun w =>
    let (r, c) := m (readable_controller w) in
    (r, {| this := this w; device_ := device_ w;
           readable_controller := c;
           writable_controller := writable_controller w;
           onError_runs := onError_runs w |}).

Definition on_writable_controller {A : Type}
    (m : M Streams.WritableStreamDefaultController A) : M World A :=
  fun w =>
    let (r, c) := m (writable_controller w) in
    (r, {| this := this w; device_ := device_ w;
           readable_controller := readable_controller w;
           writable_controller := c;
           onError_runs := onError_runs w |}).

Definition count_onError : M World unit :=
  fun w =>
    (Ok tt, {| this := this w; device_ := device_ w;
               readable_controller := readable_controller w;
               writable_controller := writable_controller w;
               onError_runs := S (onError_runs w) |}).

Local Open Scope js_scope.

(** Running an [onError] closure. *)
Definition run_onError (cb : callback) : M World unit :=
  count_onError ;;
  match cb with
  | InvalidateReadable => on_this (modify (set_readable Js.Null))
  | InvalidateWritable => on_this (modify (set_writable Js.Null))
  end.

(** The local [chunkSize] of [pull]. *)
Definition chunkSize (source : UsbEndpointUnderlyingSource)
    (controller : Streams.ReadableByteStreamController) : Js.number :=
  let packet := Js.of_Z (packetSize (source_endpoint_ source)) in
  match Streams.desiredSize controller with
  | Some desired =>
      if Js.truthy desired
      then Js.mul (Js.ceil (Js.div desired packet)) packet
      else packet
  | None => packet
  end.

(** [UsbEndpointUnderlyingSource.pull]: the body of its async function. *)
Definition pull (source : UsbEndpointUnderlyingSource) : M World unit :=
  w <- get ;;
  try_catch
    (result <- on_device
       (invoke (TransferIn (endpointNumber (source_endpoint_ source))
                  (chunkSize source (readable_controller w)))) ;;
     when_ (negb (is_ok (status result)))
       (on_readable_controller
          (Streams.rerror (Streams.UsbStatus (status result))) ;;
        run_onError (source_onError_ source)) ;;
     match data result with
     | Some bytes => on_readable_controller (Streams.enqueue bytes)
     | None => ret tt
     end)
    (fun error =>
       on_readable_controller
         (Streams.rerror (Streams.ErrorString error)) ;;
       run_onError (source_onError_ source)).

(** [UsbEndpointUnderlyingSink.write]. *)
Definition write (sink : UsbEndpointUnderlyingSink) (c : chunk)
  : M World unit :=
  try_catch
    (result <- on_device
       (invoke (TransferOut (endpointNumber (sink_endpoint_ sink)) c)) ;;
     when_ (negb (is_ok (status result)))
       (on_writable_controller
          (Streams.werror (Streams.UsbStatus (status result))) ;;
        run_onError (sink_onError_ sink)))
    (fun error =>
       on_writable_controller
         (Streams.werror (Streams.ErrorString error)) ;;
       run_onError (sink_onError_ sink)).

(** The constructor of [SerialPort]. *)
Definition merge_polyfillOptions (given : option SerialPolyfillOptions)
  : SerialPolyfillOptions :=
  match given with
  | None => kDefaultPolyfillOptions
  | Some o =>
      {| protocol := Js.spread (protocol kDefaultPolyfillOptions) (protocol o);
         usbControlInterfaceClass :=
           Js.spread (usbControlInterfaceClass kDefaultPolyfillOptions)
                     (usbControlInterfaceClass o);
         usbTransferInterfaceClass :=
           Js.spread (usbTransferInterfaceClass kDefaultPolyfillOptions)
                     (usbTransferInterfaceClass o) |}
  end.

Definition bind_result {A B : Type} (r : Result A) (k : A -> Result B)
  : Result B :=
  match r with
  | Ok a => k a
  | Throw e => Throw e
  end.

(** A class code read from the options; [undefined] matches no class. *)
Definition class_of (f : Js.field Z) : Z := Js.nullish (Js.read f) (-1).

Definition new_SerialPort (device : USBDevice)
    (polyfillOptions : option SerialPolyfillOptions) : Result SerialPort :=
  let opts := merge_polyfillOptions polyfillOptions in
  bind_result (findInterface device (class_of (usbControlInterfaceClass opts)))
    (fun control =>
  bind_result (findInterface device (class_of (usbTransferInterfaceClass opts)))
    (fun transfer =>
  bind_result (findEndpoint transfer dir_in) (fun inEndpoint =>
  bind_result (findEndpoint transfer dir_out) (fun outEndpoint =>
    Ok {| polyfillOptions_ := opts;
          controlInterface_ := control;
          transferInterface_ := transfer;
          inEndpoint_ := inEndpoint;
          outEndpoint_ := outEndpoint;
          serialOptions_ := None;
          readable_ := Js.Unassigned;
          writable_ := Js.Unassigned;
          outputSignals_ :=
            {| dataTerminalReady := Js.Val false;
               requestToSend := Js.Val false;
               break := Js.Val false |} |})))).

Definition lift_result {A : Type} (r : Result A) : M World A :=
  fun w => (r, w).

(** Reading [this.serialOptions_.<property>]. *)
Definition the_options : M World SerialOptions :=
  w <- get ;;
  match serialOptions_ (this w) with
  | Some o => ret o
  | None => throw UndefinedAccess
  end.

Definition fresh_readable_controller (highWaterMark : Js.number)
  : Streams.ReadableByteStreamController :=
  {| Streams.desiredSize := Some highWaterMark;
     Streams.rstate := Streams.Active;
     Streams.enqueued := [];
     Streams.rerrors := [];
     Streams.rlocked := false |}.

Definition fresh_writable_controller
  : Streams.WritableStreamDefaultController :=
  {| Streams.wstate := Streams.Active; Streams.werrors := [];
     Streams.wlocked := false |}.

(** The [readable] getter.  [new ReadableStream] throws a RangeError for
    a highWaterMark that is NaN or negative, and then nothing is
    assigned. *)
Definition readable : M World (Js.nullable ReadableStream) :=
  w <- get ;;
  when_ (negb (Js.is_object (readable_ (this w))) && opened (device_ w))
    (o <- the_options ;;
     highWaterMark <- lift_result
       (Streams.ExtractHighWaterMark
          (Js.nullish (Js.read (bufferSize o)) kDefaultBufferSize)) ;;
     let stream :=
       {| underlyingSource :=
            {| source_endpoint_ := inEndpoint_ (this w);
               source_onError_ := InvalidateReadable |};
          readableHighWaterMark := highWaterMark |} in
     on_readable_controller
       (modify (fun _ => fresh_readable_controller highWaterMark)) ;;
     on_this (modify (set_readable (Js.Object stream)))) ;;
  w' <- get ;;
  ret (readable_ (this w')).

(** The [writable] getter. *)
Definition writable : M World (Js.nullable WritableStream) :=
  w <- get ;;
  when_ (negb (Js.is_object (writable_ (this w))) && opened (device_ w))
    (o <- the_options ;;
     highWaterMark <- lift_result
       (Streams.ExtractHighWaterMark
          (Js.nullish (Js.read (bufferSize o)) kDefaultBufferSize)) ;;
     let stream :=
       {| underlyingSink :=
            {| sink_endpoint_ := outEndpoint_ (this w);
               sink_onError_ := InvalidateWritable |};
          writableHighWaterMark := highWaterMark |} in
     on_writable_controller (modify (fun _ => fresh_writable_controller)) ;;
     on_this (modify (set_writable (Js.Object stream)))) ;;
  w' <- get ;;
  ret (writable_ (this w')).

Definition isValidBaudRate (baudRate : Js.number) : bool :=
  Js.strict_eq (Js.rem baudRate (Js.of_Z 1)) (Js.of_Z 0).

Definition isValidDataBits (dataBits : option Js.number) : bool :=
  match dataBits with
  | None => true
  | Some v => Js.includes Js.same_value_zero kAcceptableDataBits v
  end.

Definition isValidStopBits (stopBits : option Js.number) : bool :=
  match stopBits with
  | None => true
  | Some v => Js.includes Js.same_value_zero kAcceptableStopBits v
  end.

Definition isValidParity (parity : option string) : bool :=
  match parity with
  | None => true
  | Some v => Js.includes String.eqb kAcceptableParity v
  end.

Definition validateOptions : M World unit :=
  o <- the_options ;;
  if negb (isValidBaudRate (baudRate o))
  then throw (RangeError BaudRate)
  else if negb (isValidDataBits (Js.read (dataBits o)))
  then throw (RangeError DataBits)
  else if negb (isValidStopBits (Js.read (stopBits o)))
  then throw (RangeError StopBits)
  else if negb (isValidParity (Js.read (parity o)))
  then throw (RangeError Parity)
  else ret tt.

(** The 7-byte buffer [setLineCoding] fills from the options. *)
Definition lineCodingBuffer (o : SerialOptions)
  : Result DataView.ArrayBuffer :=
  let fill : M DataView.ArrayBuffer unit :=
    DataView.setUint32 0 (baudRate o) ;;
    DataView.setUint8 4
      (Js.of_Z (Js.indexOf Js.strict_eq kStopBitsIndexMapping
                  (Js.nullish (Js.read (stopBits o)) kDefaultStopBits))) ;;
    DataView.setUint8 5
      (Js.of_Z (Js.indexOf String.eqb kParityIndexMapping
                  (Js.nullish (Js.read (parity o)) kDefaultParity))) ;;
    DataView.setUint8 6
      (Js.nullish (Js.read (dataBits o)) kDefaultDataBits)
  in
  match fill (DataView.new_ArrayBuffer 7) with
  | (Ok _, buffer) => Ok buffer
  | (Throw e, _) => Throw e
  end.

(** [setLineCoding]. *)
Definition setLineCoding : M World unit :=
  o <- the_options ;;
  buffer <- lift_result (lineCodingBuffer o) ;;
  w <- get ;;
  result <- on_device
    (invoke (ControlTransferOut kSetLineCoding 0
               (interfaceNumber (controlInterface_ (this w)))
               (Some buffer))) ;;
  if negb (is_ok (status result)) then throw NetworkError else ret tt.

Definition merge_signals (old new : SerialOutputSignals)
  : SerialOutputSignals :=
  {| dataTerminalReady :=
       Js.spread (dataTerminalReady old) (dataTerminalReady new);
     requestToSend := Js.spread (requestToSend old) (requestToSend new);
     break := Js.spread (break old) (break new) |}.

(** Truthiness of a boolean property. *)
Definition on_ (f : Js.field bool) : bool := Js.nullish (Js.read f) false.

Definition provided {A : Type} (f : Js.field A) : bool :=
  match Js.read f with
  | Some _ => true
  | None => false
  end.

(** [setSignals]. *)
Definition setSignals (signals : SerialOutputSignals) : M World unit :=
  on_this (modify (fun p =>
    set_outputSignals (merge_signals (outputSignals_ p) signals) p)) ;;
  when_ (provided (dataTerminalReady signals)
         || provided (requestToSend signals))
    (w <- get ;;
     let s := outputSignals_ (this w) in
     let value :=
       Z.lor (if on_ (dataTerminalReady s) then Z.shiftl 1 0 else 0)
             (if on_ (requestToSend s) then Z.shiftl 1 1 else 0) in
     _ <- on_device
       (invoke (ControlTransferOut kSetControlLineState value
                  (interfaceNumber (controlInterface_ (this w))) None)) ;;
     ret tt) ;;
  when_ (provided (break signals))
    (w <- get ;;
     let s := outputSignals_ (this w) in
     let value := if on_ (break s) then 0xFFFF else 0x0000 in
     _ <- on_device
       (invoke (ControlTransferOut kSendBreak value
                  (interfaceNumber (controlInterface_ (this w))) None)) ;;
     ret tt).

(** [this.controlInterface_ !== this.transferInterface_]: the interface
    objects of a configuration are told apart by their number. *)
Definition same_interface (a b : USBInterface) : bool :=
  interfaceNumber a =? interfaceNumber b.

Definition is_null {A : Type} (o : option A) : bool :=
  match o with
  | None => true
  | Some _ => false
  end.

(** The device sequence inside the [try] of [open]. *)
Definition open_sequence : M World unit :=
  _ <- on_device (invoke Open) ;;
  w <- get ;;
  when_ (is_null (configuration (device_ w)))
    (_ <- on_device (invoke (SelectConfiguration 1)) ;; ret tt) ;;
  _ <- on_device
    (invoke (ClaimInterface (interfaceNumber (controlInterface_ (this w))))) ;;
  when_ (negb (same_interface (controlInterface_ (this w))
                              (transferInterface_ (this w))))
    (_ <- on_device
       (invoke (ClaimInterface
                  (interfaceNumber (transferInterface_ (this w))))) ;;
     ret tt) ;;
  setLineCoding ;;
  setSignals {| dataTerminalReady := Js.Val true;
                requestToSend := Js.Absent;
                break := Js.Absent |}.

(** [open]. *)
Definition open (options : SerialOptions) : M World unit :=
  on_this (modify (set_serialOptions (Some options))) ;;
  validateOptions ;;
  try_catch open_sequence
    (fun error =>
       w <- get ;;
       when_ (opened (device_ w))
         (_ <- on_device (invoke Close) ;; ret tt) ;;
       throw (SetupError error)).

(** [{...this.serialOptions_, ...options}]. *)
Definition merge_options (old : option SerialOptions) (new : SerialOptions)
  : SerialOptions :=
  match old with
  | None => new
  | Some o =>
      {| baudRate := baudRate new;
         dataBits := Js.spread (dataBits o) (dataBits new);
         stopBits := Js.spread (stopBits o) (stopBits new);
         parity := Js.spread (parity o) (parity new);
         bufferSize := Js.spread (bufferSize o) (bufferSize new);
         flowControl := Js.spread (flowControl o) (flowControl new) |}
  end.

(** [reconfigure]. *)
Definition reconfigure (options : SerialOptions) : M World unit :=
  on_this (modify (fun p =>
    set_serialOptions (Some (merge_options (serialOptions_ p) options)) p)) ;;
  validateOptions ;;
  setLineCoding.

(** [readable_.cancel()] and [writable_.abort()]. *)
Definition cancel_readable : M World unit :=
  on_readable_controller Streams.cancel.

Definition abort_writable : M World unit :=
  on_writable_controller Streams.abort.

(** [close]: both calls are made before the first is awaited. *)
Definition close : M World unit :=
  w <- get ;;
  let promises := [] in
  promises <-
    (if Js.is_object (readable_ (this w))
     then cancelled <- promise cancel_readable ;; ret (promises ++ [cancelled])
     else ret promises) ;;
  promises <-
    (if Js.is_object (writable_ (this w))
     then aborted <- promise abort_writable ;; ret (promises ++ [aborted])
     else ret promises) ;;
  await_all promises ;;
  on_this (modify (set_readable Js.Null)) ;;
  on_this (modify (set_writable Js.Null)) ;;
  w' <- get ;;
  when_ (opened (device_ w'))
    (setSignals {| dataTerminalReady := Js.Val false;
                   requestToSend := Js.Val false;
                   break := Js.Absent |} ;;
     _ <- on_device (invoke Close) ;;
     ret tt).

(** The call [open(options)]: [open] is an async function. *)
Definition open_call (options : SerialOptions) : World -> Settled unit * World :=
  async (open options).

(** The call [reconfigure(options)]: [reconfigure] is not an async
    function, it returns the promise of the async [setLineCoding]. *)
Definition reconfigure_call (options : SerialOptions)
  : World -> Settled unit * World :=
  fun w =>
    match (on_this (modify (fun p =>
             set_serialOptions
               (Some (merge_options (serialOptions_ p) options)) p)) ;;
           validateOptions) w with
    | (Throw e, w') => (ThrownSync e, w')
    | (Ok _, w') => async setLineCoding w'
    end.

(** [getInfo]. *)
Definition getInfo (w : World) : Z * Z :=
  (vendorId (device_ w), productId (device_ w)).

(** [Serial.getPorts], from the devices the host lists. *)
Definition getPorts (devices : list USBDevice)
    (polyfillOptions : option SerialPolyfillOptions) : list SerialPort :=
  flat_map
    (fun device =>
       match new_SerialPort device polyfillOptions with
       | Ok port => [port]
       | Throw _ => []
       end)
    devices.

End Polyfill.

(* ------------------------------------------------------------------ *)
(** ** Statements about the line-coding codec *)

(** Membership of a number in a table of numbers, up to numeric sameness. *)
Definition number_in (x : Js.number) (table : list Js.number) : Prop :=
  exists v, In v table /\ Js.num_eq x v.

(** The four line-coding fields of two option records agree. *)
Definition same_line_coding (a b : Legacy.SerialOptions) : Prop :=
  Js.num_eq (Legacy.baudrate a) (Legacy.baudrate b) /\
  Js.num_eq (Legacy.databits a) (Legacy.databits b) /\
  Js.num_eq (Legacy.stopbits a) (Legacy.stopbits b) /\
  Legacy.parity a = Legacy.parity b.

(** Decoding what the port encodes: [readLineCoding(getLineCodingStructure())]. *)
Definition decode_encode (p : Legacy.SerialPort)
  : Result Legacy.SerialOptions :=
  match Legacy.getLineCodingStructure p with
  | Ok buffer => fst (Legacy.readLineCoding buffer p)
  | Throw e => Throw e
  end.

Definition roundtrip_law (p : Legacy.SerialPort) : Prop :=
  exists o, decode_encode p = Ok o /\
            same_line_coding o (Legacy.serialOptions_ p).

Definition in_tables (o : Legacy.SerialOptions) : Prop :=
  number_in (Legacy.stopbits o) Legacy.kStopbitsIndexMapping /\
  In (Legacy.parity o) Legacy.kParityIndexMapping.

Definition no_interface : Usb.USBInterface :=
  {| Usb.interfaceNumber := 0; Usb.alternates := [] |}.

(** A legacy port whose baud rate is 2^32, everything else the default. *)
Definition port_baud_4294967296 : Legacy.SerialPort :=
  {| Legacy.transferInterface_ := no_interface;
     Legacy.controlInterface_ := no_interface;
     Legacy.serialOptions_ :=
       Legacy.set_baudrate (Js.of_Z 4294967296) Legacy.kDefaultSerialOptions |}.

(** A legacy port with 9600 baud, 7 data bits, 2 stop bits, even parity. *)
Definition port_9600_7E2 : Legacy.SerialPort :=
  {| Legacy.transferInterface_ := no_interface;
     Legacy.controlInterface_ := no_interface;
     Legacy.serialOptions_ :=
       {| Legacy.baudrate := Js.of_Z 9600; Legacy.databits := Js.of_Z 7;
          Legacy.stopbits := Js.of_Z 2; Legacy.parity := "even";
          Legacy.buffersize := Js.of_Z 255; Legacy.rtscts := false;
          Legacy.xon := false; Legacy.xoff := false; Legacy.xany := false |} |}.

(* ------------------------------------------------------------------ *)
(** ** Statements about interface and endpoint lookup *)

(** [x] is the first element of [l], in order, that satisfies [P]. *)
Definition first_such {A : Type} (P : A -> Prop) (l : list A) (x : A) : Prop :=
  exists pre post, l = pre ++ x :: post /\ P x /\ forall y, In y pre -> ~ P y.

(** The first alternate setting of the interface declares the class. *)
Definition first_alternate_declares (classCode : Z) (iface : Usb.USBInterface)
  : Prop :=
  exists alternate rest,
    Usb.alternates iface = alternate :: rest /\
    Usb.interfaceClass alternate = classCode.

(** Some alternate setting of the interface declares the class. *)
Definition some_alternate_declares (classCode : Z) (iface : Usb.USBInterface)
  : Prop :=
  exists alternate,
    In alternate (Usb.alternates iface) /\
    Usb.interfaceClass alternate = classCode.

Definition some_alternate_declaresb (classCode : Z) (iface : Usb.USBInterface)
  : bool :=
  existsb (fun alternate => Usb.interfaceClass alternate =? classCode)
          (Usb.alternates iface).

Definition has_direction (dir : USBDirection) (endpoint : Usb.USBEndpoint)
  : Prop :=
  Usb.direction endpoint = dir.

(** A CDC data interface (class 10) with a bulk IN and a bulk OUT endpoint,
    and a CDC control interface (class 2). *)
Definition data_interface (n : Z) : Usb.USBInterface :=
  {| Usb.interfaceNumber := n;
     Usb.alternates :=
       [ {| Usb.interfaceClass := 10;
            Usb.endpoints :=
              [ {| Usb.endpointNumber := n; Usb.direction := dir_in;
                   Usb.packetSize := 64 |};
                {| Usb.endpointNumber := n; Usb.direction := dir_out;
                   Usb.packetSize := 64 |} ] |} ] |}.

Definition control_interface (n : Z) : Usb.USBInterface :=
  {| Usb.interfaceNumber := n;
     Usb.alternates :=
       [ {| Usb.interfaceClass := 2; Usb.endpoints := [] |} ] |}.

(** A composite adapter with two serial functions. *)
Definition two_port_configuration : Usb.USBConfiguration :=
  {| Usb.configurationValue := 1;
     Usb.interfaces :=
       [ control_interface 0; data_interface 1;
         control_interface 2; data_interface 3 ] |}.

Definition two_port_device (replies : list Usb.reply) : Usb.USBDevice :=
  {| Usb.configurations := [two_port_configuration];
     Usb.configuration := Some two_port_configuration;
     Usb.opened := false;
     Usb.claimed := [];
     Usb.vendorId := 0x0403;
     Usb.productId := 0x6001;
     Usb.log := [];
     Usb.script := replies |}.

(* ------------------------------------------------------------------ *)
(** ** Statements about the port and its stream adapters *)

(** The calls a computation adds to the device's log. *)
Definition new_calls {A : Type} (m : M Polyfill.World A) (w : Polyfill.World)
  : list Usb.call :=
  skipn (length (Usb.log (Polyfill.device_ w)))
        (Usb.log (Polyfill.device_ (snd (m w)))).

Definition legacy_new_calls {A : Type} (m : M Legacy.World A) (w : Legacy.World)
  : list Usb.call :=
  skipn (length (Usb.log (Legacy.device_ w)))
        (Usb.log (Legacy.device_ (snd (m w)))).

Definition in_endpoint_1 : Usb.USBEndpoint :=
  {| Usb.endpointNumber := 1; Usb.direction := dir_in; Usb.packetSize := 64 |}.

Definition out_endpoint_1 : Usb.USBEndpoint :=
  {| Usb.endpointNumber := 1; Usb.direction := dir_out; Usb.packetSize := 64 |}.

Definition all_signals_off : Polyfill.SerialOutputSignals :=
  {| Polyfill.dataTerminalReady := Js.Val false;
     Polyfill.requestToSend := Js.Val false;
     Polyfill.break := Js.Val false |}.

(** The port the constructor builds for the two-function adapter. *)
Definition example_port : Polyfill.SerialPort :=
  {| Polyfill.polyfillOptions_ := Polyfill.kDefaultPolyfillOptions;
     Polyfill.controlInterface_ := control_interface 0;
     Polyfill.transferInterface_ := data_interface 1;
     Polyfill.inEndpoint_ := in_endpoint_1;
     Polyfill.outEndpoint_ := out_endpoint_1;
     Polyfill.serialOptions_ := None;
     Polyfill.readable_ := Js.Unassigned;
     Polyfill.writable_ := Js.Unassigned;
     Polyfill.outputSignals_ := all_signals_off |}.

Definition example_source : Polyfill.UsbEndpointUnderlyingSource :=
  {| Polyfill.source_endpoint_ := in_endpoint_1;
     Polyfill.source_onError_ := Polyfill.InvalidateReadable |}.

Definition example_sink : Polyfill.UsbEndpointUnderlyingSink :=
  {| Polyfill.sink_endpoint_ := out_endpoint_1;
     Polyfill.sink_onError_ := Polyfill.InvalidateWritable |}.

Definition example_readable : Polyfill.ReadableStream :=
  {| Polyfill.underlyingSource := example_source;
     Polyfill.readableHighWaterMark := Js.of_Z 255 |}.

(** A world around [example_port]: the host's replies to come, and what the
    readable stream's controller reports as desired size. *)
Definition example_world (replies : list Usb.reply)
    (desired : option Js.number) : Polyfill.World :=
  {| Polyfill.this :=
       Polyfill.set_readable (Js.Object example_readable) example_port;
     Polyfill.device_ := two_port_device replies;
     Polyfill.readable_controller :=
       {| Streams.desiredSize := desired; Streams.rstate := Streams.Active;
          Streams.enqueued := []; Streams.rerrors := [];
          Streams.rlocked := false |};
     Polyfill.writable_controller := Polyfill.fresh_writable_controller;
     Polyfill.onError_runs := 0 |}.

Definition legacy_example_world (replies : list Usb.reply) : Legacy.World :=
  {| Legacy.this :=
       {| Legacy.transferInterface_ := data_interface 1;
          Legacy.controlInterface_ := control_interface 0;
          Legacy.serialOptions_ := Legacy.kDefaultSerialOptions |};
     Legacy.device_ := two_port_device replies;
     Legacy.out_controller := Polyfill.fresh_writable_controller |}.

(** A reply that fails a transfer: a rejection, or a status other than
    'ok'. *)
Definition failed_reply (r : Usb.reply) : Prop :=
  match r with
  | Usb.Reject _ => True
  | Usb.Resolve result => Usb.status result <> Usb.status_ok
  end.

(** The control transfers of a log that carry the request code. *)
Definition is_request (request : Z) (c : Usb.call) : bool :=
  match c with
  | Usb.ControlTransferOut r _ _ _ => r =? request
  | _ => false
  end.

Definition count_request (request : Z) (calls : list Usb.call) : nat :=
  length (filter (is_request request) calls).

(** The state of one output signal after a [setSignals] call, from what
    the port remembered and what the call gives: a call that has the
    property sets the signal, to off when the property holds [undefined];
    a call without the property leaves the signal as remembered. *)
Definition signal_after (remembered given : Js.field bool) : bool :=
  match given with
  | Js.Val b => b
  | Js.Undefined => false
  | Js.Absent =>
      match remembered with
      | Js.Val b => b
      | _ => false
      end
  end.

Definition signals (dtr rts brk : Js.field bool) : Polyfill.SerialOutputSignals :=
  {| Polyfill.dataTerminalReady := dtr;
     Polyfill.requestToSend := rts;
     Polyfill.break := brk |}.

(* ------------------------------------------------------------------ *)
(** ** Statements about option validation and [open] *)

(** The number is one of the listed integers. *)
Definition number_among (x : Js.number) (zs : list Z) : Prop :=
  exists z, In z zs /\ Js.num_eq x (Js.of_Z z).

Definition nonnegative_integer (x : Js.number) : Prop :=
  exists z, 0 <= z /\ Js.num_eq x (Js.of_Z z).

(** An options record with all four line-coding fields present. *)
Definition fully_specified (baud data stop : Js.number) (par : string)
    (buffer : Js.field Js.number) (flow : Js.field string)
  : Polyfill.SerialOptions :=
  {| Polyfill.baudRate := baud;
     Polyfill.dataBits := Js.Val data;
     Polyfill.stopBits := Js.Val stop;
     Polyfill.parity := Js.Val par;
     Polyfill.bufferSize := buffer;
     Polyfill.flowControl := flow |}.

Definition throws_RangeError {A : Type} (r : Result A) : Prop :=
  exists f, r = Throw (RangeError f).

(** The world once [this.serialOptions_ = options] has run. *)
Definition with_options (options : Polyfill.SerialOptions) (w : Polyfill.World)
  : Polyfill.World :=
  snd (Polyfill.on_this
         (modify (Polyfill.set_serialOptions (Some options))) w).

(** No interface is claimed on a device that is not open. *)
Definition closed_means_unclaimed (d : Usb.USBDevice) : Prop :=
  Usb.opened d = false -> Usb.claimed d = [].

(** The host does not reject the next call. *)
Definition next_call_accepted (d : Usb.USBDevice) : Prop :=
  match Usb.script d with
  | Usb.Reject _ :: _ => False
  | _ => True
  end.

(** Atomicity of [open]: whenever validation passes and the device sequence
    raises [e], [open] rejects with the wrapped [e] and leaves the device
    closed with no interface claimed. *)
Definition open_is_atomic (options : Polyfill.SerialOptions)
    (w : Polyfill.World) : Prop :=
  fst (Polyfill.validateOptions (with_options options w)) = Ok tt ->
  forall e,
    fst (Polyfill.open_sequence (with_options options w)) = Throw e ->
    fst (Polyfill.open options w) = Throw (SetupError e) /\
    Usb.opened (Polyfill.device_ (snd (Polyfill.open options w))) = false /\
    Usb.claimed (Polyfill.device_ (snd (Polyfill.open options w))) = [].

Definition options_9600_8N1 : Polyfill.SerialOptions :=
  fully_specified (Js.of_Z 9600) (Js.of_Z 8) (Js.of_Z 1) "none"
    Js.Absent Js.Absent.

Definition options_baud_only (baud : Js.number) : Polyfill.SerialOptions :=
  {| Polyfill.baudRate := baud;
     Polyfill.dataBits := Js.Absent;
     Polyfill.stopBits := Js.Absent;
     Polyfill.parity := Js.Absent;
     Polyfill.bufferSize := Js.Absent;
     Polyfill.flowControl := Js.Absent |}.

(** Every run of the computation carries the device property over. *)
Definition preserves {A : Type} (I : Usb.USBDevice -> Prop)
    (m : M Polyfill.World A) : Prop :=
  forall w, I (Polyfill.device_ w) -> I (Polyfill.device_ (snd (m w))).

Definition is_open (d : Usb.USBDevice) : Prop := Usb.opened d = true.

(** The host accepts [open] and then rejects both the claim of the control
    interface and the [close] that follows: the adapter was unplugged. *)
Definition unplugged_during_open : list Usb.reply :=
  [ Usb.Resolve Usb.resolved_ok;
    Usb.Reject "NotFoundError";
    Usb.Reject "NotFoundError" ].

(** The host stalls the Set Line Coding request. *)
Definition line_coding_stalled : list Usb.reply :=
  [ Usb.Resolve Usb.resolved_ok;
    Usb.Resolve Usb.resolved_ok;
    Usb.Resolve Usb.resolved_ok;
    Usb.Resolve {| Usb.status := Usb.status_stall; Usb.data := None |} ].

(** A device that exposes only a control interface. *)
Definition control_only_device : Usb.USBDevice :=
  {| Usb.configurations :=
       [ {| Usb.configurationValue := 1;
            Usb.interfaces := [control_interface 0] |} ];
     Usb.configuration := None;
     Usb.opened := false;
     Usb.claimed := [];
     Usb.vendorId := 0x2341;
     Usb.productId := 0x0043;
     Usb.log := [];
     Usb.script := [] |}.

(** Running one computation after another, for its final world. *)
Definition then_world {A : Type} (m : M Polyfill.World A) (w : Polyfill.World)
  : Polyfill.World :=
  snd (m w).


(* ------------------------------------------------------------------ *)
(** ** Further statements about lookup, construction and the registry *)

(** The first alternate setting of the interface exists and declares
    another class. *)
Definition first_alternate_differs (classCode : Z) (iface : Usb.USBInterface)
  : Prop :=
  exists alternate rest,
    Usb.alternates iface = alternate :: rest /\
    Usb.interfaceClass alternate <> classCode.

(** The endpoint is one of the first alternate setting of the interface. *)
Definition endpoint_of_first_alternate (endpoint : Usb.USBEndpoint)
    (iface : Usb.USBInterface) : Prop :=
  exists alternate rest,
    Usb.alternates iface = alternate :: rest /\
    In endpoint (Usb.endpoints alternate).

(** The class asked for by a property of the caller's polyfill options:
    the value the property holds, the default when the caller gives no
    such property, and none when the property holds [undefined]. *)
Definition requested_class (default : Z) (property : Js.field Z) : option Z :=
  match property with
  | Js.Absent => Some default
  | Js.Undefined => None
  | Js.Val classCode => Some classCode
  end.

(** The two class properties as the caller gives them; a caller that
    passes no options gives neither. *)
Definition given_control_class (given : option Polyfill.SerialPolyfillOptions)
  : Js.field Z :=
  match given with
  | Some o => Polyfill.usbControlInterfaceClass o
  | None => Js.Absent
  end.

Definition given_transfer_class (given : option Polyfill.SerialPolyfillOptions)
  : Js.field Z :=
  match given with
  | Some o => Polyfill.usbTransferInterfaceClass o
  | None => Js.Absent
  end.

(** What the constructor establishes: the interfaces and endpoints the
    port has located on the device, for the classes asked for (2 and 10
    by default), and its initial state. *)
Definition located (device : Usb.USBDevice)
    (given : option Polyfill.SerialPolyfillOptions)
    (port : Polyfill.SerialPort) : Prop :=
  (exists cfg others,
      Usb.configurations device = cfg :: others /\
      In (Polyfill.controlInterface_ port) (Usb.interfaces cfg) /\
      In (Polyfill.transferInterface_ port) (Usb.interfaces cfg)) /\
  (forall classCode,
      requested_class 2 (given_control_class given) = Some classCode ->
      first_alternate_declares classCode (Polyfill.controlInterface_ port)) /\
  (forall classCode,
      requested_class 10 (given_transfer_class given) = Some classCode ->
      first_alternate_declares classCode (Polyfill.transferInterface_ port)) /\
  Usb.direction (Polyfill.inEndpoint_ port) = dir_in /\
  endpoint_of_first_alternate (Polyfill.inEndpoint_ port)
    (Polyfill.transferInterface_ port) /\
  Usb.direction (Polyfill.outEndpoint_ port) = dir_out /\
  endpoint_of_first_alternate (Polyfill.outEndpoint_ port)
    (Polyfill.transferInterface_ port) /\
  Polyfill.serialOptions_ port = None /\
  Polyfill.readable_ port = Js.Unassigned /\
  Polyfill.writable_ port = Js.Unassigned /\
  Polyfill.outputSignals_ port = all_signals_off.

(** A highWaterMark the stream constructors accept: a number that is
    neither NaN nor negative. *)
Definition acceptable_highWaterMark (x : Js.number) : Prop :=
  match x with
  | Js.Fin q => (0 <= q)%Q
  | Js.PosInf => True
  | Js.NaN | Js.NegInf => False
  end.

(** The highWaterMark the getters take from the options. *)
Definition highWaterMark_of (o : Polyfill.SerialOptions) : Js.number :=
  match Polyfill.bufferSize o with
  | Js.Val size => size
  | _ => Js.of_Z 255
  end.

(** The stream the [readable] getter builds for the port and options. *)
Definition built_readable (port : Polyfill.SerialPort)
    (o : Polyfill.SerialOptions) : Polyfill.ReadableStream :=
  {| Polyfill.underlyingSource :=
       {| Polyfill.source_endpoint_ := Polyfill.inEndpoint_ port;
          Polyfill.source_onError_ := Polyfill.InvalidateReadable |};
     Polyfill.readableHighWaterMark := highWaterMark_of o |}.

(** The stream the [writable] getter builds for the port and options. *)
Definition built_writable (port : Polyfill.SerialPort)
    (o : Polyfill.SerialOptions) : Polyfill.WritableStream :=
  {| Polyfill.underlyingSink :=
       {| Polyfill.sink_endpoint_ := Polyfill.outEndpoint_ port;
          Polyfill.sink_onError_ := Polyfill.InvalidateWritable |};
     Polyfill.writableHighWaterMark := highWaterMark_of o |}.

(** The example world once the device has been opened with 9600 8N1. *)
Definition opened_world (replies : list Usb.reply) : Polyfill.World :=
  then_world (Polyfill.open options_9600_8N1) (example_world replies None).

(** The reason a failed outbound transfer gives to [controller.error]. *)
Definition write_failure_reason (r : Usb.reply) : Streams.reason :=
  match r with
  | Usb.Reject name => Streams.ErrorString (HostError name)
  | Usb.Resolve result => Streams.UsbStatus (Usb.status result)
  end.

(** A reply that completes a transfer with status 'ok'. *)
Definition ok_reply (r : Usb.reply) : Prop :=
  match r with
  | Usb.Reject _ => False
  | Usb.Resolve result => Usb.status result = Usb.status_ok
  end.

(** The host carries out every call and completes every transfer with
    status 'ok'. *)
Definition all_ok (replies : list Usb.reply) : bool :=
  forallb
    (fun r =>
       match r with
       | Usb.Resolve result => Usb.is_ok (Usb.status result)
       | Usb.Reject _ => false
       end)
    replies.

Definition is_close (c : Usb.call) : bool :=
  match c with
  | Usb.Close => true
  | _ => false
  end.

(* ------------------------------------------------------------------ *)
(** ** Further statements about [open], [close] and [reconfigure] *)

Definition with_device (d : Usb.USBDevice) (w : Polyfill.World)
  : Polyfill.World :=
  {| Polyfill.this := Polyfill.this w;
     Polyfill.device_ := d;
     Polyfill.readable_controller := Polyfill.readable_controller w;
     Polyfill.writable_controller := Polyfill.writable_controller w;
     Polyfill.onError_runs := Polyfill.onError_runs w |}.

Definition with_this (p : Polyfill.SerialPort) (w : Polyfill.World)
  : Polyfill.World :=
  {| Polyfill.this := p;
     Polyfill.device_ := Polyfill.device_ w;
     Polyfill.readable_controller := Polyfill.readable_controller w;
     Polyfill.writable_controller := Polyfill.writable_controller w;
     Polyfill.onError_runs := Polyfill.onError_runs w |}.

(** The example port on its device, before anything was done with it. *)
Definition untouched_world : Polyfill.World :=
  with_this example_port (example_world [] None).

(** Valid line settings with a negative buffer size. *)
Definition options_negative_buffer : Polyfill.SerialOptions :=
  fully_specified (Js.of_Z 9600) (Js.of_Z 8) (Js.of_Z 1) "none"
    (Js.Val (Js.of_Z (-1))) Js.Absent.

(** The device after the host carried out the call, and after it carried
    out a list of calls. *)
Definition accept_call (c : Usb.call) (d : Usb.USBDevice) : Usb.USBDevice :=
  Usb.effect c (Usb.record_call c d).

Definition accept (calls : list Usb.call) (d : Usb.USBDevice) : Usb.USBDevice :=
  fold_left (fun d' c => accept_call c d') calls d.

(** The calls of a [setSignals] that runs to its end. *)
Definition signal_calls (old s : Polyfill.SerialOutputSignals) (index : Z)
  : list Usb.call :=
  let merged := Polyfill.merge_signals old s in
  (if Polyfill.provided (Polyfill.dataTerminalReady s)
      || Polyfill.provided (Polyfill.requestToSend s)
   then [Usb.ControlTransferOut Polyfill.kSetControlLineState
           (Z.lor
              (if Polyfill.on_ (Polyfill.dataTerminalReady merged)
               then 1 else 0)
              (if Polyfill.on_ (Polyfill.requestToSend merged)
               then 2 else 0))
           index None]
   else [])
  ++
  (if Polyfill.provided (Polyfill.break s)
   then [Usb.ControlTransferOut Polyfill.kSendBreak
           (if Polyfill.on_ (Polyfill.break merged) then 0xFFFF else 0x0000)
           index None]
   else []).

(** The calls of an [open] that runs to its end, given the line-coding
    payload. *)
Definition open_trace (w : Polyfill.World) (payload : DataView.ArrayBuffer)
  : list Usb.call :=
  let control :=
    Usb.interfaceNumber (Polyfill.controlInterface_ (Polyfill.this w)) in
  let transfer :=
    Usb.interfaceNumber (Polyfill.transferInterface_ (Polyfill.this w)) in
  [Usb.Open]
  ++ (if Polyfill.is_null (Usb.configuration (Polyfill.device_ w))
      then [Usb.SelectConfiguration 1] else [])
  ++ [Usb.ClaimInterface control]
  ++ (if Polyfill.same_interface
           (Polyfill.controlInterface_ (Polyfill.this w))
           (Polyfill.transferInterface_ (Polyfill.this w))
      then [] else [Usb.ClaimInterface transfer])
  ++ [ Usb.ControlTransferOut Polyfill.kSetLineCoding 0 control (Some payload);
       Usb.ControlTransferOut Polyfill.kSetControlLineState
         (Z.lor 1
            (if Polyfill.on_
                  (Polyfill.requestToSend
                     (Polyfill.outputSignals_ (Polyfill.this w)))
             then 2 else 0))
         control None ].

(** The error with which [cancel()] refuses the cached readable stream,
    if it does: a TypeError when a reader holds the stream, else the
    stored error when the stream is errored.  Without a cached stream
    there is no call to refuse. *)
Definition readable_refusal (w : Polyfill.World) : option exn :=
  match Polyfill.readable_ (Polyfill.this w) with
  | Js.Object _ =>
      if Streams.rlocked (Polyfill.readable_controller w)
      then Some StreamLockedError
      else
        match Streams.rstate (Polyfill.readable_controller w) with
        | Streams.Errored => Some StreamStoredError
        | _ => None
        end
  | _ => None
  end.

(** The error with which [abort()] refuses the cached writable stream, if
    it does: a TypeError when a writer holds the stream. *)
Definition writable_refusal (w : Polyfill.World) : option exn :=
  match Polyfill.writable_ (Polyfill.this w) with
  | Js.Object _ =>
      if Streams.wlocked (Polyfill.writable_controller w)
      then Some StreamLockedError
      else None
  | _ => None
  end.

(** A readable stream after a [cancel()] that went through, and a writable
    stream after an [abort()] that went through. *)
Definition cancelled (c : Streams.ReadableByteStreamController)
  : Streams.ReadableByteStreamController :=
  match Streams.rstate c with
  | Streams.Active =>
      {| Streams.desiredSize := Some (Js.of_Z 0);
         Streams.rstate := Streams.Closed;
         Streams.enqueued := Streams.enqueued c;
         Streams.rerrors := Streams.rerrors c;
         Streams.rlocked := Streams.rlocked c |}
  | _ => c
  end.

Definition aborted (c : Streams.WritableStreamDefaultController)
  : Streams.WritableStreamDefaultController :=
  match Streams.wstate c with
  | Streams.Active =>
      {| Streams.wstate := Streams.Errored;
         Streams.werrors := Streams.werrors c;
         Streams.wlocked := Streams.wlocked c |}
  | _ => c
  end.

(** The world once [close] has cancelled and dropped the cached streams,
    before it turns to the device. *)
Definition torn_down (w : Polyfill.World) : Polyfill.World :=
  {| Polyfill.this :=
       Polyfill.set_writable Js.Null
         (Polyfill.set_readable Js.Null (Polyfill.this w));
     Polyfill.device_ := Polyfill.device_ w;
     Polyfill.readable_controller :=
       match Polyfill.readable_ (Polyfill.this w) with
       | Js.Object _ => cancelled (Polyfill.readable_controller w)
       | _ => Polyfill.readable_controller w
       end;
     Polyfill.writable_controller :=
       match Polyfill.writable_ (Polyfill.this w) with
       | Js.Object _ => aborted (Polyfill.writable_controller w)
       | _ => Polyfill.writable_controller w
       end;
     Polyfill.onError_runs := Polyfill.onError_runs w |}.

(** The example world, open, while a reader holds the readable stream
    the port has cached. *)
Definition reader_held_world : Polyfill.World :=
  let w := opened_world [] in
  {| Polyfill.this := Polyfill.this w;
     Polyfill.device_ := Polyfill.device_ w;
     Polyfill.readable_controller :=
       {| Streams.desiredSize :=
            Streams.desiredSize (Polyfill.readable_controller w);
          Streams.rstate := Streams.rstate (Polyfill.readable_controller w);
          Streams.enqueued := Streams.enqueued (Polyfill.readable_controller w);
          Streams.rerrors := Streams.rerrors (Polyfill.readable_controller w);
          Streams.rlocked := true |};
     Polyfill.writable_controller := Polyfill.writable_controller w;
     Polyfill.onError_runs := Polyfill.onError_runs w |}.

(** A property of the options the port holds; a port that holds no
    options yet has none of them. *)
Definition stored_property {A : Type}
    (property : Polyfill.SerialOptions -> Js.field A) (w : Polyfill.World)
  : Js.field A :=
  match Polyfill.serialOptions_ (Polyfill.this w) with
  | Some o => property o
  | None => Js.Absent
  end.

(** A property after [reconfigure]: what the call gives when it has the
    property, even one that holds [undefined], and what was stored before
    when it has not. *)
Definition takes_over {A : Type} (stored given result : Js.field A) : Prop :=
  (given = Js.Absent -> result = stored) /\
  (given <> Js.Absent -> result = given).

(** Options that give only 9 data bits besides the baud rate. *)
Definition options_9_data_bits : Polyfill.SerialOptions :=
  {| Polyfill.baudRate := Js.of_Z 9600;
     Polyfill.dataBits := Js.Val (Js.of_Z 9);
     Polyfill.stopBits := Js.Absent;
     Polyfill.parity := Js.Absent;
     Polyfill.bufferSize := Js.Absent;
     Polyfill.flowControl := Js.Absent |}.

(** The line-coding codes of the accepted stop bits and parities. *)
Definition stop_bits_code (stop : Z) : Z := if stop =? 1 then 0 else 2.

Definition parity_code_of (par : string) : Z :=
  if String.eqb par "none" then 0
  else if String.eqb par "odd" then 1
  else 2.

(* ------------------------------------------------------------------ *)
(** ** More of the legacy generation: construction, [setOptions],
       [getInfo] and the registry *)

Module LegacyPort.
Import Usb.

(** How a synchronous legacy function ends: it returns, it throws one of
    the errors already listed, or it throws a TypeError with a message of
    its own. *)
Inductive Completion (A : Type) : Type :=
| Returned (a : A)
| Thrown (e : exn)
| ThrownTypeError (message : string).
Arguments Returned {A} a.
Arguments Thrown {A} e.
Arguments ThrownTypeError {A} message.

(** [isSerialDevice]: the three nested [forEach] loops set one flag per
    class; the descriptor arrays are arrays, so the [instanceof Array]
    tests hold. *)
Definition isSerialDevice (device : USBDevice) : bool :=
  let flags :=
    fold_left
      (fun flags config =>
         fold_left
           (fun flags' thisInterface =>
              fold_left
                (fun (flags'' : bool * bool) alternate =>
                   let hasInterfaceClassTen :=
                     if interfaceClass alternate =? 10 then true
                     else fst flags'' in
                   let hasInterfaceClassTwo :=
                     if interfaceClass alternate =? 2 then true
                     else snd flags'' in
                   (hasInterfaceClassTen, hasInterfaceClassTwo))
                (alternates thisInterface) flags')
           (interfaces config) flags)
      (configurations device) (false, false) in
  fst flags && snd flags.

Definition getControlInterface (device : USBDevice)
  : Result (option USBInterface) :=
  Legacy.getInterfaceWithClass device 2.

Definition getTransferInterface (device : USBDevice)
  : Result (option USBInterface) :=
  Legacy.getInterfaceWithClass device 10.

(** [setPort], for a port that holds the given options: the interfaces it
    stores, or how it throws. *)
Definition setPort (options : Legacy.SerialOptions) (device : USBDevice)
  : Completion Legacy.SerialPort :=
  if negb (isSerialDevice device)
  then ThrownTypeError "This is not a serial port"
  else
    match getTransferInterface device with
    | Throw e => Thrown e
    | Ok None => Thrown (PlainError "Unable to find data transfer interface.")
    | Ok (Some transferInterface) =>
        match getControlInterface device with
        | Throw e => Thrown e
        | Ok None => Thrown (PlainError "Unable to find control interface.")
        | Ok (Some controlInterface) =>
            Returned
              {| Legacy.transferInterface_ := transferInterface;
                 Legacy.controlInterface_ := controlInterface;
                 Legacy.serialOptions_ := options |}
        end
    end.

(** The interface fields of a port under construction, before [setPort]
    has assigned them. *)
Definition unassigned : USBInterface :=
  {| interfaceNumber := 0; alternates := [] |}.

(** The constructor: [{...kDefaultSerialOptions, ...serialOptions}], then
    [validateOptions], then [setPort]. *)
Definition new_SerialPort (device : USBDevice)
    (serialOptions : option Legacy.SerialOptions)
  : Completion Legacy.SerialPort :=
  let options :=
    match serialOptions with
    | Some given => given
    | None => Legacy.kDefaultSerialOptions
    end in
  match fst (Legacy.validateOptions
               {| Legacy.transferInterface_ := unassigned;
                  Legacy.controlInterface_ := unassigned;
                  Legacy.serialOptions_ := options |}) with
  | Throw e => Thrown e
  | Ok _ => setPort options device
  end.

(** [Serial.getPorts], from the devices the host lists: the constructor
    runs inside [forEach] with nothing to catch what it throws. *)
Fixpoint getPorts (devices : list USBDevice)
  : Completion (list Legacy.SerialPort) :=
  match devices with
  | [] => Returned []
  | device :: rest =>
      if isSerialDevice device then
        match new_SerialPort device None with
        | Returned port =>
            match getPorts rest with
            | Returned ports => Returned (port :: ports)
            | Thrown e => Thrown e
            | ThrownTypeError m => ThrownTypeError m
            end
        | Thrown e => Thrown e
        | ThrownTypeError m => ThrownTypeError m
        end
      else getPorts rest
  end.

Local Open Scope js_scope.

(** [setSerialOptions]: the promise of the Set Line Coding transfer. *)
Definition setSerialOptions : M Legacy.World USBTransferResult :=
  w <- get ;;
  buffer <- Legacy.lift_result
              (Legacy.getLineCodingStructure (Legacy.this w)) ;;
  Legacy.on_device
    (invoke (ControlTransferOut Legacy.kSetLineCoding 0x00 0x00 (Some buffer))).

(** [setOptions]. *)
Definition setOptions (options : option Legacy.SerialOptions)
  : M Legacy.World USBTransferResult :=
  Legacy.on_this (modify (fun p =>
    Legacy.set_serialOptions
      (match options with
       | Some given => given
       | None => Legacy.serialOptions_ p
       end) p)) ;;
  Legacy.on_this Legacy.validateOptions ;;
  setSerialOptions.

(** [getInfo]: the decoded options, or [undefined] when the status is not
    'ok'.  The bytes of the reply stand for [response.data.buffer]: the
    view the host hands back spans its whole buffer. *)
Definition getInfo : M Legacy.World (option Legacy.SerialOptions) :=
  response <- Legacy.on_device
    (invoke (ControlTransferIn Legacy.kGetLineCoding 0x00 0x00 7)) ;;
  if is_ok (status response) then
    match data response with
    | None => throw UndefinedAccess
    | Some buffer =>
        options <- Legacy.on_this (Legacy.readLineCoding buffer) ;;
        ret (Some options)
    end
  else ret None.

End LegacyPort.

(** Some alternate setting, somewhere in the device's configurations,
    declares the class. *)
Definition device_declares (classCode : Z) (device : Usb.USBDevice) : Prop :=
  exists config thisInterface alternate,
    In config (Usb.configurations device) /\
    In thisInterface (Usb.interfaces config) /\
    In alternate (Usb.alternates thisInterface) /\
    Usb.interfaceClass alternate = classCode.

(** The two-function adapter before any configuration is active. *)
Definition unconfigured_device : Usb.USBDevice :=
  Usb.set_configuration None (two_port_device []).

(** The legacy world with another controller for the [out] stream. *)
Definition legacy_with_controller
    (c : Streams.WritableStreamDefaultController) (w : Legacy.World)
  : Legacy.World :=
  {| Legacy.this := Legacy.this w;
     Legacy.device_ := Legacy.device_ w;
     Legacy.out_controller := c |}.

Definition legacy_with_device (d : Usb.USBDevice) (w : Legacy.World)
  : Legacy.World :=
  {| Legacy.this := Legacy.this w;
     Legacy.device_ := d;
     Legacy.out_controller := Legacy.out_controller w |}.

Definition legacy_with_this (p : Legacy.SerialPort) (w : Legacy.World)
  : Legacy.World :=
  {| Legacy.this := p;
     Legacy.device_ := Legacy.device_ w;
     Legacy.out_controller := Legacy.out_controller w |}.

(** All endpoints of an interface, alternate setting after alternate
    setting. *)
Definition all_endpoints (iface : Usb.USBInterface) : list Usb.USBEndpoint :=
  flat_map Usb.endpoints (Usb.alternates iface).

(** Some alternate setting of some interface of the configurations declares
    the class, as a boolean. *)
Definition configurations_declare (classCode : Z)
    (configs : list Usb.USBConfiguration) : bool :=
  existsb
    (fun config =>
       existsb (some_alternate_declaresb classCode) (Usb.interfaces config))
    configs.


(** ** The [Serial] object of the current generation *)

Module Serial.

(** A filter of the Web Serial API: both members are optional. *)
Record SerialPortFilter : Type := {
  usbVendorId : Js.field Z;
  usbProductId : Js.field Z
}.

Record SerialPortRequestOptions : Type := {
  filters : Js.field (list SerialPortFilter)
}.

(** A filter of the WebUSB API, as far as [requestPort] fills it. *)
Record USBDeviceFilter : Type := {
  classCode : Js.field Z;
  vendorId : Js.field Z;
  productId : Js.field Z
}.

(** A property written with what a read gave: it exists, and holds
    [undefined] when the read did. *)
Definition written {A : Type} (read : option A) : Js.field A :=
  match read with
  | Some v => Js.Val v
  | None => Js.Undefined
  end.

(** The filter [{classCode: polyfillOptions.usbControlInterfaceClass}]. *)
Definition class_filter (polyfillOptions : Polyfill.SerialPolyfillOptions)
  : USBDeviceFilter :=
  {| classCode :=
       written (Js.read (Polyfill.usbControlInterfaceClass polyfillOptions));
     vendorId := Js.Absent;
     productId := Js.Absent |}.

(** The body of the loop over [options.filters]. *)
Definition usbFilter_of (polyfillOptions : Polyfill.SerialPolyfillOptions)
    (filter : SerialPortFilter) : USBDeviceFilter :=
  let usbFilter := class_filter polyfillOptions in
  let usbFilter :=
    match Js.read (usbVendorId filter) with
    | Some v =>
        {| classCode := classCode usbFilter; vendorId := Js.Val v;
           productId := productId usbFilter |}
    | None => usbFilter
    end in
  match Js.read (usbProductId filter) with
  | Some v =>
      {| classCode := classCode usbFilter; vendorId := vendorId usbFilter;
         productId := Js.Val v |}
  | None => usbFilter
  end.

(** The filters [requestPort] hands to [navigator.usb.requestDevice]. *)
Definition usbFilters (options : option SerialPortRequestOptions)
    (polyfillOptions : Polyfill.SerialPolyfillOptions)
  : list USBDeviceFilter :=
  let usbFilters :=
    match options with
    | Some o =>
        match Js.read (filters o) with
        | Some given => map (usbFilter_of polyfillOptions) given
        | None => []
        end
    | None => []
    end in
  if (length usbFilters =? 0)%nat
  then usbFilters ++ [class_filter polyfillOptions]
  else usbFilters.

(** [requestPort]; [requestDevice] is the host's chooser, which resolves
    with a device or rejects. *)
Definition requestPort
    (requestDevice : list USBDeviceFilter -> Result Usb.USBDevice)
    (options : option SerialPortRequestOptions)
    (polyfillOptions : option Polyfill.SerialPolyfillOptions)
  : Result Polyfill.SerialPort :=
  let polyfillOptions := Polyfill.merge_polyfillOptions polyfillOptions in
  Polyfill.bind_result (requestDevice (usbFilters options polyfillOptions))
    (fun device => Polyfill.new_SerialPort device (Some polyfillOptions)).

End Serial.

(** A chooser that rejects unless some filter names the vendor, and then
    resolves with the device. *)
Definition vendor_chooser (vendor : Z) (device : Usb.USBDevice)
    (usbFilters : list Serial.USBDeviceFilter) : Result Usb.USBDevice :=
  if existsb
       (fun f =>
          match Js.read (Serial.vendorId f) with
          | Some v => v =? vendor
          | None => false
          end)
       usbFilters
  then Ok device
  else Throw (HostError "NotFoundError").
(* ------------------------------------------------------------------ *)
(** ** Numbers *)

Lemma Qeq_bool_right (a q r : Q) : q == r -> Qeq_bool a q = Qeq_bool a r.
Proof.
  intros H.
  destruct (Qeq_bool a q) eqn:E1, (Qeq_bool a r) eqn:E2; try reflexivity.
  - apply Qeq_bool_iff in E1. rewrite H in E1.
    apply Qeq_bool_iff in E1. congruence.
  - apply Qeq_bool_iff in E2. rewrite <- H in E2.
    apply Qeq_bool_iff in E2. congruence.
Qed.

Lemma truncate_integer (q : Q) (z : Z) : q == inject_Z z -> Js.truncate q = z.
Proof.
  unfold Qeq, Js.truncate. simpl. intros H.
  rewrite Z.mul_1_r in H. rewrite H.
  apply Z.quot_mul. discriminate.
Qed.

Lemma truncate_inject (z : Z) : Js.truncate (inject_Z z) = z.
Proof. apply truncate_integer. reflexivity. Qed.

Lemma truncate_div_1 (p : Q) : Js.truncate (p / 1) = Js.truncate p.
Proof.
  unfold Js.truncate, Qdiv, Qmult, Qinv. simpl.
  now rewrite Z.mul_1_r, Pos.mul_1_r.
Qed.

Lemma rem_1_is_zero (p : Q) :
  Js.strict_eq (Js.rem (Js.Fin p) (Js.of_Z 1)) (Js.of_Z 0) = true <->
  exists z : Z, p == inject_Z z.
Proof.
  unfold Js.rem, Js.of_Z, Js.strict_eq.
  change (Qeq_bool (inject_Z 1) 0) with false. cbv iota.
  change (inject_Z 1) with 1%Q. rewrite truncate_div_1.
  rewrite Qeq_bool_iff. split.
  - intros H. exists (Js.truncate p).
    rewrite <- (Qplus_0_l (inject_Z (Js.truncate p))).
    change (inject_Z 0) with 0%Q in H. rewrite <- H. ring.
  - intros [z Hz]. rewrite (truncate_integer p z Hz), Hz.
    change (inject_Z 0) with 0%Q. ring.
Qed.

Lemma isValidBaudRate_integer (x : Js.number) :
  Legacy.isValidBaudRate x = true <-> Js.is_integer x.
Proof.
  unfold Legacy.isValidBaudRate, Js.is_integer.
  destruct x as [p | | |].
  - rewrite rem_1_is_zero. reflexivity.
  - split; [discriminate | intros [z []]].
  - split; [discriminate | intros [z []]].
  - split; [discriminate | intros [z []]].
Qed.

Lemma ToUint_integer (bits : Z) (x : Js.number) (z : Z) :
  Js.num_eq x (Js.of_Z z) -> 0 <= z < 2 ^ bits -> Js.ToUint bits x = z.
Proof.
  destruct x as [q | | |]; simpl; try contradiction.
  intros H Hz. rewrite (truncate_integer q z H).
  now apply Z.mod_small.
Qed.

Lemma le_bytes32_value (v : Z) :
  0 <= v < 4294967296 ->
  v mod 256 + 256 * ((v / 256) mod 256) + 65536 * ((v / 65536) mod 256)
  + 16777216 * ((v / 16777216) mod 256) = v.
Proof. intros H. Z.div_mod_to_equations. lia. Qed.

(* ------------------------------------------------------------------ *)
(** ** The legacy line-coding codec *)

Lemma readLineCoding_7 (p : Legacy.SerialPort) (b0 b1 b2 b3 b4 b5 b6 : Z) :
  Legacy.readLineCoding [b0; b1; b2; b3; b4; b5; b6] p =
  let o :=
    Legacy.set_databits (Js.of_Z b6)
      (Legacy.set_parity
         (if b5 <? 5 then nth (Z.to_nat b5) Legacy.kParityIndexMapping "none"%string
          else "none"%string)
         (Legacy.set_stopbits
            (if b4 <? 3 then nth (Z.to_nat b4) Legacy.kStopbitsIndexMapping (Js.of_Z 1)
             else Js.of_Z 1)
            (Legacy.set_baudrate
               (Js.of_Z (b0 + 256 * b1 + 65536 * b2 + 16777216 * b3))
               (Legacy.serialOptions_ p)))) in
  (Ok o, Legacy.set_serialOptions o p).
Proof. reflexivity. Qed.

Lemma getLineCodingStructure_bytes (p : Legacy.SerialPort) :
  let o := Legacy.serialOptions_ p in
  let u := Js.ToUint 32 (Legacy.baudrate o) in
  Legacy.getLineCodingStructure p =
  Ok [ u mod 256; (u / 256) mod 256; (u / 65536) mod 256;
       (u / 16777216) mod 256;
       Js.ToUint 8 (Js.of_Z (Js.indexOf Js.strict_eq
                               Legacy.kStopbitsIndexMapping (Legacy.stopbits o)));
       Js.ToUint 8 (Js.of_Z (Js.indexOf String.eqb
                               Legacy.kParityIndexMapping (Legacy.parity o)));
       Js.ToUint 8 (Legacy.databits o) ].
Proof. reflexivity. Qed.

Lemma stopbits_code (x : Js.number) :
  number_in x Legacy.kStopbitsIndexMapping ->
  exists i, Js.indexOf Js.strict_eq Legacy.kStopbitsIndexMapping x = i /\
            0 <= i < 3 /\
            Js.num_eq (nth (Z.to_nat i) Legacy.kStopbitsIndexMapping (Js.of_Z 1)) x.
Proof.
  intros [v [Hin Heq]].
  destruct x as [q | | |];
    try (simpl in Hin; repeat destruct Hin as [<- | Hin]; contradiction).
  unfold Js.indexOf, Legacy.kStopbitsIndexMapping, Js.indexOf_from, Js.strict_eq,
    Js.of_Z.
  simpl in Hin.
  destruct Hin as [<- | [<- | [<- | []]]]; simpl in Heq;
    rewrite !(Qeq_bool_right _ _ _ Heq).
  - exists 0. repeat split; try lia. simpl. now symmetry.
  - exists 1. repeat split; try lia. simpl. now symmetry.
  - exists 2. repeat split; try lia. simpl. now symmetry.
Qed.

Lemma parity_code (s : string) :
  In s Legacy.kParityIndexMapping ->
  exists i, Js.indexOf String.eqb Legacy.kParityIndexMapping s = i /\
            0 <= i < 5 /\
            nth (Z.to_nat i) Legacy.kParityIndexMapping "none"%string = s.
Proof.
  intros Hin. simpl in Hin.
  destruct Hin as [<- | [<- | [<- | [<- | [<- | []]]]]].
  - exists 0. repeat split; lia.
  - exists 1. repeat split; lia.
  - exists 2. repeat split; lia.
  - exists 3. repeat split; lia.
  - exists 4. repeat split; lia.
Qed.

Lemma ToUint8_code (i : Z) : 0 <= i < 256 -> Js.ToUint 8 (Js.of_Z i) = i.
Proof.
  intros H. apply ToUint_integer; [ | exact H].
  simpl. reflexivity.
Qed.

(** C1 (as amended): when stopbits and parity are in the encoding tables,
    the baud rate is an integer in [0, 2^32) and databits an integer in
    [0, 256), decoding the 7-byte buffer that encodes the port's options
    succeeds and gives back the same baud rate, data bits, stop bits and
    parity. *)
Theorem line_coding_roundtrip (p : Legacy.SerialPort) (baud bits : Z) :
  in_tables (Legacy.serialOptions_ p) ->
  Js.num_eq (Legacy.baudrate (Legacy.serialOptions_ p)) (Js.of_Z baud) ->
  0 <= baud < 2 ^ 32 ->
  Js.num_eq (Legacy.databits (Legacy.serialOptions_ p)) (Js.of_Z bits) ->
  0 <= bits < 2 ^ 8 ->
  roundtrip_law p.
Proof.
  intros [Hstop Hpar] Hbaud Hb Hbits Hd.
  destruct (stopbits_code _ Hstop) as [i [Hi [Hir Hnth]]].
  destruct (parity_code _ Hpar) as [j [Hj [Hjr Hnthp]]].
  unfold roundtrip_law, decode_encode.
  rewrite getLineCodingStructure_bytes. cbv zeta.
  rewrite Hi, Hj.
  rewrite (ToUint_integer 32 _ baud Hbaud Hb).
  rewrite (ToUint_integer 8 _ bits Hbits Hd).
  rewrite (ToUint8_code i) by lia.
  rewrite (ToUint8_code j) by lia.
  rewrite readLineCoding_7. cbv zeta.
  eexists. split; [reflexivity | ].
  change (2 ^ 32) with 4294967296 in Hb.
  rewrite (le_bytes32_value baud Hb).
  assert (Ei : (i <? 3) = true) by (apply Z.ltb_lt; lia).
  assert (Ej : (j <? 5) = true) by (apply Z.ltb_lt; lia).
  rewrite Ei, Ej.
  unfold same_line_coding. simpl.
  destruct (Legacy.serialOptions_ p) as [ba da st pa bu r x1 x2 x3].
  simpl in *.
  repeat split.
  - destruct ba; simpl in *; try contradiction. now symmetry.
  - destruct da; simpl in *; try contradiction. now symmetry.
  - exact Hnth.
  - exact Hnthp.
Qed.

Lemma line_coding_roundtrip_witness : roundtrip_law port_9600_7E2.
Proof.
  apply (line_coding_roundtrip port_9600_7E2 9600 7).
  - split.
    + exists (Js.of_Z 2). split; [simpl; tauto | reflexivity].
    + simpl. tauto.
  - reflexivity.
  - lia.
  - reflexivity.
  - lia.
Defined.

(** C1, as stated, fails: a baud rate of 2^32 passes validation and has its
    stop bits and parity in the tables, but is encoded as 0 and decoded as
    0. *)
Lemma line_coding_roundtrip_counterexample :
  fst (Legacy.validateOptions port_baud_4294967296) = Ok tt /\
  in_tables (Legacy.serialOptions_ port_baud_4294967296) /\
  Legacy.getLineCodingStructure port_baud_4294967296 = Ok [0; 0; 0; 0; 0; 0; 8] /\
  ~ roundtrip_law port_baud_4294967296.
Proof.
  split; [reflexivity | ].
  split.
  { split.
    - exists (Js.of_Z 1). split; [simpl; tauto | reflexivity].
    - simpl. tauto. }
  split; [reflexivity | ].
  intros [o [Hdec [Hbaud _]]].
  vm_compute in Hdec. injection Hdec as <-.
  vm_compute in Hbaud. discriminate.
Qed.

(** C9: decoding a 7-byte buffer never fails; a stop-bits byte at offset 4
    that is at least the length of the stop-bits table decodes to 1 stop
    bit, and a parity byte at offset 5 that is at least the length of the
    parity table decodes to "none".  The decoded record is the port's own
    options object, updated in place. *)
Theorem decode_out_of_table (p : Legacy.SerialPort)
    (buffer : DataView.ArrayBuffer) :
  length buffer = 7%nat ->
  exists o,
    Legacy.readLineCoding buffer p = (Ok o, Legacy.set_serialOptions o p) /\
    (Z.of_nat (length Legacy.kStopbitsIndexMapping) <= nth 4 buffer 0 ->
     Legacy.stopbits o = Js.of_Z 1) /\
    (Z.of_nat (length Legacy.kParityIndexMapping) <= nth 5 buffer 0 ->
     Legacy.parity o = "none"%string).
Proof.
  intros Hlen.
  destruct buffer as [ | b0 [ | b1 [ | b2 [ | b3 [ | b4 [ | b5 [ | b6 [ | ? ?]]]]]]]];
    try discriminate Hlen.
  rewrite readLineCoding_7. cbv zeta.
  eexists. split; [reflexivity | ].
  simpl. split; intros H.
  - assert (E : (b4 <? 3) = false) by (apply Z.ltb_ge; lia).
    now rewrite E.
  - assert (E : (b5 <? 5) = false) by (apply Z.ltb_ge; lia).
    now rewrite E.
Qed.

Lemma decode_out_of_table_witness :
  exists o,
    Legacy.readLineCoding [0; 225; 0; 0; 3; 255; 8] port_9600_7E2 =
      (Ok o, Legacy.set_serialOptions o port_9600_7E2) /\
    (Z.of_nat (length Legacy.kStopbitsIndexMapping) <= 3 ->
     Legacy.stopbits o = Js.of_Z 1) /\
    (Z.of_nat (length Legacy.kParityIndexMapping) <= 255 ->
     Legacy.parity o = "none"%string).
Proof.
  apply (decode_out_of_table port_9600_7E2 [0; 225; 0; 0; 3; 255; 8]).
  reflexivity.
Defined.

(* ------------------------------------------------------------------ *)
(** ** Interface and endpoint lookup *)

Lemma findInterface_loop_first (classCode : Z) (pre post : list Usb.USBInterface)
    (iface : Usb.USBInterface) :
  (forall y, In y pre -> Usb.alternates y <> []) ->
  (forall y, In y pre -> ~ first_alternate_declares classCode y) ->
  first_alternate_declares classCode iface ->
  Polyfill.findInterface_loop (pre ++ iface :: post) classCode = Ok iface.
Proof.
  intros Hwf Hpre [alternate [rest [Halt Hclass]]].
  induction pre as [ | y pre IH]; simpl.
  - rewrite Halt. simpl. rewrite Hclass, Z.eqb_refl. reflexivity.
  - destruct (Usb.alternates y) as [ | a others] eqn:Ey.
    + exfalso. apply (Hwf y); [now left | exact Ey].
    + simpl. destruct (Usb.interfaceClass a =? classCode) eqn:Ec.
      * exfalso. apply (Hpre y); [now left | ].
        exists a, others. split; [exact Ey | now apply Z.eqb_eq].
      * apply IH; intros z Hz; [apply Hwf | apply Hpre]; now right.
Qed.

Lemma findInterface_loop_none (classCode : Z) (ifaces : list Usb.USBInterface) :
  (forall y, In y ifaces -> Usb.alternates y <> []) ->
  (forall y, In y ifaces -> ~ first_alternate_declares classCode y) ->
  Polyfill.findInterface_loop ifaces classCode =
  Throw (InterfaceNotFound classCode).
Proof.
  intros Hwf Hnone.
  induction ifaces as [ | y ifaces IH]; simpl; [reflexivity | ].
  destruct (Usb.alternates y) as [ | a others] eqn:Ey.
  - exfalso. apply (Hwf y); [now left | exact Ey].
  - simpl. destruct (Usb.interfaceClass a =? classCode) eqn:Ec.
    + exfalso. apply (Hnone y); [now left | ].
      exists a, others. split; [exact Ey | now apply Z.eqb_eq].
    + apply IH; intros z Hz; [apply Hwf | apply Hnone]; now right.
Qed.

Lemma direction_eqb_eq (a b : USBDirection) :
  Polyfill.direction_eqb a b = true <-> a = b.
Proof. destruct a, b; simpl; split; congruence. Qed.

Lemma findEndpoint_loop_first (iface : Usb.USBInterface) (dir : USBDirection)
    (pre post : list Usb.USBEndpoint) (endpoint : Usb.USBEndpoint) :
  (forall y, In y pre -> ~ has_direction dir y) ->
  has_direction dir endpoint ->
  Polyfill.findEndpoint_loop iface (pre ++ endpoint :: post) dir = Ok endpoint.
Proof.
  intros Hpre Hdir.
  induction pre as [ | y pre IH]; simpl.
  - apply direction_eqb_eq in Hdir. now rewrite Hdir.
  - destruct (Polyfill.direction_eqb (Usb.direction y) dir) eqn:Ed.
    + exfalso. apply (Hpre y); [now left | now apply direction_eqb_eq].
    + apply IH. intros z Hz. apply Hpre. now right.
Qed.

Lemma findEndpoint_loop_none (iface : Usb.USBInterface) (dir : USBDirection)
    (eps : list Usb.USBEndpoint) :
  (forall y, In y eps -> ~ has_direction dir y) ->
  Polyfill.findEndpoint_loop iface eps dir =
  Throw (EndpointNotFound (Usb.interfaceNumber iface) dir).
Proof.
  intros Hnone.
  induction eps as [ | y eps IH]; simpl; [reflexivity | ].
  destruct (Polyfill.direction_eqb (Usb.direction y) dir) eqn:Ed.
  - exfalso. apply (Hnone y); [now left | now apply direction_eqb_eq].
  - apply IH. intros z Hz. apply Hnone. now right.
Qed.

Lemma legacy_inner_fold (classNumber : Z) (deviceInterface : Usb.USBInterface)
    (alts : list Usb.USBAlternateInterface) (found : option Usb.USBInterface) :
  fold_left
    (fun found' alternate =>
       if Usb.interfaceClass alternate =? classNumber
       then Some deviceInterface else found')
    alts found =
  if existsb (fun alternate => Usb.interfaceClass alternate =? classNumber) alts
  then Some deviceInterface else found.
Proof.
  revert found. induction alts as [ | a alts IH]; intros found; simpl.
  - reflexivity.
  - rewrite IH.
    destruct (Usb.interfaceClass a =? classNumber); simpl; [ | reflexivity].
    now destruct (existsb _ alts).
Qed.

Lemma legacy_lookup_is_last (device : Usb.USBDevice)
    (cfg : Usb.USBConfiguration) (classNumber : Z) :
  Usb.configuration device = Some cfg ->
  Legacy.getInterfaceWithClass device classNumber =
  Ok (find (some_alternate_declaresb classNumber) (rev (Usb.interfaces cfg))).
Proof.
  intros Hcfg. unfold Legacy.getInterfaceWithClass. rewrite Hcfg. f_equal.
  induction (Usb.interfaces cfg) as [ | x l IH] using rev_ind.
  - reflexivity.
  - rewrite fold_left_app, rev_app_distr. simpl.
    rewrite legacy_inner_fold. unfold some_alternate_declaresb at 1.
    destruct (existsb _ (Usb.alternates x)); [reflexivity | exact IH].
Qed.

(** C6 (as amended): on a descriptor tree with at least one configuration
    whose interfaces all have an alternate setting, [findInterface] returns
    the first interface, in declared order, of the first configuration whose
    first alternate setting declares the class, and throws the not-found
    TypeError when no interface's first alternate setting declares it;
    [findEndpoint] returns the first endpoint, in declared order, of the
    interface's first alternate setting with the direction, and throws the
    not-found TypeError when none has it.  The legacy
    [getInterfaceWithClass] returns the last interface of the active
    configuration with some alternate setting of the class, and [undefined]
    when there is none. *)
Theorem lookup_first_match (device : Usb.USBDevice)
    (cfg : Usb.USBConfiguration) (others : list Usb.USBConfiguration)
    (classCode : Z) :
  Usb.configurations device = cfg :: others ->
  (forall iface, In iface (Usb.interfaces cfg) -> Usb.alternates iface <> []) ->
  (forall iface,
      first_such (first_alternate_declares classCode) (Usb.interfaces cfg) iface ->
      Polyfill.findInterface device classCode = Ok iface) /\
  ((forall iface, In iface (Usb.interfaces cfg) ->
                  ~ first_alternate_declares classCode iface) ->
   Polyfill.findInterface device classCode =
   Throw (InterfaceNotFound classCode)) /\
  (forall iface alternate rest dir,
      Usb.alternates iface = alternate :: rest ->
      (forall endpoint,
          first_such (has_direction dir) (Usb.endpoints alternate) endpoint ->
          Polyfill.findEndpoint iface dir = Ok endpoint) /\
      ((forall endpoint, In endpoint (Usb.endpoints alternate) ->
                         ~ has_direction dir endpoint) ->
       Polyfill.findEndpoint iface dir =
       Throw (EndpointNotFound (Usb.interfaceNumber iface) dir))) /\
  (forall active,
      Usb.configuration device = Some active ->
      Legacy.getInterfaceWithClass device classCode =
      Ok (find (some_alternate_declaresb classCode)
               (rev (Usb.interfaces active)))).
Proof.
  intros Hcfg Hwf. unfold Polyfill.findInterface. rewrite Hcfg. simpl.
  split; [ | split; [ | split]].
  - intros iface [pre [post [Hsplit [Hdecl Hpre]]]]. rewrite Hsplit.
    apply findInterface_loop_first; [ | exact Hpre | exact Hdecl].
    intros y Hy. apply Hwf. rewrite Hsplit. apply in_or_app. now left.
  - intros Hnone. now apply findInterface_loop_none.
  - intros iface alternate rest dir Halt. unfold Polyfill.findEndpoint.
    rewrite Halt. simpl. split.
    + intros endpoint [pre [post [Hsplit [Hdir Hpre]]]]. rewrite Hsplit.
      now apply findEndpoint_loop_first.
    + intros Hnone. now apply findEndpoint_loop_none.
  - intros active Hactive. now apply legacy_lookup_is_last.
Qed.

Lemma lookup_first_match_witness :
  Polyfill.findInterface (two_port_device []) 10 = Ok (data_interface 1).
Proof.
  destruct (lookup_first_match (two_port_device []) two_port_configuration
              [] 10) as [Hfirst _].
  - reflexivity.
  - intros iface Hin. simpl in Hin.
    destruct Hin as [<- | [<- | [<- | [<- | []]]]]; discriminate.
  - apply Hfirst.
    exists [control_interface 0], [control_interface 2; data_interface 3].
    split; [reflexivity | ]. split.
    + eexists _, _. split; reflexivity.
    + intros y [<- | []] [a [r [Ha Hc]]].
      injection Ha as <- <-. discriminate Hc.
Defined.

(** C6, as stated, fails on the legacy lookup: with two interfaces of class
    10, the first one in declared order is interface 1, but
    [getInterfaceWithClass] returns interface 3. *)
Lemma lookup_first_match_counterexample :
  first_such (some_alternate_declares 10)
    (Usb.interfaces two_port_configuration) (data_interface 1) /\
  Legacy.getInterfaceWithClass (two_port_device []) 10 =
    Ok (Some (data_interface 3)) /\
  data_interface 3 <> data_interface 1.
Proof.
  split; [ | split].
  - exists [control_interface 0], [control_interface 2; data_interface 3].
    split; [reflexivity | ]. split.
    + eexists. split; [left; reflexivity | reflexivity].
    + intros y [<- | []] [a [[<- | []] Hc]]. discriminate Hc.
  - reflexivity.
  - discriminate.
Qed.

(* ------------------------------------------------------------------ *)
(** ** Device calls *)

Lemma skipn_length_app {A : Type} (l r : list A) :
  skipn (length l) (l ++ r) = r.
Proof. induction l as [ | x l IH]; simpl; [reflexivity | exact IH]. Qed.

Lemma invoke_log (c : Usb.call) (d : Usb.USBDevice) :
  Usb.log (snd (Usb.invoke c d)) = Usb.log d ++ [c].
Proof.
  unfold Usb.invoke.
  destruct (Usb.script d) as [ | [r | name] rest]; simpl;
    destruct c; reflexivity.
Qed.

(* ------------------------------------------------------------------ *)
(** ** The write-side sinks *)

(** C5 (as amended): the legacy [write], when the transfer interface has an
    OUT endpoint, throws a TypeError for every chunk that is not a
    Uint8Array and leaves the device and the controller untouched; it makes
    a device call only for a Uint8Array.  The sink of the current
    generation does not look at the chunk: it passes every chunk to
    [transferOut] and never throws. *)
Theorem sink_chunk_guard :
  (forall (w : Legacy.World) (c : Usb.chunk) (endpoint : Usb.USBEndpoint),
      Legacy.getDirectionEndpoint (Legacy.this w) dir_out = Some endpoint ->
      Usb.instanceof_Uint8Array c = false ->
      Legacy.write c w = (Throw NotUint8Array, w)) /\
  (forall (w : Legacy.World) (c : Usb.chunk),
      legacy_new_calls (Legacy.write c) w <> [] ->
      Usb.instanceof_Uint8Array c = true) /\
  (forall (sink : Polyfill.UsbEndpointUnderlyingSink) (c : Usb.chunk)
          (w : Polyfill.World),
      fst (Polyfill.write sink c w) = Ok tt /\
      new_calls (Polyfill.write sink c) w =
        [Usb.TransferOut (Usb.endpointNumber (Polyfill.sink_endpoint_ sink)) c]).
Proof.
  split; [ | split].
  - intros w c endpoint Hep Hc.
    unfold Legacy.write, bind, get. rewrite Hep, Hc. reflexivity.
  - intros w c Hcalls.
    destruct (Usb.instanceof_Uint8Array c) eqn:Hc; [reflexivity | ].
    exfalso. apply Hcalls.
    unfold legacy_new_calls, Legacy.write, bind, get.
    destruct (Legacy.getDirectionEndpoint (Legacy.this w) dir_out) as [ep | ].
    + rewrite Hc. unfold throw. simpl.
      rewrite <- (app_nil_r (Usb.log (Legacy.device_ w))) at 2.
      apply skipn_length_app.
    + unfold Legacy.on_controller, Streams.werror. simpl.
      rewrite <- (app_nil_r (Usb.log (Legacy.device_ w))) at 2.
      apply skipn_length_app.
  - intros sink c w.
    unfold new_calls, Polyfill.write, try_catch, bind, Polyfill.on_device.
    pose proof (invoke_log
      (Usb.TransferOut (Usb.endpointNumber (Polyfill.sink_endpoint_ sink)) c)
      (Polyfill.device_ w)) as Hlog.
    destruct (Usb.invoke _ (Polyfill.device_ w)) as [[result | e] d'];
      simpl in Hlog |- *.
    + destruct (Usb.is_ok (Usb.status result)); simpl.
      * rewrite Hlog. split; [reflexivity | apply skipn_length_app].
      * destruct (Polyfill.sink_onError_ sink); simpl;
          rewrite Hlog; (split; [reflexivity | apply skipn_length_app]).
    + destruct (Polyfill.sink_onError_ sink); simpl;
        rewrite Hlog; (split; [reflexivity | apply skipn_length_app]).
Qed.

Lemma sink_chunk_guard_witness :
  Legacy.write (Usb.NotABuffer "hello") (legacy_example_world []) =
    (Throw NotUint8Array, legacy_example_world []) /\
  Usb.instanceof_Uint8Array (Usb.Uint8Array [104; 105]) = true.
Proof.
  destruct sink_chunk_guard as [Hthrow [Honly _]].
  split.
  - apply (Hthrow (legacy_example_world []) (Usb.NotABuffer "hello")
             out_endpoint_1); reflexivity.
  - apply (Honly (legacy_example_world []) (Usb.Uint8Array [104; 105])).
    vm_compute. discriminate.
Defined.

(** C5, as stated, fails on the sink of the current generation: offered an
    ArrayBuffer (not a Uint8Array), it does not throw, and the outbound
    transfer is made. *)
Lemma sink_chunk_guard_counterexample :
  Usb.instanceof_Uint8Array (Usb.OtherBufferSource [1; 2; 3]) = false /\
  fst (Polyfill.write example_sink (Usb.OtherBufferSource [1; 2; 3])
         (example_world [] None)) = Ok tt /\
  new_calls (Polyfill.write example_sink (Usb.OtherBufferSource [1; 2; 3]))
    (example_world [] None) =
  [Usb.TransferOut 1 (Usb.OtherBufferSource [1; 2; 3])].
Proof. repeat split. Qed.

(* ------------------------------------------------------------------ *)
(** ** The read-side source *)

Lemma pull_device (source : Polyfill.UsbEndpointUnderlyingSource)
    (w : Polyfill.World) :
  Polyfill.device_ (snd (Polyfill.pull source w)) =
  snd (Usb.invoke
         (Usb.TransferIn
            (Usb.endpointNumber (Polyfill.source_endpoint_ source))
            (Polyfill.chunkSize source (Polyfill.readable_controller w)))
         (Polyfill.device_ w)).
Proof.
  unfold Polyfill.pull, bind, get, try_catch, Polyfill.on_device.
  destruct (Usb.invoke _ (Polyfill.device_ w)) as [[result | e] d']; simpl.
  - destruct (Usb.is_ok (Usb.status result)); simpl.
    + destruct (Usb.data result) as [bytes | ]; simpl; [ | reflexivity].
      unfold Polyfill.on_readable_controller, Streams.enqueue. simpl.
      destruct (_ && _); simpl; [reflexivity | ].
      destruct (Polyfill.source_onError_ source); reflexivity.
    + destruct (Polyfill.source_onError_ source); simpl;
        (destruct (Usb.data result) as [bytes | ]; simpl; [ | reflexivity]);
        unfold Polyfill.on_readable_controller, Streams.enqueue; simpl;
        (destruct (_ && _); reflexivity).
  - destruct (Polyfill.source_onError_ source); reflexivity.
Qed.

Lemma pull_new_calls (source : Polyfill.UsbEndpointUnderlyingSource)
    (w : Polyfill.World) :
  new_calls (Polyfill.pull source) w =
  [Usb.TransferIn (Usb.endpointNumber (Polyfill.source_endpoint_ source))
     (Polyfill.chunkSize source (Polyfill.readable_controller w))].
Proof.
  unfold new_calls. rewrite pull_device, invoke_log.
  apply skipn_length_app.
Qed.

(* ------------------------------------------------------------------ *)
(** ** Rounding to doubles *)

Lemma pow2_pos (e : Z) : (0 < Js.pow2 e)%Q.
Proof. apply Qpower_0_lt. reflexivity. Qed.

Lemma pow2_le (a b : Z) : a <= b -> (Js.pow2 a <= Js.pow2 b)%Q.
Proof. intros H. apply Qpower_le_compat_l; [exact H | discriminate]. Qed.

Lemma pow2_Z (e : Z) : 0 <= e -> (Js.pow2 e == inject_Z (2 ^ e))%Q.
Proof. intros H. unfold Js.pow2. now rewrite Zpower_Qpower. Qed.

Lemma pow2_plus (a b : Z) : (Js.pow2 (a + b) == Js.pow2 a * Js.pow2 b)%Q.
Proof. apply Qpower_plus. discriminate. Qed.

Lemma pow2_minus (a b : Z) : (Js.pow2 (a - b) == Js.pow2 a / Js.pow2 b)%Q.
Proof. apply Qpower_minus. discriminate. Qed.

Lemma exponent_le (q : Q) : (0 < q)%Q -> (Js.pow2 (Js.exponent q) <= q)%Q.
Proof.
  intros Hq. unfold Js.exponent.
  destruct (Qle_bool _ q) eqn:E; [now apply Qle_bool_iff | ].
  destruct q as [n d]. cbn [Qnum Qden] in *.
  assert (Hn : 0 < n) by (unfold Qlt in Hq; simpl in Hq; lia).
  replace (Z.log2 n - Z.log2 (Z.pos d) - 1)
    with (Z.log2 n - (Z.log2 (Z.pos d) + 1)) by lia.
  rewrite pow2_minus.
  pose proof (Z.log2_nonneg n) as Hln.
  pose proof (Z.log2_nonneg (Z.pos d)) as Hld.
  rewrite !pow2_Z by lia.
  destruct (Z.log2_spec n Hn) as [Hn1 _].
  destruct (Z.log2_spec (Z.pos d) (Pos2Z.is_pos d)) as [_ Hd2].
  rewrite Z.add_1_r.
  set (A := 2 ^ Z.log2 n) in *. set (B := 2 ^ Z.succ (Z.log2 (Z.pos d))) in *.
  assert (HB : 0 < B) by lia.
  assert (HA : 0 < A) by (subst A; apply Z.pow_pos_nonneg; lia).
  apply Qle_shift_div_r; [unfold Qlt; simpl; lia | ].
  unfold Qle, Qmult, inject_Z. simpl. nia.
Qed.

Lemma round_half_even_error (y : Q) :
  (Qabs (inject_Z (Js.round_half_even y) - y) <= 1 # 2)%Q.
Proof.
  unfold Js.round_half_even.
  pose proof (Qfloor_le y) as Hlo. pose proof (Qlt_floor y) as Hhi.
  rewrite inject_Z_plus in Hhi. change (inject_Z 1) with 1%Q in Hhi.
  apply Qabs_Qle_condition.
  destruct (Qcompare_spec (y - inject_Z (Qfloor y)) (1 # 2)) as [He | Hl | Hg].
  - destruct (Z.even (Qfloor y)); rewrite ?inject_Z_plus;
      change (inject_Z 1) with 1%Q; split; lra.
  - split; lra.
  - rewrite inject_Z_plus. change (inject_Z 1) with 1%Q. split; lra.
Qed.

Lemma round_half_even_Z (y : Q) (z : Z) :
  (y == inject_Z z)%Q -> Js.round_half_even y = z.
Proof.
  intros H. unfold Js.round_half_even.
  assert (Hf : Qfloor y = z) by (rewrite H; apply Qfloor_Z).
  rewrite Hf.
  destruct (Qcompare_spec (y - inject_Z z) (1 # 2)) as [He | Hl | Hg];
    [lra | reflexivity | lra].
Qed.

Lemma round_half_even_below (y : Q) (N : Z) :
  (y <= inject_Z N)%Q -> Js.round_half_even y <= N.
Proof.
  intros H. unfold Js.round_half_even.
  assert (Hf : Qfloor y <= N).
  { rewrite <- (Qfloor_Z N). now apply Qfloor_resp_le. }
  pose proof (Qfloor_le y) as Hlo.
  destruct (Z.eq_dec (Qfloor y) N) as [Heq | Hne].
  - rewrite Heq in *.
    destruct (Qcompare_spec (y - inject_Z N) (1 # 2)) as [He | Hl | Hg];
      [lra | lia | lra].
  - destruct (Qcompare (y - inject_Z (Qfloor y)) (1 # 2));
      try destruct (Z.even (Qfloor y)); lia.
Qed.

(** What [Js.round_reduced] computes on a positive rational. *)
Lemma round_reduced_pos (q : Q) :
  (0 < q)%Q ->
  let e := Z.max (Js.exponent q) (-1022) in
  let ulp := Js.pow2 (e - 52) in
  let r := (inject_Z (Js.round_half_even (q / ulp)) * ulp)%Q in
  Js.round_reduced q =
  if Qle_bool (Js.pow2 1024) r then Js.PosInf else Js.Fin (Qred r).
Proof.
  intros Hq. cbv zeta. unfold Js.round_reduced.
  destruct q as [n d].
  assert (Hn : 0 < n) by (unfold Qlt in Hq; simpl in Hq; lia).
  destruct n as [ | n | n]; try lia.
  reflexivity.
Qed.

Lemma Qred_inject_Z (z : Z) : Qred (inject_Z z) = inject_Z z.
Proof.
  unfold Qred, inject_Z.
  pose proof (Z.ggcd_gcd z 1) as Hg.
  pose proof (Z.ggcd_correct_divisors z 1) as Hd.
  destruct (Z.ggcd z 1) as [g [aa bb]]. simpl in Hg.
  rewrite Z.gcd_1_r in Hg. subst g. destruct Hd as [Ha Hb].
  rewrite Z.mul_1_l in Ha, Hb. now subst aa bb.
Qed.

(** Integers below 2^53 are doubles: rounding leaves them alone. *)
Lemma round_integer (x : Q) (z : Z) :
  (x == inject_Z z)%Q -> 0 <= z < 2 ^ 53 -> Js.round x = Js.Fin (inject_Z z).
Proof.
  intros Hx Hz. unfold Js.round.
  rewrite (Qred_complete x (inject_Z z) Hx), Qred_inject_Z.
  destruct (Z.eq_dec z 0) as [-> | Hnz]; [reflexivity | ].
  assert (Hpos : (0 < inject_Z z)%Q) by (unfold Qlt; simpl; lia).
  rewrite (round_reduced_pos _ Hpos). cbv zeta.
  set (e := Z.max (Js.exponent (inject_Z z)) (-1022)).
  assert (He : e <= 52).
  { subst e. apply Z.max_lub; [ | lia].
    pose proof (exponent_le _ Hpos) as Hle.
    destruct (Z_le_gt_dec (Js.exponent (inject_Z z)) 52) as [H | H]; [exact H | ].
    exfalso.
    assert (H53 : (Js.pow2 53 <= Js.pow2 (Js.exponent (inject_Z z)))%Q)
      by (apply pow2_le; lia).
    rewrite (pow2_Z 53) in H53 by lia.
    assert (Hlt : (inject_Z z < inject_Z (2 ^ 53))%Q)
      by (rewrite <- Zlt_Qlt; lia).
    lra. }
  assert (Hulp : (Js.pow2 (e - 52) * inject_Z (2 ^ (52 - e)) == 1)%Q).
  { rewrite <- (pow2_Z (52 - e)) by lia. rewrite <- pow2_plus.
    replace (e - 52 + (52 - e)) with 0 by lia. reflexivity. }
  pose proof (pow2_pos (e - 52)) as Hup.
  set (u := Js.pow2 (e - 52)) in *. set (c := inject_Z (2 ^ (52 - e))) in *.
  assert (Hinv : (/ u == c)%Q).
  { apply Qmult_inj_l with (z := u); [lra | ].
    rewrite Qmult_inv_r by lra. symmetry. exact Hulp. }
  assert (Hm : Js.round_half_even (inject_Z z / u) = z * 2 ^ (52 - e)).
  { apply round_half_even_Z. rewrite inject_Z_mult. fold c.
    unfold Qdiv. now rewrite Hinv. }
  rewrite Hm.
  assert (Hr : (inject_Z (z * 2 ^ (52 - e)) * u == inject_Z z)%Q).
  { rewrite inject_Z_mult. fold c.
    rewrite <- Qmult_assoc, (Qmult_comm c u), Hulp. ring. }
  destruct (Qle_bool (Js.pow2 1024) _) eqn:Eo.
  - exfalso. apply Qle_bool_iff in Eo. rewrite Hr in Eo.
    assert (H53 : (Js.pow2 53 <= Js.pow2 1024)%Q) by (apply pow2_le; lia).
    rewrite (pow2_Z 53) in H53 by lia.
    assert (Hlt : (inject_Z z < inject_Z (2 ^ 53))%Q)
      by (rewrite <- Zlt_Qlt; lia).
    lra.
  - rewrite (Qred_complete _ _ Hr), Qred_inject_Z. reflexivity.
Qed.

Lemma inject_Z_pred (z : Z) : (inject_Z (z - 1) == inject_Z z - 1)%Q.
Proof.
  unfold Z.sub. rewrite inject_Z_plus, inject_Z_opp. reflexivity.
Qed.

Lemma Qceiling_unique (r : Q) (c : Z) :
  (inject_Z c - 1 < r)%Q -> (r <= inject_Z c)%Q -> Qceiling r = c.
Proof.
  intros Hlo Hhi.
  pose proof (Qle_ceiling r) as H1. pose proof (Qceiling_lt r) as H2.
  rewrite inject_Z_pred in H2.
  assert (Ha : (inject_Z (Qceiling r) < inject_Z (c + 1))%Q).
  { rewrite inject_Z_plus. change (inject_Z 1) with 1%Q. lra. }
  assert (Hb : (inject_Z c < inject_Z (Qceiling r + 1))%Q).
  { rewrite inject_Z_plus. change (inject_Z 1) with 1%Q. lra. }
  rewrite <- Zlt_Qlt in Ha, Hb. lia.
Qed.

(** Dividing an integer below 2^53 by a positive integer below 2^53 and
    rounding the quotient to a double does not change its ceiling. *)
Lemma round_quotient (d p : Z) :
  0 < d < 2 ^ 53 -> 0 < p < 2 ^ 53 ->
  exists r,
    Js.round (inject_Z d / inject_Z p) = Js.Fin r /\
    Qceiling r = Qceiling (inject_Z d / inject_Z p).
Proof.
  intros Hd Hp.
  set (x := (inject_Z d / inject_Z p)%Q).
  assert (Hdq : (0 < inject_Z d)%Q) by (unfold Qlt; simpl; lia).
  assert (Hpq : (0 < inject_Z p)%Q) by (unfold Qlt; simpl; lia).
  assert (Hx : (0 < x)%Q) by (apply Qlt_shift_div_l; lra).
  assert (Hxp : (x * inject_Z p == inject_Z d)%Q).
  { unfold x. field. lra. }
  unfold Js.round.
  pose proof (Qred_correct x) as Hred.
  set (x' := Qred x) in *.
  assert (Hx' : (0 < x')%Q) by lra.
  rewrite (round_reduced_pos _ Hx'). cbv zeta.
  set (e := Z.max (Js.exponent x') (-1022)).
  set (u := Js.pow2 (e - 52)).
  set (m := Js.round_half_even (x' / u)).
  pose proof (pow2_pos (e - 52)) as Hu. fold u in Hu.
  (* the rounding error is at most half a unit in the last place *)
  assert (Herr : (Qabs (inject_Z m * u - x') <= u * (1 # 2))%Q).
  { pose proof (round_half_even_error (x' / u)) as H. fold m in H.
    assert (Heq : (inject_Z m * u - x' == (inject_Z m - x' / u) * u)%Q)
      by (field; lra).
    rewrite Heq, Qabs_Qmult, (Qabs_pos u) by lra.
    rewrite (Qmult_comm u). apply Qmult_le_compat_r; lra. }
  apply Qabs_Qle_condition in Herr. destruct Herr as [Herr _].
  (* an integer below 2^53 bounds x, hence the exponent *)
  assert (Hxd : (x <= inject_Z d)%Q).
  { apply Qle_shift_div_r; [exact Hpq | ].
    rewrite <- inject_Z_mult, <- Zle_Qle. nia. }
  assert (H53 : (inject_Z d < Js.pow2 53)%Q).
  { rewrite (pow2_Z 53) by lia. rewrite <- Zlt_Qlt. lia. }
  assert (He : e <= 52).
  { subst e. apply Z.max_lub; [ | lia].
    pose proof (exponent_le _ Hx') as Hle.
    destruct (Z_le_gt_dec (Js.exponent x') 52) as [H | H]; [exact H | ].
    exfalso.
    assert (H' : (Js.pow2 53 <= Js.pow2 (Js.exponent x'))%Q) by (apply pow2_le; lia).
    lra. }
  (* half a unit in the last place is below 1 / p *)
  assert (Hhalf : (u * (1 # 2) * inject_Z p < 1)%Q).
  { assert (Hp53 : (inject_Z p < Js.pow2 53)%Q).
    { rewrite (pow2_Z 53) by lia. rewrite <- Zlt_Qlt. lia. }
    assert (Hsplit : (Js.pow2 53 * (Js.pow2 (-53)) == 1)%Q).
    { rewrite <- pow2_plus. reflexivity. }
    pose proof (pow2_pos (-53)) as Hm53.
    destruct (Z.max_spec (Js.exponent x') (-1022)) as [[_ Hmax] | [_ Hmax]];
      fold e in Hmax.
    - (* subnormal spacing *)
      assert (Hle : (u <= Js.pow2 (-1074))%Q)
        by (unfold u; apply pow2_le; lia).
      assert (Hle' : (Js.pow2 (-1074) <= Js.pow2 (-53))%Q) by (apply pow2_le; lia).
      assert (Hpu : (u * inject_Z p <= Js.pow2 (-53) * inject_Z p)%Q)
        by (apply Qmult_le_compat_r; lra).
      assert (Hpp : (Js.pow2 (-53) * inject_Z p < Js.pow2 (-53) * Js.pow2 53)%Q)
        by (apply Qmult_lt_l; lra).
      rewrite (Qmult_comm (Js.pow2 (-53)) (Js.pow2 53)), Hsplit in Hpp.
      lra.
    - pose proof (exponent_le _ Hx') as Hle. rewrite <- Hmax in Hle.
      assert (Hu2 : (u == Js.pow2 e * Js.pow2 (-52))%Q).
      { unfold u. rewrite <- pow2_plus. reflexivity. }
      assert (H52 : (Js.pow2 (-52) * (1 # 2) == Js.pow2 (-53))%Q) by reflexivity.
      assert (Hb : (u * (1 # 2) <= x * Js.pow2 (-53))%Q).
      { rewrite Hu2, <- Qmult_assoc, H52.
        apply Qmult_le_compat_r; lra. }
      assert (Hc : (x * Js.pow2 (-53) * inject_Z p == inject_Z d * Js.pow2 (-53))%Q).
      { rewrite <- Hxp. ring. }
      assert (Hd' : (inject_Z d * Js.pow2 (-53) < Js.pow2 53 * Js.pow2 (-53))%Q)
        by (apply Qmult_lt_r; lra).
      rewrite Hsplit in Hd'.
      assert (He' : (u * (1 # 2) * inject_Z p <= x * Js.pow2 (-53) * inject_Z p)%Q)
        by (apply Qmult_le_compat_r; lra).
      lra. }
  set (c := Qceiling x).
  pose proof (Qle_ceiling x) as Hc1. pose proof (Qceiling_lt x) as Hc2.
  fold c in Hc1, Hc2.
  rewrite inject_Z_pred in Hc2.
  (* x is at least 1 / p above c - 1 *)
  assert (Hgap : (1 <= (x - (inject_Z c - 1)) * inject_Z p)%Q).
  { assert (Hz : (c - 1) * p < d).
    { rewrite Zlt_Qlt. rewrite inject_Z_mult, inject_Z_pred. rewrite <- Hxp.
      apply Qmult_lt_r; lra. }
    assert (Hz' : (c - 1) * p + 1 <= d) by lia.
    rewrite Zle_Qle in Hz'.
    rewrite inject_Z_plus, inject_Z_mult, inject_Z_pred in Hz'.
    change (inject_Z 1) with 1%Q in Hz'. rewrite <- Hxp in Hz'.
    lra. }
  (* the rounded value does not pass c *)
  assert (Hup : (inject_Z m * u <= inject_Z c)%Q).
  { assert (Hulp : (u * inject_Z (2 ^ (52 - e)) == 1)%Q).
    { rewrite <- (pow2_Z (52 - e)) by lia. unfold u. rewrite <- pow2_plus.
      replace (e - 52 + (52 - e)) with 0 by lia. reflexivity. }
    set (k := inject_Z (2 ^ (52 - e))) in *.
    assert (Hinv : (/ u == k)%Q).
    { apply Qmult_inj_l with (z := u); [lra | ].
      rewrite Qmult_inv_r by lra. symmetry. exact Hulp. }
    assert (Hk : (0 < k)%Q).
    { rewrite <- Hinv. now apply Qinv_lt_0_compat. }
    assert (Hm : m <= c * 2 ^ (52 - e)).
    { apply round_half_even_below. rewrite inject_Z_mult. fold k.
      unfold Qdiv. rewrite Hinv. apply Qmult_le_compat_r; lra. }
    rewrite Zle_Qle in Hm. rewrite inject_Z_mult in Hm. fold k in Hm.
    assert (Hmu : (inject_Z m * u <= inject_Z c * k * u)%Q)
      by (apply Qmult_le_compat_r; lra).
    assert (Hcku : (inject_Z c * k * u == inject_Z c)%Q).
    { rewrite <- Qmult_assoc, (Qmult_comm k u), Hulp. ring. }
    lra. }
  assert (Hlow : (inject_Z c - 1 < inject_Z m * u)%Q).
  { assert (H : ((inject_Z c - 1) * inject_Z p < inject_Z m * u * inject_Z p)%Q).
    { assert (H1 : (x' * inject_Z p - u * (1 # 2) * inject_Z p
                    <= inject_Z m * u * inject_Z p)%Q).
      { assert (H2 : (x' - u * (1 # 2) <= inject_Z m * u)%Q) by lra.
        assert (H3 : ((x' - u * (1 # 2)) * inject_Z p
                      <= inject_Z m * u * inject_Z p)%Q)
          by (apply Qmult_le_compat_r; lra).
        lra. }
      rewrite Hred in H1. lra. }
    apply Qmult_lt_r in H; lra. }
  assert (Hc53 : (inject_Z c < Js.pow2 1024)%Q).
  { assert (Hcd : c <= d).
    { unfold c. rewrite <- (Qceiling_Z d). now apply Qceiling_resp_le. }
    rewrite Zle_Qle in Hcd.
    assert (H' : (Js.pow2 53 <= Js.pow2 1024)%Q) by (apply pow2_le; lia).
    lra. }
  destruct (Qle_bool (Js.pow2 1024) (inject_Z m * u)) eqn:Eo.
  - exfalso. apply Qle_bool_iff in Eo. lra.
  - eexists. split; [reflexivity | ].
    apply Qceiling_unique; rewrite Qred_correct; lra.
Qed.

(* ------------------------------------------------------------------ *)
(** ** The size of an inbound transfer *)

Lemma inject_Z_nonzero (z : Z) : z <> 0 -> Qeq_bool (inject_Z z) 0 = false.
Proof.
  intros Hz. destruct (Qeq_bool (inject_Z z) 0) eqn:E; [ | reflexivity].
  apply Qeq_bool_iff in E. unfold Qeq in E. simpl in E. lia.
Qed.

Lemma chunkSize_rounds_up (source : Polyfill.UsbEndpointUnderlyingSource)
    (controller : Streams.ReadableByteStreamController) (d : Z) :
  let packet := Usb.packetSize (Polyfill.source_endpoint_ source) in
  Streams.desiredSize controller = Some (Js.of_Z d) ->
  0 < d -> 0 < packet -> d + packet <= 2 ^ 53 ->
  Polyfill.chunkSize source controller =
  Js.of_Z (Qceiling (inject_Z d / inject_Z packet) * packet).
Proof.
  cbv zeta. set (p := Usb.packetSize (Polyfill.source_endpoint_ source)).
  intros Hd Hpos Hp Hsum. unfold Polyfill.chunkSize. fold p. rewrite Hd.
  unfold Js.truthy, Js.of_Z.
  rewrite (inject_Z_nonzero d) by lia. cbn [negb].
  unfold Js.div. rewrite (inject_Z_nonzero p) by lia.
  destruct (round_quotient d p) as [r [Hr Hc]]; [lia | lia | ].
  rewrite Hr. cbn [Js.ceil Js.mul]. rewrite Hc.
  set (c := Qceiling (inject_Z d / inject_Z p)).
  assert (Hpq : (0 < inject_Z p)%Q) by (unfold Qlt; simpl; lia).
  assert (Hdq : (0 < inject_Z d)%Q) by (unfold Qlt; simpl; lia).
  assert (Hxp : (inject_Z d / inject_Z p * inject_Z p == inject_Z d)%Q)
    by (field; lra).
  assert (Hx : (0 < inject_Z d / inject_Z p)%Q)
    by (apply Qlt_shift_div_l; lra).
  pose proof (Qle_ceiling (inject_Z d / inject_Z p)) as Hc1.
  pose proof (Qceiling_lt (inject_Z d / inject_Z p)) as Hc2.
  fold c in Hc1, Hc2. rewrite inject_Z_pred in Hc2.
  assert (Hc0 : 0 < c).
  { rewrite Zlt_Qlt. change (inject_Z 0) with 0%Q. lra. }
  assert (Hcp : (c - 1) * p < d).
  { rewrite Zlt_Qlt. rewrite inject_Z_mult, inject_Z_pred, <- Hxp.
    apply Qmult_lt_r; lra. }
  apply round_integer.
  - now rewrite inject_Z_mult.
  - nia.
Qed.

(** C8 (as amended): every pull makes exactly one inbound transfer on the
    source's endpoint.  With a desired size [d] that is a positive integer
    (and a positive packet size, [d + packetSize] at most 2^53, where the
    arithmetic of doubles is exact) the requested length is
    ceil(d / packetSize) * packetSize; with no desired size, or with a
    desired size that is zero (or NaN), it is exactly packetSize.  Desired
    size 100 with packet size 64 requests 128 bytes, no desired size
    requests 64.  Outside the integers the quotient is rounded to a double
    first: the desired size 2^-1074 with packet size 64 requests 0
    bytes. *)
Theorem read_chunk_sizing (source : Polyfill.UsbEndpointUnderlyingSource)
    (w : Polyfill.World) :
  let packet := Usb.packetSize (Polyfill.source_endpoint_ source) in
  let endpoint := Usb.endpointNumber (Polyfill.source_endpoint_ source) in
  let desired := Streams.desiredSize (Polyfill.readable_controller w) in
  exists size,
    new_calls (Polyfill.pull source) w = [Usb.TransferIn endpoint size] /\
    (forall d : Z,
        desired = Some (Js.of_Z d) ->
        0 < d -> 0 < packet -> d + packet <= 2 ^ 53 ->
        size = Js.of_Z (Qceiling (inject_Z d / inject_Z packet) * packet)) /\
    (desired = None -> size = Js.of_Z packet) /\
    (forall x, desired = Some x -> Js.truthy x = false ->
               size = Js.of_Z packet) /\
    (desired = Some (Js.of_Z 100) -> packet = 64 -> size = Js.of_Z 128) /\
    (desired = None -> packet = 64 -> size = Js.of_Z 64) /\
    (desired = Some (Js.Fin (Js.pow2 (-1074))) -> packet = 64 ->
     size = Js.of_Z 0).
Proof.
  cbv zeta.
  exists (Polyfill.chunkSize source (Polyfill.readable_controller w)).
  split; [apply pull_new_calls | ].
  split; [intros d Hd H0 Hp Hs; now apply chunkSize_rounds_up | ].
  split; [intros Hd; unfold Polyfill.chunkSize; now rewrite Hd | ].
  split; [intros x Hd Hx; unfold Polyfill.chunkSize; now rewrite Hd, Hx | ].
  split; [ | split].
  - intros Hd Hp. unfold Polyfill.chunkSize. rewrite Hd, Hp.
    vm_compute. reflexivity.
  - intros Hd Hp. unfold Polyfill.chunkSize. now rewrite Hd, Hp.
  - intros Hd Hp. unfold Polyfill.chunkSize. rewrite Hd, Hp.
    vm_compute. reflexivity.
Qed.

Lemma read_chunk_sizing_witness :
  exists size,
    new_calls (Polyfill.pull example_source)
      (example_world [] (Some (Js.of_Z 100))) = [Usb.TransferIn 1 size] /\
    size = Js.of_Z 128.
Proof.
  destruct (read_chunk_sizing example_source
              (example_world [] (Some (Js.of_Z 100))))
    as [size [Hcalls [Hround _]]].
  exists size. split; [exact Hcalls | ].
  apply (Hround 100).
  - reflexivity.
  - lia.
  - simpl. lia.
  - simpl. lia.
Defined.

(** C8, as stated, fails at desired size 0: the consumer signals the size 0,
    for which ceil(0 / 64) * 64 is 0, but the transfer requests 64 bytes. *)
Lemma read_chunk_sizing_counterexample :
  Streams.desiredSize
    (Polyfill.readable_controller (example_world [] (Some (Js.of_Z 0)))) =
    Some (Js.of_Z 0) /\
  new_calls (Polyfill.pull example_source)
    (example_world [] (Some (Js.of_Z 0))) =
    [Usb.TransferIn 1 (Js.of_Z 64)] /\
  Js.num_eq
    (Js.mul (Js.ceil (Js.div (Js.of_Z 0) (Js.of_Z 64))) (Js.of_Z 64))
    (Js.of_Z 0) /\
  ~ Js.num_eq (Js.of_Z 64) (Js.of_Z 0).
Proof.
  split; [reflexivity | ].
  split; [reflexivity | ].
  split; [vm_compute; reflexivity | ].
  simpl. unfold Qeq. simpl. lia.
Qed.

(** C4: when the inbound transfer of a pull is rejected by the host or
    completes with a status other than 'ok', the source calls
    [controller.error] (which errors a readable stream), runs its [onError]
    callback (the port's closure drops the cached stream), and the chunks
    handed to the consumer are the same as before: nothing of the failed
    transfer is enqueued. *)
Theorem failed_read_delivers_nothing
    (source : Polyfill.UsbEndpointUnderlyingSource) (w : Polyfill.World)
    (r : Usb.reply) (rest : list Usb.reply) :
  Usb.script (Polyfill.device_ w) = r :: rest ->
  failed_reply r ->
  let w' := snd (Polyfill.pull source w) in
  Streams.enqueued (Polyfill.readable_controller w') =
    Streams.enqueued (Polyfill.readable_controller w) /\
  (exists first more,
      Streams.rerrors (Polyfill.readable_controller w') =
      Streams.rerrors (Polyfill.readable_controller w) ++ first :: more) /\
  (Streams.rstate (Polyfill.readable_controller w) = Streams.Active ->
   Streams.rstate (Polyfill.readable_controller w') = Streams.Errored) /\
  (Polyfill.onError_runs w < Polyfill.onError_runs w')%nat /\
  (Polyfill.source_onError_ source = Polyfill.InvalidateReadable ->
   Polyfill.readable_ (Polyfill.this w') = Js.Null).
Proof.
  intros Hscript Hfail. cbv zeta.
  unfold Polyfill.pull, bind, get, try_catch, Polyfill.on_device, Usb.invoke.
  rewrite Hscript.
  destruct r as [result | name]; simpl in Hfail |- *.
  - destruct result as [st dat]. simpl in Hfail |- *.
    destruct st; try contradiction; simpl;
      destruct (Streams.rstate (Polyfill.readable_controller w)) eqn:Est;
      destruct (Polyfill.source_onError_ source) eqn:Ecb;
      destruct dat as [bytes | ]; simpl;
      unfold Polyfill.on_readable_controller, Streams.enqueue; simpl;
      rewrite ?Est; simpl;
      repeat split; try congruence; try lia;
      try (eexists _, _; rewrite <- ?app_assoc; reflexivity).
  - destruct (Streams.rstate (Polyfill.readable_controller w)) eqn:Est;
      destruct (Polyfill.source_onError_ source) eqn:Ecb; simpl;
      repeat split; try congruence; try lia;
      try (eexists _, _; reflexivity).
Qed.

Lemma failed_read_delivers_nothing_witness :
  let w := example_world
             [Usb.Resolve {| Usb.status := Usb.status_babble;
                             Usb.data := Some [1; 2; 3] |}]
             (Some (Js.of_Z 255)) in
  let w' := snd (Polyfill.pull example_source w) in
  Streams.enqueued (Polyfill.readable_controller w') = [] /\
  Streams.rstate (Polyfill.readable_controller w') = Streams.Errored /\
  Polyfill.readable_ (Polyfill.this w') = Js.Null.
Proof.
  cbv zeta.
  destruct (failed_read_delivers_nothing example_source
              (example_world
                 [Usb.Resolve {| Usb.status := Usb.status_babble;
                                 Usb.data := Some [1; 2; 3] |}]
                 (Some (Js.of_Z 255)))
              (Usb.Resolve {| Usb.status := Usb.status_babble;
                              Usb.data := Some [1; 2; 3] |}) [])
    as [Hq [_ [Hst [_ Hcache]]]].
  - reflexivity.
  - simpl. discriminate.
  - split; [exact Hq | ].
    split; [apply Hst | apply Hcache]; reflexivity.
Defined.

(* ------------------------------------------------------------------ *)
(** ** Control signals *)

Lemma on_device_invoke (c : Usb.call) (w : Polyfill.World) :
  exists r d',
    Polyfill.on_device (Usb.invoke c) w =
    (r, {| Polyfill.this := Polyfill.this w;
           Polyfill.device_ := d';
           Polyfill.readable_controller := Polyfill.readable_controller w;
           Polyfill.writable_controller := Polyfill.writable_controller w;
           Polyfill.onError_runs := Polyfill.onError_runs w |}) /\
    Usb.log d' = Usb.log (Polyfill.device_ w) ++ [c].
Proof.
  unfold Polyfill.on_device.
  pose proof (invoke_log c (Polyfill.device_ w)) as Hlog.
  destruct (Usb.invoke c (Polyfill.device_ w)) as [r d'].
  exists r, d'. split; [reflexivity | exact Hlog].
Qed.

Lemma setSignals_line_state (w : Polyfill.World)
    (s : Polyfill.SerialOutputSignals) :
  Polyfill.provided (Polyfill.dataTerminalReady s)
  || Polyfill.provided (Polyfill.requestToSend s) = true ->
  let merged := Polyfill.merge_signals (Polyfill.outputSignals_ (Polyfill.this w)) s in
  let value :=
    Z.lor (if Polyfill.on_ (Polyfill.dataTerminalReady merged) then 1 else 0)
          (if Polyfill.on_ (Polyfill.requestToSend merged) then 2 else 0) in
  let index := Usb.interfaceNumber (Polyfill.controlInterface_ (Polyfill.this w)) in
  Polyfill.outputSignals_ (Polyfill.this (snd (Polyfill.setSignals s w))) = merged /\
  exists more,
    new_calls (Polyfill.setSignals s) w =
      Usb.ControlTransferOut Polyfill.kSetControlLineState value index None
      :: more /\
    (more = [] \/
     exists v, more = [Usb.ControlTransferOut Polyfill.kSendBreak v index None]).
Proof.
  destruct w as [p d rc wc n].
  destruct d as [cfgs cfg op cl vid pid lg sc].
  destruct s as [dtr rts brk].
  intros Hprov. cbv zeta.
  unfold new_calls, Polyfill.setSignals, bind, get, Polyfill.on_this, modify,
    Polyfill.on_device, Usb.invoke, when_, ret.
  destruct dtr as [ | | dtr]; destruct rts as [ | | rts];
    try discriminate Hprov; clear Hprov;
    destruct brk as [ | | brk];
    destruct sc as [ | [r1 | n1] [ | [r2 | n2] sc]];
    cbn -[Z.lor Polyfill.merge_signals Polyfill.on_];
    (split; [reflexivity | ]);
    rewrite <- ?app_assoc, skipn_length_app;
    eexists; (split; [reflexivity | ]);
    first [ now left | right; eexists; reflexivity ].
Qed.

Lemma spread_signal (remembered given : Js.field bool) :
  Polyfill.on_ (Js.spread remembered given) = signal_after remembered given.
Proof. destruct remembered, given; reflexivity. Qed.

(** C7: a [setSignals] call that provides dataTerminalReady or requestToSend
    makes exactly one Set Control Line State (0x22) control transfer, on the
    control interface; bit 0 of its value is the merged DTR state, bit 1 the
    merged RTS state and no other bit is set; the port remembers the merged
    state of all three signals.  The merged state of a signal is what the
    call gives for it and, when the call does not have the property, what
    the port remembered.  From the all-false state, {dataTerminalReady:
    true, requestToSend: false} gives the value 0x01 and both true give
    0x03. *)
Theorem control_line_bitmap (w : Polyfill.World)
    (s : Polyfill.SerialOutputSignals) :
  Polyfill.provided (Polyfill.dataTerminalReady s)
  || Polyfill.provided (Polyfill.requestToSend s) = true ->
  let remembered := Polyfill.outputSignals_ (Polyfill.this w) in
  let dtr :=
    signal_after (Polyfill.dataTerminalReady remembered)
      (Polyfill.dataTerminalReady s) in
  let rts :=
    signal_after (Polyfill.requestToSend remembered)
      (Polyfill.requestToSend s) in
  let brk := signal_after (Polyfill.break remembered) (Polyfill.break s) in
  let after :=
    Polyfill.outputSignals_ (Polyfill.this (snd (Polyfill.setSignals s w))) in
  let index :=
    Usb.interfaceNumber (Polyfill.controlInterface_ (Polyfill.this w)) in
  exists value,
    count_request Polyfill.kSetControlLineState
      (new_calls (Polyfill.setSignals s) w) = 1%nat /\
    In (Usb.ControlTransferOut Polyfill.kSetControlLineState value index None)
       (new_calls (Polyfill.setSignals s) w) /\
    Z.testbit value 0 = dtr /\
    Z.testbit value 1 = rts /\
    (forall n, 1 < n -> Z.testbit value n = false) /\
    Polyfill.on_ (Polyfill.dataTerminalReady after) = dtr /\
    Polyfill.on_ (Polyfill.requestToSend after) = rts /\
    Polyfill.on_ (Polyfill.break after) = brk /\
    (remembered = all_signals_off ->
     s = signals (Js.Val true) (Js.Val false) Js.Absent -> value = 0x01) /\
    (remembered = all_signals_off ->
     s = signals (Js.Val true) (Js.Val true) Js.Absent -> value = 0x03).
Proof.
  intros Hprov. cbv zeta.
  destruct (setSignals_line_state w s Hprov) as [Hmerged [more [Hcalls Hmore]]].
  cbv zeta in Hmerged, Hcalls.
  eexists. rewrite Hcalls, Hmerged.
  unfold Polyfill.merge_signals.
  cbn [Polyfill.dataTerminalReady Polyfill.requestToSend Polyfill.break].
  rewrite !spread_signal.
  split.
  { unfold count_request. simpl.
    destruct Hmore as [-> | [v ->]]; reflexivity. }
  split; [now left | ].
  split.
  { destruct (signal_after (Polyfill.dataTerminalReady _) _),
             (signal_after (Polyfill.requestToSend _) _); reflexivity. }
  split.
  { destruct (signal_after (Polyfill.dataTerminalReady _) _),
             (signal_after (Polyfill.requestToSend _) _); reflexivity. }
  split.
  { intros n Hn.
    destruct (signal_after (Polyfill.dataTerminalReady _) _),
             (signal_after (Polyfill.requestToSend _) _); simpl;
      destruct n as [ | [k | k | ] | k]; try lia; reflexivity. }
  split; [reflexivity | ]. split; [reflexivity | ]. split; [reflexivity | ].
  split; intros Hoff Hs; rewrite Hoff, Hs; reflexivity.
Qed.

Lemma control_line_bitmap_witness :
  exists value,
    new_calls
      (Polyfill.setSignals (signals (Js.Val true) (Js.Val true) Js.Absent))
      (example_world [] None) =
    [Usb.ControlTransferOut 0x22 value 0 None] /\
    value = 0x03.
Proof.
  destruct (control_line_bitmap (example_world [] None)
              (signals (Js.Val true) (Js.Val true) Js.Absent))
    as [value [_ [Hin [_ [_ [_ [_ [_ [_ [_ Hboth]]]]]]]]]].
  - reflexivity.
  - exists value. rewrite (Hboth eq_refl eq_refl) in *.
    split; reflexivity.
Defined.

(* ------------------------------------------------------------------ *)
(** ** Option validation *)

Lemma polyfill_isValidBaudRate_integer (x : Js.number) :
  Polyfill.isValidBaudRate x = true <-> Js.is_integer x.
Proof. exact (isValidBaudRate_integer x). Qed.

Lemma same_value_zero_of_Z (x : Js.number) (z : Z) :
  Js.same_value_zero x (Js.of_Z z) = true <-> Js.num_eq x (Js.of_Z z).
Proof.
  destruct x as [p | | |]; simpl; try (split; [discriminate | contradiction]).
  apply Qeq_bool_iff.
Qed.

Lemma includes_of_Z (x : Js.number) (zs : list Z) :
  Js.includes Js.same_value_zero (map Js.of_Z zs) x = true <->
  number_among x zs.
Proof.
  unfold Js.includes, number_among. rewrite existsb_exists. split.
  - intros [y [Hin Hy]]. apply in_map_iff in Hin. destruct Hin as [z [<- Hz]].
    exists z. split; [exact Hz | now apply same_value_zero_of_Z].
  - intros [z [Hz Heq]]. exists (Js.of_Z z). split.
    + now apply in_map.
    + now apply same_value_zero_of_Z.
Qed.

Lemma isValidDataBits_among (x : Js.number) :
  Polyfill.isValidDataBits (Some x) = true <-> number_among x [5; 6; 7; 8; 16].
Proof.
  change (Polyfill.isValidDataBits (Some x)) with
    (Js.includes Js.same_value_zero (map Js.of_Z [16; 8; 7; 6; 5]) x).
  rewrite includes_of_Z. unfold number_among.
  split; intros [z [Hin Heq]]; exists z; (split; [ | exact Heq]);
    simpl in Hin |- *; tauto.
Qed.

Lemma isValidStopBits_among (x : Js.number) :
  Polyfill.isValidStopBits (Some x) = true <-> number_among x [1; 2].
Proof.
  change (Polyfill.isValidStopBits (Some x)) with
    (Js.includes Js.same_value_zero (map Js.of_Z [1; 2]) x).
  apply includes_of_Z.
Qed.

Lemma isValidParity_among (s : string) :
  Polyfill.isValidParity (Some s) = true <->
  In s ["none"; "odd"; "even"]%string.
Proof.
  unfold Polyfill.isValidParity, Js.includes. rewrite existsb_exists. split.
  - intros [y [Hin Hy]]. apply String.eqb_eq in Hy. subst y.
    simpl in Hin |- *. tauto.
  - intros Hin. exists s. split; [ | apply String.eqb_refl].
    simpl in Hin |- *. tauto.
Qed.

Lemma validateOptions_run (w : Polyfill.World) (o : Polyfill.SerialOptions) :
  Polyfill.serialOptions_ (Polyfill.this w) = Some o ->
  Polyfill.validateOptions w =
  (if negb (Polyfill.isValidBaudRate (Polyfill.baudRate o))
   then Throw (RangeError BaudRate)
   else if negb (Polyfill.isValidDataBits (Js.read (Polyfill.dataBits o)))
   then Throw (RangeError DataBits)
   else if negb (Polyfill.isValidStopBits (Js.read (Polyfill.stopBits o)))
   then Throw (RangeError StopBits)
   else if negb (Polyfill.isValidParity (Js.read (Polyfill.parity o)))
   then Throw (RangeError Parity)
   else Ok tt,
   w).
Proof.
  intros Ho.
  unfold Polyfill.validateOptions, Polyfill.the_options, bind, get.
  rewrite Ho. unfold ret, throw.
  destruct (Polyfill.isValidBaudRate _); [ | reflexivity].
  destruct (Polyfill.isValidDataBits _); [ | reflexivity].
  destruct (Polyfill.isValidStopBits _); [ | reflexivity].
  destruct (Polyfill.isValidParity _); reflexivity.
Qed.

Lemma validateOptions_fully_specified (w : Polyfill.World)
    (baud data stop : Js.number) (par : string)
    (buffer : Js.field Js.number) (flow : Js.field string) :
  Polyfill.serialOptions_ (Polyfill.this w) =
    Some (fully_specified baud data stop par buffer flow) ->
  snd (Polyfill.validateOptions w) = w /\
  (throws_RangeError (fst (Polyfill.validateOptions w)) \/
   fst (Polyfill.validateOptions w) = Ok tt) /\
  (fst (Polyfill.validateOptions w) = Ok tt <->
   Js.is_integer baud /\ number_among data [5; 6; 7; 8; 16] /\
   number_among stop [1; 2] /\ In par ["none"; "odd"; "even"]%string) /\
  (throws_RangeError (fst (Polyfill.validateOptions w)) <->
   ~ Js.is_integer baud \/ ~ number_among data [5; 6; 7; 8; 16] \/
   ~ number_among stop [1; 2] \/ ~ In par ["none"; "odd"; "even"]%string).
Proof.
  intros Ho. rewrite (validateOptions_run w _ Ho).
  cbn [fully_specified Polyfill.baudRate Polyfill.dataBits Polyfill.stopBits
       Polyfill.parity Js.read fst snd].
  pose proof (polyfill_isValidBaudRate_integer baud) as Hb.
  pose proof (isValidDataBits_among data) as Hd.
  pose proof (isValidStopBits_among stop) as Hs.
  pose proof (isValidParity_among par) as Hp.
  assert (Hft : forall P : Prop, (false = true <-> P) -> ~ P)
    by (intros P [_ H] HP; discriminate (H HP)).
  assert (Htt : forall P : Prop, (true = true <-> P) -> P)
    by (intros P [H _]; now apply H).
  unfold throws_RangeError.
  split; [reflexivity | ].
  destruct (Polyfill.isValidBaudRate baud).
  2:{ apply Hft in Hb. cbn [negb fst]. split; [left; eexists; reflexivity | ].
      split; split.
      - discriminate.
      - tauto.
      - tauto.
      - intros _. eexists; reflexivity. }
  apply Htt in Hb.
  destruct (Polyfill.isValidDataBits (Some data)).
  2:{ apply Hft in Hd. cbn [negb fst]. split; [left; eexists; reflexivity | ].
      split; split.
      - discriminate.
      - tauto.
      - tauto.
      - intros _. eexists; reflexivity. }
  apply Htt in Hd.
  destruct (Polyfill.isValidStopBits (Some stop)).
  2:{ apply Hft in Hs. cbn [negb fst]. split; [left; eexists; reflexivity | ].
      split; split.
      - discriminate.
      - tauto.
      - tauto.
      - intros _. eexists; reflexivity. }
  apply Htt in Hs.
  destruct (Polyfill.isValidParity (Some par)).
  2:{ apply Hft in Hp. cbn [negb fst]. split; [left; eexists; reflexivity | ].
      split; split.
      - discriminate.
      - tauto.
      - tauto.
      - intros _. eexists; reflexivity. }
  apply Htt in Hp. cbn [negb fst].
  split; [now right | ].
  split; split.
  - tauto.
  - reflexivity.
  - intros [f H]. discriminate H.
  - tauto.
Qed.

Lemma validateOptions_state (w : Polyfill.World) :
  snd (Polyfill.validateOptions w) = w.
Proof.
  unfold Polyfill.validateOptions, Polyfill.the_options, bind, get.
  destruct (Polyfill.serialOptions_ (Polyfill.this w)) as [o | ]; simpl;
    [ | reflexivity].
  destruct (Polyfill.isValidBaudRate _); [ | reflexivity].
  destruct (Polyfill.isValidDataBits _); [ | reflexivity].
  destruct (Polyfill.isValidStopBits _); [ | reflexivity].
  destruct (Polyfill.isValidParity _); reflexivity.
Qed.

(** The handler of [open]'s [try]. *)
Lemma open_handler (error : exn) (w2 : Polyfill.World) :
  let handler :=
    bind get (fun w : Polyfill.World =>
      bind (when_ (Usb.opened (Polyfill.device_ w))
              (bind (Polyfill.on_device (Usb.invoke Usb.Close))
                    (fun _ => ret tt)))
           (fun _ => throw (SetupError error))) in
  (Usb.opened (Polyfill.device_ w2) = false ->
   handler w2 = (@Throw unit (SetupError error), w2)) /\
  (Usb.opened (Polyfill.device_ w2) = true ->
   next_call_accepted (Polyfill.device_ w2) ->
   fst (handler w2) = @Throw unit (SetupError error) /\
   Usb.opened (Polyfill.device_ (snd (handler w2))) = false /\
   Usb.claimed (Polyfill.device_ (snd (handler w2))) = []) /\
  (fst (handler w2) = @Throw unit (SetupError error) \/
   exists name, fst (handler w2) = @Throw unit (HostError name)).
Proof.
  cbv zeta. unfold bind, get, throw, Polyfill.on_device, Usb.invoke,
    next_call_accepted.
  destruct (Usb.opened (Polyfill.device_ w2)) eqn:Eo; simpl.
  - split; [discriminate | ].
    destruct (Usb.script (Polyfill.device_ w2)) as [ | [r | name] rest]; simpl.
    + split; [intros _ _; repeat split | now left].
    + split; [intros _ _; repeat split | now left].
    + split; [intros _ [] | right; now exists name].
  - split; [reflexivity | ]. split; [discriminate | now left].
Qed.

Lemma open_unfold (options : Polyfill.SerialOptions) (w : Polyfill.World) :
  Polyfill.open options w =
  match fst (Polyfill.validateOptions (with_options options w)) with
  | Throw e => (Throw e, with_options options w)
  | Ok _ =>
      match Polyfill.open_sequence (with_options options w) with
      | (Ok a, w2) => (Ok a, w2)
      | (Throw error, w2) =>
          bind get (fun w : Polyfill.World =>
            bind (when_ (Usb.opened (Polyfill.device_ w))
                    (bind (Polyfill.on_device (Usb.invoke Usb.Close))
                          (fun _ => ret tt)))
                 (fun _ => throw (SetupError error))) w2
      end
  end.
Proof.
  pose proof (validateOptions_state (with_options options w)) as Hst.
  unfold Polyfill.open, bind at 1 2, try_catch.
  change (Polyfill.on_this
            (modify (Polyfill.set_serialOptions (Some options))) w)
    with (Ok tt, with_options options w).
  cbv iota beta.
  destruct (Polyfill.validateOptions (with_options options w)) as [[u | e] w1];
    simpl in Hst |- *; subst w1; reflexivity.
Qed.

Lemma open_never_RangeError (options : Polyfill.SerialOptions)
    (w : Polyfill.World) :
  fst (Polyfill.validateOptions (with_options options w)) = Ok tt ->
  ~ throws_RangeError (fst (Polyfill.open options w)).
Proof.
  intros Hv [f Hf]. rewrite open_unfold, Hv in Hf.
  destruct (Polyfill.open_sequence (with_options options w)) as [[a | e] w2].
  - discriminate Hf.
  - destruct (open_handler e w2) as [_ [_ [H | [name H]]]];
      cbv zeta in H; rewrite H in Hf; discriminate Hf.
Qed.

Lemma setLineCoding_never_RangeError (w : Polyfill.World) :
  ~ throws_RangeError (fst (Polyfill.setLineCoding w)).
Proof.
  intros [f Hf].
  unfold Polyfill.setLineCoding, Polyfill.the_options, bind, get,
    Polyfill.lift_result, Polyfill.on_device, Usb.invoke in Hf.
  destruct (Polyfill.serialOptions_ (Polyfill.this w)) as [o | ];
    [ | discriminate Hf].
  simpl in Hf.
  destruct (Usb.script (Polyfill.device_ w)) as [ | [r | name] rest];
    simpl in Hf; try discriminate Hf.
  - destruct (Usb.is_ok (Usb.status r)); discriminate Hf.
Qed.

Lemma reconfigure_unfold (options : Polyfill.SerialOptions)
    (w : Polyfill.World) :
  let w1 :=
    with_options
      (Polyfill.merge_options (Polyfill.serialOptions_ (Polyfill.this w))
         options) w in
  Polyfill.reconfigure options w =
  match fst (Polyfill.validateOptions w1) with
  | Throw e => (Throw e, w1)
  | Ok _ => Polyfill.setLineCoding w1
  end.
Proof.
  cbv zeta.
  pose proof (validateOptions_state
    (with_options
       (Polyfill.merge_options (Polyfill.serialOptions_ (Polyfill.this w))
          options) w)) as Hst.
  unfold Polyfill.reconfigure, bind at 1 2.
  change (Polyfill.on_this _ w) with
    (Ok tt, with_options
       (Polyfill.merge_options (Polyfill.serialOptions_ (Polyfill.this w))
          options) w).
  cbv iota beta.
  destruct (Polyfill.validateOptions _) as [[u | e] w1];
    simpl in Hst |- *; subst w1; reflexivity.
Qed.

Lemma merge_fully_specified (old : option Polyfill.SerialOptions)
    (baud data stop : Js.number) (par : string)
    (buffer : Js.field Js.number) (flow : Js.field string) :
  exists buffer' flow',
    Polyfill.merge_options old
      (fully_specified baud data stop par buffer flow) =
    fully_specified baud data stop par buffer' flow'.
Proof.
  destruct old as [o | ]; simpl.
  - eexists _, _. reflexivity.
  - eexists _, _. reflexivity.
Qed.

Lemma async_outcome {S A : Type} (body : M S A) (s : S) :
  snd (async body s) = snd (body s) /\
  (forall e, fst (async body s) = Rejected e <-> fst (body s) = Throw e) /\
  (forall a, fst (async body s) = Fulfilled a <-> fst (body s) = Ok a) /\
  (forall e, fst (async body s) <> ThrownSync e).
Proof.
  unfold async. destruct (body s) as [[a | e] s']; simpl;
    repeat split; intros; congruence.
Qed.

Lemma reconfigure_call_unfold (options : Polyfill.SerialOptions)
    (w : Polyfill.World) :
  let w1 :=
    with_options
      (Polyfill.merge_options (Polyfill.serialOptions_ (Polyfill.this w))
         options) w in
  Polyfill.reconfigure_call options w =
  match fst (Polyfill.validateOptions w1) with
  | Throw e => (ThrownSync e, w1)
  | Ok _ => async Polyfill.setLineCoding w1
  end.
Proof.
  cbv zeta.
  pose proof (validateOptions_state
    (with_options
       (Polyfill.merge_options (Polyfill.serialOptions_ (Polyfill.this w))
          options) w)) as Hst.
  unfold Polyfill.reconfigure_call, bind at 1.
  change (Polyfill.on_this _ w) with
    (Ok tt, with_options
       (Polyfill.merge_options (Polyfill.serialOptions_ (Polyfill.this w))
          options) w).
  cbv iota beta.
  destruct (Polyfill.validateOptions _) as [[u | e] w1];
    simpl in Hst |- *; subst w1; reflexivity.
Qed.

(** The two readings of [reconfigure] agree: the call throws or its promise
    is rejected exactly when the flat reading throws, with the same error
    and the same final world. *)
Lemma reconfigure_call_agrees (options : Polyfill.SerialOptions)
    (w : Polyfill.World) :
  snd (Polyfill.reconfigure_call options w) =
    snd (Polyfill.reconfigure options w) /\
  match fst (Polyfill.reconfigure_call options w) with
  | Fulfilled a => fst (Polyfill.reconfigure options w) = Ok a
  | Rejected e | ThrownSync e => fst (Polyfill.reconfigure options w) = Throw e
  end.
Proof.
  rewrite reconfigure_call_unfold, reconfigure_unfold. cbv zeta.
  destruct (fst (Polyfill.validateOptions _)) as [[] | e];
    [ | split; reflexivity].
  unfold async.
  destruct (Polyfill.setLineCoding _) as [[[] | e] w']; split; reflexivity.
Qed.

(** C3 (as amended): for a fully specified options record, the call
    [open(options)] returns a promise rejected with a RangeError, and the
    call [reconfigure(options)] throws a RangeError before it returns, if
    and only if baudRate is not an integer (it has a fractional part, or is
    NaN or infinite), or dataBits is not one of 5, 6, 7, 8, 16, or stopBits
    is not 1 or 2, or parity is not "none", "odd" or "even"; when it does,
    the device has not been touched.  [open] never throws before it
    returns, and the promise [reconfigure] returns is never rejected with
    a RangeError.  Valid options pass validation. *)
Theorem option_validation (w : Polyfill.World)
    (baud data stop : Js.number) (par : string)
    (buffer : Js.field Js.number) (flow : Js.field string) :
  let options := fully_specified baud data stop par buffer flow in
  let invalid :=
    ~ Js.is_integer baud \/ ~ number_among data [5; 6; 7; 8; 16] \/
    ~ number_among stop [1; 2] \/ ~ In par ["none"; "odd"; "even"]%string in
  let opened := Polyfill.open_call options w in
  let reconfigured := Polyfill.reconfigure_call options w in
  ((exists f, fst opened = Rejected (RangeError f)) <-> invalid) /\
  (forall e, fst opened <> ThrownSync e) /\
  ((exists f, fst opened = Rejected (RangeError f)) ->
   Polyfill.device_ (snd opened) = Polyfill.device_ w) /\
  ((exists f, fst reconfigured = ThrownSync (RangeError f)) <-> invalid) /\
  (forall f, fst reconfigured <> Rejected (RangeError f)) /\
  ((exists f, fst reconfigured = ThrownSync (RangeError f)) ->
   Polyfill.device_ (snd reconfigured) = Polyfill.device_ w) /\
  (Js.is_integer baud -> number_among data [5; 6; 7; 8; 16] ->
   number_among stop [1; 2] -> In par ["none"; "odd"; "even"]%string ->
   fst (Polyfill.validateOptions (with_options options w)) = Ok tt).
Proof.
  cbv zeta.
  destruct (validateOptions_fully_specified
              (with_options (fully_specified baud data stop par buffer flow) w)
              baud data stop par buffer flow eq_refl)
    as [_ [Hcases [Hok Hthrow]]].
  destruct (merge_fully_specified
              (Polyfill.serialOptions_ (Polyfill.this w))
              baud data stop par buffer flow) as [buffer' [flow' Hmerge]].
  destruct (validateOptions_fully_specified
              (with_options (fully_specified baud data stop par buffer' flow') w)
              baud data stop par buffer' flow' eq_refl)
    as [_ [Hcases' [Hok' Hthrow']]].
  pose proof (open_never_RangeError
                (fully_specified baud data stop par buffer flow) w) as Hnever.
  pose proof (open_unfold (fully_specified baud data stop par buffer flow) w)
    as Hopen.
  pose proof (reconfigure_call_unfold
                (fully_specified baud data stop par buffer flow) w) as Hrec.
  cbv zeta in Hrec. rewrite Hmerge in Hrec.
  pose proof (setLineCoding_never_RangeError
                (with_options (fully_specified baud data stop par buffer' flow') w))
    as Hnever'.
  destruct (async_outcome
              (Polyfill.open (fully_specified baud data stop par buffer flow)) w)
    as [Hsnd [Hrej [_ Hsync]]].
  fold (Polyfill.open_call (fully_specified baud data stop par buffer flow))
    in Hsnd, Hrej, Hsync.
  assert (Hiff : (exists f,
                     fst (Polyfill.open_call
                            (fully_specified baud data stop par buffer flow) w)
                     = Rejected (RangeError f)) <->
                 throws_RangeError
                   (fst (Polyfill.open
                           (fully_specified baud data stop par buffer flow) w))).
  { split; intros [f Hf]; exists f; now apply Hrej. }
  destruct (async_outcome Polyfill.setLineCoding
              (with_options (fully_specified baud data stop par buffer' flow') w))
    as [_ [Hrej' [_ Hsync']]].
  split; [ | split; [ | split; [ | split; [ | split; [ | split]]]]].
  - rewrite Hiff, <- Hthrow. split.
    + intros H. destruct Hcases as [Ht | Hv]; [exact Ht | ].
      exfalso. now apply Hnever.
    + intros [f Hf]. rewrite Hopen, Hf. now exists f.
  - exact Hsync.
  - rewrite Hiff, Hsnd. intros H. destruct Hcases as [[f Hf] | Hv].
    + rewrite Hopen, Hf. reflexivity.
    + exfalso. now apply Hnever.
  - rewrite <- Hthrow'. split.
    + intros [f Hf]. destruct Hcases' as [Ht | Hv]; [exact Ht | ].
      exfalso. rewrite Hrec, Hv in Hf. now apply (Hsync' (RangeError f)).
    + intros [f Hf]. rewrite Hrec, Hf. now exists f.
  - intros f Hf. rewrite Hrec in Hf.
    destruct Hcases' as [[f' Hf'] | Hv].
    + rewrite Hf' in Hf. discriminate Hf.
    + rewrite Hv in Hf. apply Hrej' in Hf. apply Hnever'. now exists f.
  - intros [f Hf]. destruct Hcases' as [[f' Hf'] | Hv].
    + rewrite Hrec, Hf'. reflexivity.
    + exfalso. rewrite Hrec, Hv in Hf. now apply (Hsync' (RangeError f)).
  - intros Hb Hd Hs Hp. apply Hok. tauto.
Qed.

Lemma option_validation_witness :
  fst (Polyfill.validateOptions
         (with_options options_9600_8N1 (example_world [] None))) = Ok tt /\
  Polyfill.device_
    (snd (Polyfill.open_call
            (fully_specified (Js.Fin (19201 # 2)) (Js.of_Z 8) (Js.of_Z 1)
               "none" Js.Absent Js.Absent)
            (example_world [] None))) =
  Polyfill.device_ (example_world [] None).
Proof.
  split.
  - destruct (option_validation (example_world [] None)
                (Js.of_Z 9600) (Js.of_Z 8) (Js.of_Z 1) "none"
                Js.Absent Js.Absent) as [_ [_ [_ [_ [_ [_ Hvalid]]]]]].
    apply Hvalid.
    + exists 9600. reflexivity.
    + exists 8. split; [simpl; tauto | reflexivity].
    + exists 1. split; [simpl; tauto | reflexivity].
    + simpl. tauto.
  - destruct (option_validation (example_world [] None)
                (Js.Fin (19201 # 2)) (Js.of_Z 8) (Js.of_Z 1) "none"
                Js.Absent Js.Absent) as [_ [_ [Huntouched _]]].
    apply Huntouched.
    exists BaudRate. reflexivity.
Defined.

(** C3, as stated, fails for a negative baud rate: -1 is not a non-negative
    integer, yet [open] does not throw a RangeError; it goes on to open the
    device and sends the line coding. *)
Lemma option_validation_counterexample :
  let options :=
    fully_specified (Js.of_Z (-1)) (Js.of_Z 8) (Js.of_Z 1) "none"
      Js.Absent Js.Absent in
  ~ nonnegative_integer (Js.of_Z (-1)) /\
  fst (Polyfill.open options (example_world [] None)) = Ok tt /\
  new_calls (Polyfill.open options) (example_world [] None) =
    [ Usb.Open; Usb.ClaimInterface 0; Usb.ClaimInterface 1;
      Usb.ControlTransferOut 0x20 0 0 (Some [255; 255; 255; 255; 0; 0; 8]);
      Usb.ControlTransferOut 0x22 1 0 None ] /\
  ~ (throws_RangeError (fst (Polyfill.open options (example_world [] None)))
     <->
     (~ nonnegative_integer (Js.of_Z (-1)) \/
      ~ number_among (Js.of_Z 8) [5; 6; 7; 8; 16] \/
      ~ number_among (Js.of_Z 1) [1; 2] \/
      ~ In "none"%string ["none"; "odd"; "even"]%string)).
Proof.
  cbv zeta.
  assert (Hneg : ~ nonnegative_integer (Js.of_Z (-1))).
  { intros [z [Hz Heq]]. simpl in Heq. unfold Qeq in Heq. simpl in Heq. lia. }
  split; [exact Hneg | ].
  split; [reflexivity | ].
  split; [reflexivity | ].
  intros [_ H].
  destruct (H (or_introl Hneg)) as [f Hf].
  vm_compute in Hf. discriminate Hf.
Qed.

(* ------------------------------------------------------------------ *)
(** ** Line coding of the current generation *)

Lemma lineCodingBuffer_bytes (o : Polyfill.SerialOptions) :
  let u := Js.ToUint 32 (Polyfill.baudRate o) in
  Polyfill.lineCodingBuffer o =
  Ok [ u mod 256; (u / 256) mod 256; (u / 65536) mod 256;
       (u / 16777216) mod 256;
       Js.ToUint 8 (Js.of_Z (Js.indexOf Js.strict_eq
                               Polyfill.kStopBitsIndexMapping
                               (Js.nullish (Js.read (Polyfill.stopBits o))
                                  Polyfill.kDefaultStopBits)));
       Js.ToUint 8 (Js.of_Z (Js.indexOf String.eqb
                               Polyfill.kParityIndexMapping
                               (Js.nullish (Js.read (Polyfill.parity o))
                                  Polyfill.kDefaultParity)));
       Js.ToUint 8 (Js.nullish (Js.read (Polyfill.dataBits o))
                      Polyfill.kDefaultDataBits) ].
Proof. reflexivity. Qed.

Lemma setLineCoding_calls (w : Polyfill.World) (o : Polyfill.SerialOptions)
    (buffer : DataView.ArrayBuffer) :
  Polyfill.serialOptions_ (Polyfill.this w) = Some o ->
  Polyfill.lineCodingBuffer o = Ok buffer ->
  new_calls Polyfill.setLineCoding w =
  [Usb.ControlTransferOut Polyfill.kSetLineCoding 0
     (Usb.interfaceNumber (Polyfill.controlInterface_ (Polyfill.this w)))
     (Some buffer)].
Proof.
  intros Ho Hbuf.
  unfold new_calls, Polyfill.setLineCoding, Polyfill.the_options, bind, get,
    Polyfill.lift_result.
  rewrite Ho. cbn [ret]. rewrite Hbuf.
  match goal with
  | |- context [Polyfill.on_device (Usb.invoke ?c) ?w1] =>
      destruct (on_device_invoke c w1) as [r [d1 [E1 L1]]]; rewrite E1
  end.
  destruct r as [res | e]; cbn [fst snd Polyfill.device_].
  - destruct (Usb.is_ok (Usb.status res)); simpl;
      rewrite L1; apply skipn_length_app.
  - rewrite L1. apply skipn_length_app.
Qed.

(** C10: in the current generation an absent (undefined) dataBits, stopBits
    or parity passes its validity check, and the 7-byte line-coding payload
    that [setLineCoding] sends carries the default in its place: data bits 8
    at offset 6, stop-bits code 0 at offset 4, parity code 0 at offset 5.
    When all three are absent, validation passes exactly when baudRate is an
    integer. *)
Theorem absent_fields_default (w : Polyfill.World)
    (o : Polyfill.SerialOptions) :
  Polyfill.serialOptions_ (Polyfill.this w) = Some o ->
  exists payload,
    Polyfill.lineCodingBuffer o = Ok payload /\
    length payload = 7%nat /\
    new_calls Polyfill.setLineCoding w =
      [Usb.ControlTransferOut Polyfill.kSetLineCoding 0
         (Usb.interfaceNumber (Polyfill.controlInterface_ (Polyfill.this w)))
         (Some payload)] /\
    (Js.read (Polyfill.dataBits o) = None ->
     Polyfill.isValidDataBits (Js.read (Polyfill.dataBits o)) = true /\
     nth 6 payload 0 = 8) /\
    (Js.read (Polyfill.stopBits o) = None ->
     Polyfill.isValidStopBits (Js.read (Polyfill.stopBits o)) = true /\
     nth 4 payload 0 = 0) /\
    (Js.read (Polyfill.parity o) = None ->
     Polyfill.isValidParity (Js.read (Polyfill.parity o)) = true /\
     nth 5 payload 0 = 0) /\
    (Js.read (Polyfill.dataBits o) = None ->
     Js.read (Polyfill.stopBits o) = None ->
     Js.read (Polyfill.parity o) = None ->
     (fst (Polyfill.validateOptions w) = Ok tt <->
      Js.is_integer (Polyfill.baudRate o))).
Proof.
  intros Ho. eexists.
  split; [apply lineCodingBuffer_bytes | ]. cbv zeta.
  split; [reflexivity | ].
  split; [apply (setLineCoding_calls w o); [exact Ho | apply lineCodingBuffer_bytes] | ].
  split; [intros ->; split; reflexivity | ].
  split; [intros ->; split; reflexivity | ].
  split; [intros ->; split; reflexivity | ].
  intros Hd Hs Hp. rewrite (validateOptions_run w o Ho), Hd, Hs, Hp.
  cbn [Polyfill.isValidDataBits Polyfill.isValidStopBits
       Polyfill.isValidParity negb fst].
  rewrite <- polyfill_isValidBaudRate_integer.
  destruct (Polyfill.isValidBaudRate (Polyfill.baudRate o)); simpl;
    split; congruence.
Qed.

Lemma absent_fields_default_witness :
  exists payload,
    new_calls Polyfill.setLineCoding
      (with_options (options_baud_only (Js.of_Z 115200))
         (example_world [] None)) =
    [Usb.ControlTransferOut 0x20 0 0 (Some payload)] /\
    payload = [0; 194; 1; 0; 0; 0; 8] /\
    fst (Polyfill.validateOptions
           (with_options (options_baud_only (Js.of_Z 115200))
              (example_world [] None))) = Ok tt.
Proof.
  destruct (absent_fields_default
              (with_options (options_baud_only (Js.of_Z 115200))
                 (example_world [] None))
              (options_baud_only (Js.of_Z 115200)) eq_refl)
    as [payload [Hbuf [_ [Hcalls [_ [_ [_ Hvalid]]]]]]].
  exists payload. split; [exact Hcalls | ].
  split.
  - vm_compute in Hbuf. now injection Hbuf as <-.
  - apply Hvalid; try reflexivity.
    exists 115200. reflexivity.
Defined.

(* ------------------------------------------------------------------ *)
(** ** The open sequence *)

Section Preservation.
Variable I : Usb.USBDevice -> Prop.

Lemma preserves_ret {A : Type} (a : A) : preserves I (ret a).
Proof. intros w H. exact H. Qed.

Lemma preserves_throw {A : Type} (e : exn) : preserves I (@throw _ A e).
Proof. intros w H. exact H. Qed.

Lemma preserves_get : preserves I get.
Proof. intros w H. exact H. Qed.

Lemma preserves_bind {A B : Type} (m : M Polyfill.World A)
    (k : A -> M Polyfill.World B) :
  preserves I m -> (forall a, preserves I (k a)) -> preserves I (bind m k).
Proof.
  intros Hm Hk w H. unfold bind. specialize (Hm w H).
  destruct (m w) as [[a | e] w']; simpl in Hm |- *.
  - now apply Hk.
  - exact Hm.
Qed.

Lemma preserves_when (b : bool) (m : M Polyfill.World unit) :
  preserves I m -> preserves I (when_ b m).
Proof. intros Hm. destruct b; [exact Hm | apply preserves_ret]. Qed.

Lemma preserves_on_this {A : Type} (m : M Polyfill.SerialPort A) :
  preserves I (Polyfill.on_this m).
Proof.
  intros w H. unfold Polyfill.on_this.
  destruct (m (Polyfill.this w)). exact H.
Qed.

Lemma preserves_lift_result {A : Type} (r : Result A) :
  preserves I (Polyfill.lift_result r).
Proof. intros w H. exact H. Qed.

Lemma preserves_invoke (c : Usb.call) :
  (forall d, I d -> I (snd (Usb.invoke c d))) ->
  preserves I (Polyfill.on_device (Usb.invoke c)).
Proof.
  intros Hc w H. unfold Polyfill.on_device. specialize (Hc _ H).
  destruct (Usb.invoke c (Polyfill.device_ w)). exact Hc.
Qed.
End Preservation.

Lemma invoke_keeps_open (c : Usb.call) (d : Usb.USBDevice) :
  c <> Usb.Close -> is_open d -> is_open (snd (Usb.invoke c d)).
Proof.
  unfold is_open, Usb.invoke. intros Hc Hd.
  destruct (Usb.script d) as [ | [r | name] rest]; simpl;
    destruct c; simpl; congruence.
Qed.

Ltac keeps_open :=
  repeat first
    [ apply preserves_bind; [ | intros ? ]
    | apply preserves_when
    | apply preserves_on_this
    | apply preserves_get
    | apply preserves_ret
    | apply preserves_throw
    | apply preserves_lift_result
    | apply preserves_invoke; intros ? ?; apply invoke_keeps_open;
      [discriminate | assumption]
    | match goal with
      | |- preserves _ (match ?x with _ => _ end) => destruct x
      | |- preserves _ (if ?x then _ else _) => destruct x
      end ].

Lemma setLineCoding_keeps_open : preserves is_open Polyfill.setLineCoding.
Proof. unfold Polyfill.setLineCoding, Polyfill.the_options. keeps_open. Qed.

Lemma setSignals_keeps_open (s : Polyfill.SerialOutputSignals) :
  preserves is_open (Polyfill.setSignals s).
Proof. unfold Polyfill.setSignals. keeps_open. Qed.

Lemma open_sequence_unclaimed (w : Polyfill.World) :
  closed_means_unclaimed (Polyfill.device_ w) ->
  closed_means_unclaimed (Polyfill.device_ (snd (Polyfill.open_sequence w))).
Proof.
  intros Hw. unfold Polyfill.open_sequence.
  unfold bind at 1. unfold Polyfill.on_device at 1. unfold Usb.invoke at 1.
  destruct (Usb.script (Polyfill.device_ w)) as [ | [r | name] rest];
    cbn [fst snd]; try exact Hw;
    match goal with
    | |- closed_means_unclaimed (Polyfill.device_ (snd (?m ?w1))) =>
        assert (Hk : preserves is_open m);
        [ | intros Hclosed; specialize (Hk w1 eq_refl);
            unfold is_open in Hk; congruence ]
    end;
    keeps_open;
    first [ apply setLineCoding_keeps_open | apply setSignals_keeps_open ].
Qed.

(** C2 (as amended): whenever validation passes and a step of [open]'s
    device sequence raises an error, and the host does not reject the
    [close] made in the handler, [open] rejects with that error wrapped in
    the setup error, and the device ends closed with no interface claimed
    (on a device that had no claimed interface while closed). *)
Theorem open_sequence_atomic (options : Polyfill.SerialOptions)
    (w : Polyfill.World) :
  closed_means_unclaimed (Polyfill.device_ w) ->
  (is_open (Polyfill.device_
              (snd (Polyfill.open_sequence (with_options options w)))) ->
   next_call_accepted
     (Polyfill.device_
        (snd (Polyfill.open_sequence (with_options options w))))) ->
  open_is_atomic options w.
Proof.
  intros Hwf Hclose Hvalid e Hfail.
  rewrite open_unfold, Hvalid.
  pose proof (open_sequence_unclaimed (with_options options w) Hwf) as Hwf2.
  destruct (Polyfill.open_sequence (with_options options w)) as [[a | e'] w2].
  - discriminate Hfail.
  - simpl in Hfail, Hclose, Hwf2. injection Hfail as ->.
    destruct (open_handler e w2) as [Hclosed [Hopened _]]. cbv zeta in *.
    destruct (Usb.opened (Polyfill.device_ w2)) eqn:Eo.
    + apply Hopened; [reflexivity | apply Hclose; exact Eo].
    + rewrite (Hclosed eq_refl). simpl.
      split; [reflexivity | ]. split; [exact Eo | now apply Hwf2].
Qed.

Lemma open_sequence_atomic_witness :
  fst (Polyfill.open options_9600_8N1 (example_world line_coding_stalled None))
    = Throw (SetupError NetworkError) /\
  Usb.opened (Polyfill.device_
    (snd (Polyfill.open options_9600_8N1
            (example_world line_coding_stalled None)))) = false /\
  Usb.claimed (Polyfill.device_
    (snd (Polyfill.open options_9600_8N1
            (example_world line_coding_stalled None)))) = [].
Proof.
  apply (open_sequence_atomic options_9600_8N1
           (example_world line_coding_stalled None)).
  - intros _. reflexivity.
  - intros _. vm_compute. exact Logic.I.
  - reflexivity.
  - reflexivity.
Defined.

(** C2, as stated, fails when the cleanup itself fails: the claim of the
    control interface is rejected and so is the [close] made in the handler
    (the adapter was unplugged); [open] then rejects with the error of
    [close], not wrapped, and the device is left open. *)
Lemma open_sequence_atomic_counterexample :
  closed_means_unclaimed
    (Polyfill.device_ (example_world unplugged_during_open None)) /\
  fst (Polyfill.validateOptions
         (with_options options_9600_8N1
            (example_world unplugged_during_open None))) = Ok tt /\
  fst (Polyfill.open_sequence
         (with_options options_9600_8N1
            (example_world unplugged_during_open None))) =
    Throw (HostError "NotFoundError") /\
  fst (Polyfill.open options_9600_8N1
         (example_world unplugged_during_open None)) =
    Throw (HostError "NotFoundError") /\
  Usb.opened (Polyfill.device_
    (snd (Polyfill.open options_9600_8N1
            (example_world unplugged_during_open None)))) = true /\
  new_calls (Polyfill.open options_9600_8N1)
    (example_world unplugged_during_open None) =
    [Usb.Open; Usb.ClaimInterface 0; Usb.Close] /\
  ~ open_is_atomic options_9600_8N1 (example_world unplugged_during_open None).
Proof.
  split; [intros _; reflexivity | ].
  split; [reflexivity | ].
  split; [reflexivity | ].
  split; [reflexivity | ].
  split; [reflexivity | ].
  split; [reflexivity | ].
  intros H.
  destruct (H eq_refl (HostError "NotFoundError") eq_refl) as [Hres _].
  vm_compute in Hres. discriminate Hres.
Qed.

(* ------------------------------------------------------------------ *)
(** ** Runs of the model on the two-function adapter *)

Example constructor_finds_first_pair :
  Polyfill.new_SerialPort (two_port_device []) None = Ok example_port.
Proof. reflexivity. Qed.

Example constructor_needs_both_classes :
  Polyfill.new_SerialPort control_only_device None =
  Throw (InterfaceNotFound 10).
Proof. reflexivity. Qed.

Example getPorts_skips_unrecognized :
  Polyfill.getPorts [control_only_device; two_port_device []] None =
  [example_port].
Proof. reflexivity. Qed.

Example open_9600_8N1_calls :
  new_calls (Polyfill.open options_9600_8N1) (example_world [] None) =
  [ Usb.Open; Usb.ClaimInterface 0; Usb.ClaimInterface 1;
    Usb.ControlTransferOut 0x20 0 0 (Some [0x80; 0x25; 0; 0; 0; 0; 8]);
    Usb.ControlTransferOut 0x22 0x01 0 None ].
Proof. reflexivity. Qed.

Example close_after_open_calls :
  new_calls Polyfill.close
    (then_world (Polyfill.open options_9600_8N1) (example_world [] None)) =
  [ Usb.ControlTransferOut 0x22 0x00 0 None; Usb.Close ].
Proof. reflexivity. Qed.

Example pull_delivers_a_short_chunk :
  Streams.enqueued
    (Polyfill.readable_controller
       (then_world (Polyfill.pull example_source)
          (example_world
             [Usb.Resolve {| Usb.status := Usb.status_ok;
                             Usb.data := Some [104; 105] |}]
             (Some (Js.of_Z 255))))) = [[104; 105]].
Proof. reflexivity. Qed.

Example legacy_encode_9600_7E2 :
  Legacy.getLineCodingStructure port_9600_7E2 = Ok [0x80; 0x25; 0; 0; 2; 2; 7].
Proof. reflexivity. Qed.

Example legacy_fractional_baud_rejected :
  fst (Legacy.validateOptions
         {| Legacy.transferInterface_ := no_interface;
            Legacy.controlInterface_ := no_interface;
            Legacy.serialOptions_ :=
              Legacy.set_baudrate (Js.Fin (19201 # 2))
                Legacy.kDefaultSerialOptions |}) =
  Throw (RangeError BaudRate).
Proof. reflexivity. Qed.

(* ------------------------------------------------------------------ *)
(** ** What a lookup result tells about the descriptor tree *)

Lemma findInterface_loop_sound (classCode : Z)
    (ifaces : list Usb.USBInterface) (iface : Usb.USBInterface) :
  Polyfill.findInterface_loop ifaces classCode = Ok iface ->
  exists pre post,
    ifaces = pre ++ iface :: post /\
    first_alternate_declares classCode iface /\
    forall y, In y pre -> first_alternate_differs classCode y.
Proof.
  induction ifaces as [ | x ifaces IH]; simpl; [discriminate | ].
  destruct (Usb.alternates x) as [ | a others] eqn:Ex; simpl; [discriminate | ].
  destruct (Usb.interfaceClass a =? classCode) eqn:Ec.
  - intros H. injection H as <-. exists [], ifaces.
    split; [reflexivity | ]. split.
    + exists a, others. split; [exact Ex | now apply Z.eqb_eq].
    + intros y [].
  - intros H. destruct (IH H) as [pre [post [-> [Hdecl Hpre]]]].
    exists (x :: pre), post. split; [reflexivity | ].
    split; [exact Hdecl | ].
    intros y [<- | Hy]; [ | now apply Hpre].
    exists a, others. split; [exact Ex | now apply Z.eqb_neq].
Qed.

Lemma findInterface_loop_errors (classCode : Z)
    (ifaces : list Usb.USBInterface) (e : exn) :
  Polyfill.findInterface_loop ifaces classCode = Throw e ->
  (e = InterfaceNotFound classCode /\
   forall y, In y ifaces -> first_alternate_differs classCode y) \/
  (e = UndefinedAccess /\
   exists pre y post,
     ifaces = pre ++ y :: post /\ Usb.alternates y = [] /\
     forall z, In z pre -> first_alternate_differs classCode z).
Proof.
  induction ifaces as [ | x ifaces IH]; simpl.
  - intros H. injection H as <-. left. split; [reflexivity | intros y []].
  - destruct (Usb.alternates x) as [ | a others] eqn:Ex; simpl.
    + intros H. injection H as <-. right. split; [reflexivity | ].
      exists [], x, ifaces. split; [reflexivity | ].
      split; [exact Ex | intros z []].
    + destruct (Usb.interfaceClass a =? classCode) eqn:Ec; [discriminate | ].
      assert (Hx : first_alternate_differs classCode x).
      { exists a, others. split; [exact Ex | now apply Z.eqb_neq]. }
      intros H. destruct (IH H) as [[-> Hall] | [-> [pre [y [post [-> [Hy Hpre]]]]]]].
      * left. split; [reflexivity | ].
        intros y [<- | Hy]; [exact Hx | now apply Hall].
      * right. split; [reflexivity | ].
        exists (x :: pre), y, post. split; [reflexivity | ].
        split; [exact Hy | ].
        intros z [<- | Hz]; [exact Hx | now apply Hpre].
Qed.

(** X1: whatever interface [findInterface] returns belongs to the first
    configuration, its first alternate setting declares the class, and
    every interface declared before it has a first alternate setting of
    another class.  When it throws, it is either the not-found TypeError,
    and then every interface of the first configuration has a first
    alternate setting of another class, or the TypeError of a read on
    undefined, and then the device has no configuration or an interface
    with no alternate setting comes before any match. *)
Theorem findInterface_result (device : Usb.USBDevice) (classCode : Z) :
  (forall iface,
      Polyfill.findInterface device classCode = Ok iface ->
      exists cfg others pre post,
        Usb.configurations device = cfg :: others /\
        Usb.interfaces cfg = pre ++ iface :: post /\
        first_alternate_declares classCode iface /\
        forall y, In y pre -> first_alternate_differs classCode y) /\
  (forall e,
      Polyfill.findInterface device classCode = Throw e ->
      (e = InterfaceNotFound classCode /\
       exists cfg others,
         Usb.configurations device = cfg :: others /\
         forall y, In y (Usb.interfaces cfg) ->
                   first_alternate_differs classCode y) \/
      (e = UndefinedAccess /\
       (Usb.configurations device = [] \/
        exists cfg others pre y post,
          Usb.configurations device = cfg :: others /\
          Usb.interfaces cfg = pre ++ y :: post /\
          Usb.alternates y = [] /\
          forall z, In z pre -> first_alternate_differs classCode z))).
Proof.
  unfold Polyfill.findInterface.
  destruct (Usb.configurations device) as [ | cfg others]; simpl.
  - split; [discriminate | ].
    intros e H. injection H as <-. right. split; [reflexivity | now left].
  - split.
    + intros iface H.
      destruct (findInterface_loop_sound _ _ _ H) as [pre [post [Hs [Hd Hp]]]].
      now exists cfg, others, pre, post.
    + intros e H.
      destruct (findInterface_loop_errors _ _ _ H)
        as [[-> Hall] | [-> [pre [y [post [Hs [Hy Hpre]]]]]]].
      * left. split; [reflexivity | ]. now exists cfg, others.
      * right. split; [reflexivity | ]. right.
        now exists cfg, others, pre, y, post.
Qed.

Lemma findInterface_result_witness :
  exists cfg others pre post,
    Usb.configurations (two_port_device []) = cfg :: others /\
    Usb.interfaces cfg = pre ++ control_interface 0 :: post /\
    first_alternate_declares 2 (control_interface 0) /\
    forall y, In y pre -> first_alternate_differs 2 y.
Proof.
  destruct (findInterface_result (two_port_device []) 2) as [Hok _].
  apply Hok. reflexivity.
Defined.

Lemma findEndpoint_loop_sound (iface : Usb.USBInterface) (dir : USBDirection)
    (eps : list Usb.USBEndpoint) :
  (forall endpoint,
      Polyfill.findEndpoint_loop iface eps dir = Ok endpoint ->
      exists pre post,
        eps = pre ++ endpoint :: post /\ Usb.direction endpoint = dir /\
        forall y, In y pre -> Usb.direction y <> dir) /\
  (forall e,
      Polyfill.findEndpoint_loop iface eps dir = Throw e ->
      e = EndpointNotFound (Usb.interfaceNumber iface) dir /\
      forall y, In y eps -> Usb.direction y <> dir).
Proof.
  induction eps as [ | x eps [IHok IHerr]]; simpl.
  - split; [discriminate | ].
    intros e H. injection H as <-. split; [reflexivity | intros y []].
  - destruct (Polyfill.direction_eqb (Usb.direction x) dir) eqn:Ed.
    + apply direction_eqb_eq in Ed. split; [ | discriminate].
      intros endpoint H. injection H as <-. exists [], eps.
      split; [reflexivity | ]. split; [exact Ed | intros y []].
    + assert (Hx : Usb.direction x <> dir).
      { intros Heq. apply direction_eqb_eq in Heq. congruence. }
      split.
      * intros endpoint H.
        destruct (IHok _ H) as [pre [post [-> [Hd Hpre]]]].
        exists (x :: pre), post. split; [reflexivity | ].
        split; [exact Hd | ].
        intros y [<- | Hy]; [exact Hx | now apply Hpre].
      * intros e H. destruct (IHerr _ H) as [-> Hall].
        split; [reflexivity | ].
        intros y [<- | Hy]; [exact Hx | now apply Hall].
Qed.

(** X2: whatever endpoint [findEndpoint] returns is an endpoint of the
    interface's first alternate setting with the direction asked for, and
    no endpoint declared before it there has that direction; endpoints of
    the other alternate settings are never returned.  When it throws, it
    is the not-found TypeError, and then no endpoint of the first
    alternate setting has the direction, or the TypeError of a read on
    undefined, and then the interface has no alternate setting. *)
Theorem findEndpoint_result (iface : Usb.USBInterface) (dir : USBDirection) :
  (forall endpoint,
      Polyfill.findEndpoint iface dir = Ok endpoint ->
      exists alternate rest pre post,
        Usb.alternates iface = alternate :: rest /\
        Usb.endpoints alternate = pre ++ endpoint :: post /\
        Usb.direction endpoint = dir /\
        forall y, In y pre -> Usb.direction y <> dir) /\
  (forall e,
      Polyfill.findEndpoint iface dir = Throw e ->
      (e = EndpointNotFound (Usb.interfaceNumber iface) dir /\
       exists alternate rest,
         Usb.alternates iface = alternate :: rest /\
         forall y, In y (Usb.endpoints alternate) -> Usb.direction y <> dir) \/
      (e = UndefinedAccess /\ Usb.alternates iface = [])).
Proof.
  unfold Polyfill.findEndpoint.
  destruct (Usb.alternates iface) as [ | alternate rest]; simpl.
  - split; [discriminate | ].
    intros e H. injection H as <-. right. now split.
  - destruct (findEndpoint_loop_sound iface dir (Usb.endpoints alternate))
      as [Hok Herr].
    split.
    + intros endpoint H. destruct (Hok _ H) as [pre [post [Hs [Hd Hp]]]].
      now exists alternate, rest, pre, post.
    + intros e H. destruct (Herr _ H) as [-> Hall].
      left. split; [reflexivity | ]. now exists alternate, rest.
Qed.

Lemma findEndpoint_result_witness :
  exists alternate rest pre post,
    Usb.alternates (data_interface 1) = alternate :: rest /\
    Usb.endpoints alternate = pre ++ out_endpoint_1 :: post /\
    Usb.direction out_endpoint_1 = dir_out /\
    forall y, In y pre -> Usb.direction y <> dir_out.
Proof.
  destruct (findEndpoint_result (data_interface 1) dir_out) as [Hok _].
  apply Hok. reflexivity.
Defined.

(* ------------------------------------------------------------------ *)
(** ** Construction of ports *)

Lemma findInterface_member (device : Usb.USBDevice) (classCode : Z)
    (iface : Usb.USBInterface) :
  Polyfill.findInterface device classCode = Ok iface ->
  first_alternate_declares classCode iface /\
  exists cfg others,
    Usb.configurations device = cfg :: others /\
    In iface (Usb.interfaces cfg).
Proof.
  unfold Polyfill.findInterface. intros H.
  destruct (Usb.configurations device) as [ | cfg others];
    [discriminate H | ].
  simpl in H.
  destruct (findInterface_loop_sound _ _ _ H) as [pre [post [Hs [Hd _]]]].
  split; [exact Hd | ]. exists cfg, others. split; [reflexivity | ].
  rewrite Hs. apply in_or_app. right. now left.
Qed.

Lemma findEndpoint_member (iface : Usb.USBInterface) (dir : USBDirection)
    (endpoint : Usb.USBEndpoint) :
  Polyfill.findEndpoint iface dir = Ok endpoint ->
  Usb.direction endpoint = dir /\ endpoint_of_first_alternate endpoint iface.
Proof.
  unfold Polyfill.findEndpoint, endpoint_of_first_alternate. intros H.
  destruct (Usb.alternates iface) as [ | alternate rest] eqn:Ea;
    [discriminate H | ].
  simpl in H.
  destruct (findEndpoint_loop_sound iface dir (Usb.endpoints alternate))
    as [Hok _].
  destruct (Hok _ H) as [pre [post [Hs [Hd _]]]].
  split; [exact Hd | ]. exists alternate, rest. split; [reflexivity | ].
  rewrite Hs. apply in_or_app. right. now left.
Qed.

Lemma merged_control_class (given : option Polyfill.SerialPolyfillOptions)
    (classCode : Z) :
  requested_class 2 (given_control_class given) = Some classCode ->
  Polyfill.class_of
    (Polyfill.usbControlInterfaceClass (Polyfill.merge_polyfillOptions given)) =
  classCode.
Proof.
  destruct given as [[p c t] | ]; [destruct c | ]; simpl; intros H;
    try discriminate H; injection H as <-; reflexivity.
Qed.

Lemma merged_transfer_class (given : option Polyfill.SerialPolyfillOptions)
    (classCode : Z) :
  requested_class 10 (given_transfer_class given) = Some classCode ->
  Polyfill.class_of
    (Polyfill.usbTransferInterfaceClass (Polyfill.merge_polyfillOptions given)) =
  classCode.
Proof.
  destruct given as [[p c t] | ]; [destruct t | ]; simpl; intros H;
    try discriminate H; injection H as <-; reflexivity.
Qed.

Lemma new_SerialPort_located (device : Usb.USBDevice)
    (given : option Polyfill.SerialPolyfillOptions)
    (port : Polyfill.SerialPort) :
  Polyfill.new_SerialPort device given = Ok port ->
  located device given port.
Proof.
  intros H.
  unfold Polyfill.new_SerialPort, Polyfill.bind_result in H.
  destruct (Polyfill.findInterface device _)
    as [control | e] eqn:Ec in H; [ | discriminate H].
  destruct (Polyfill.findInterface device _)
    as [transfer | e] eqn:Et in H; [ | discriminate H].
  destruct (Polyfill.findEndpoint transfer dir_in)
    as [inEndpoint | e] eqn:Ei; [ | discriminate H].
  destruct (Polyfill.findEndpoint transfer dir_out)
    as [outEndpoint | e] eqn:Eo; [ | discriminate H].
  injection H as <-.
  destruct (findInterface_member _ _ _ Ec) as [Hcd [cfg [others [Hcfg Hcin]]]].
  destruct (findInterface_member _ _ _ Et) as [Htd [cfg' [others' [Hcfg' Htin]]]].
  rewrite Hcfg in Hcfg'. injection Hcfg' as <- <-.
  destruct (findEndpoint_member _ _ _ Ei) as [Hid Hiin].
  destruct (findEndpoint_member _ _ _ Eo) as [Hod Hoin].
  unfold located. simpl.
  split; [now exists cfg, others | ].
  split.
  { intros classCode Hc. now rewrite <- (merged_control_class given classCode Hc). }
  split.
  { intros classCode Hc. now rewrite <- (merged_transfer_class given classCode Hc). }
  repeat split; assumption.
Qed.

(** X3: a port the constructor returns has located, in the device's first
    configuration, a control interface and a transfer interface whose
    first alternate settings declare the control class and the transfer
    class the caller's polyfill options ask for, 2 and 10 where the
    caller gives none; its IN and OUT endpoints have these directions and
    belong to the first alternate setting of the transfer interface; it
    starts with no options, no stream assigned and all output signals
    off.  A device whose first configuration has no interface with the
    control class asked for is not constructed. *)
Theorem constructor_locates (device : Usb.USBDevice)
    (given : option Polyfill.SerialPolyfillOptions) :
  (forall port,
      Polyfill.new_SerialPort device given = Ok port ->
      located device given port) /\
  (forall classCode,
      requested_class 2 (given_control_class given) = Some classCode ->
      (forall cfg others iface,
          Usb.configurations device = cfg :: others ->
          In iface (Usb.interfaces cfg) ->
          ~ first_alternate_declares classCode iface) ->
      exists e, Polyfill.new_SerialPort device given = Throw e).
Proof.
  split; [intros port; apply new_SerialPort_located | ].
  intros classCode Hc Hnone.
  unfold Polyfill.new_SerialPort, Polyfill.bind_result.
  rewrite (merged_control_class given classCode Hc).
  destruct (Polyfill.findInterface device classCode) as [control | e] eqn:Ec;
    [ | now exists e].
  destruct (findInterface_member _ _ _ Ec) as [Hd [cfg [others [Hcfg Hin]]]].
  now destruct (Hnone cfg others control Hcfg Hin).
Qed.

Lemma constructor_locates_witness :
  located (two_port_device [])
    (Some {| Polyfill.protocol := Js.Absent;
             Polyfill.usbControlInterfaceClass := Js.Val 2;
             Polyfill.usbTransferInterfaceClass := Js.Absent |})
    example_port.
Proof.
  destruct (constructor_locates (two_port_device [])
              (Some {| Polyfill.protocol := Js.Absent;
                       Polyfill.usbControlInterfaceClass := Js.Val 2;
                       Polyfill.usbTransferInterfaceClass := Js.Absent |}))
    as [H _].
  apply H. reflexivity.
Defined.

(** X4: [getPorts] returns, in the order of the devices, exactly the ports
    of the devices on which the constructor succeeds; a device on which it
    throws is skipped and never makes the call fail.  Every port returned
    has located its interfaces and endpoints on its device. *)
Theorem getPorts_recognized (devices : list Usb.USBDevice)
    (given : option Polyfill.SerialPolyfillOptions) :
  (forall port,
      In port (Polyfill.getPorts devices given) <->
      exists device,
        In device devices /\ Polyfill.new_SerialPort device given = Ok port) /\
  (forall port,
      In port (Polyfill.getPorts devices given) ->
      exists device, In device devices /\ located device given port) /\
  (forall before device after,
      devices = before ++ device :: after ->
      Polyfill.getPorts devices given =
      Polyfill.getPorts before given ++
      match Polyfill.new_SerialPort device given with
      | Ok port => [port]
      | Throw _ => []
      end ++ Polyfill.getPorts after given).
Proof.
  assert (Hiff : forall port,
      In port (Polyfill.getPorts devices given) <->
      exists device,
        In device devices /\ Polyfill.new_SerialPort device given = Ok port).
  { intros port. unfold Polyfill.getPorts. rewrite in_flat_map. split.
    - intros [device [Hin Hp]]. exists device. split; [exact Hin | ].
      destruct (Polyfill.new_SerialPort device given) as [p | e];
        simpl in Hp; [ | contradiction].
      destruct Hp as [<- | []]. reflexivity.
    - intros [device [Hin Hp]]. exists device. split; [exact Hin | ].
      rewrite Hp. now left. }
  split; [exact Hiff | ]. split.
  - intros port Hin. apply Hiff in Hin. destruct Hin as [device [Hd Hp]].
    exists device. split; [exact Hd | ].
    now apply new_SerialPort_located.
  - intros before device after ->. unfold Polyfill.getPorts.
    rewrite flat_map_app. reflexivity.
Qed.

Lemma getPorts_recognized_witness :
  exists device,
    In device [control_only_device; two_port_device []] /\
    located device None example_port.
Proof.
  destruct (getPorts_recognized [control_only_device; two_port_device []] None)
    as [_ [Hloc _]].
  apply Hloc. simpl. now left.
Defined.

(* ------------------------------------------------------------------ *)
(** ** The stream getters *)

Lemma acceptable_highWaterMark_dec (x : Js.number) :
  acceptable_highWaterMark x \/ ~ acceptable_highWaterMark x.
Proof.
  destruct x as [q | | | ]; simpl;
    [ | right; tauto | left; exact I | right; tauto].
  destruct (Qlt_le_dec q 0) as [H | H]; [right; lra | left; exact H].
Qed.

Lemma ExtractHighWaterMark_options (o : Polyfill.SerialOptions) :
  Js.nullish (Js.read (Polyfill.bufferSize o)) Polyfill.kDefaultBufferSize =
    highWaterMark_of o /\
  (acceptable_highWaterMark (highWaterMark_of o) ->
   Streams.ExtractHighWaterMark (highWaterMark_of o) =
   Ok (highWaterMark_of o)) /\
  (~ acceptable_highWaterMark (highWaterMark_of o) ->
   Streams.ExtractHighWaterMark (highWaterMark_of o) =
   Throw StreamRangeError).
Proof.
  unfold highWaterMark_of.
  split; [destruct (Polyfill.bufferSize o); reflexivity | ].
  destruct (Polyfill.bufferSize o) as [ | | [q | | | ]]; simpl;
    try (split; [reflexivity | intros H; exfalso; apply H; exact I]);
    try (split; [intros [] | reflexivity]);
    try (split; [reflexivity | intros H; exfalso; apply H; discriminate]).
  destruct (Qle_bool 0 q) eqn:E.
  - apply Qle_bool_iff in E. split; [reflexivity | contradiction].
  - split; [ | reflexivity].
    intros H. apply Qle_bool_iff in H. congruence.
Qed.

Lemma readable_builds (w : Polyfill.World) (o : Polyfill.SerialOptions) :
  Js.is_object (Polyfill.readable_ (Polyfill.this w)) = false ->
  Usb.opened (Polyfill.device_ w) = true ->
  Polyfill.serialOptions_ (Polyfill.this w) = Some o ->
  (acceptable_highWaterMark (highWaterMark_of o) ->
   Polyfill.readable w =
   (Ok (Js.Object (built_readable (Polyfill.this w) o)),
    {| Polyfill.this :=
         Polyfill.set_readable
           (Js.Object (built_readable (Polyfill.this w) o)) (Polyfill.this w);
       Polyfill.device_ := Polyfill.device_ w;
       Polyfill.readable_controller :=
         Polyfill.fresh_readable_controller (highWaterMark_of o);
       Polyfill.writable_controller := Polyfill.writable_controller w;
       Polyfill.onError_runs := Polyfill.onError_runs w |})) /\
  (~ acceptable_highWaterMark (highWaterMark_of o) ->
   Polyfill.readable w = (Throw StreamRangeError, w)).
Proof.
  intros Hr Ho Hopt.
  destruct (ExtractHighWaterMark_options o) as [Hh [Hok Hbad]].
  unfold Polyfill.readable, Polyfill.the_options, Polyfill.lift_result,
    bind, get, when_.
  destruct w as [p d rc wc n].
  cbn [Polyfill.this Polyfill.device_] in *.
  rewrite Hr, Ho. cbn [negb andb Polyfill.this]. rewrite Hopt.
  cbn [ret]. rewrite Hh.
  split; intros Hacc.
  - rewrite (Hok Hacc). reflexivity.
  - rewrite (Hbad Hacc). reflexivity.
Qed.

(** X5: the [readable] getter returns the cached stream when there is
    one.  When there is none and the device is not open it returns what
    the field holds, null after a stream error or a close, undefined on a
    port that never had a stream; in these cases nothing changes.  With
    no cached stream, an open device and options set by [open], it looks
    at the high-water mark, which is [bufferSize], 255 when absent: when
    that is neither NaN nor negative it builds a stream over the port's
    IN endpoint with this high-water mark and an error callback that
    drops the cache, caches it, and the next access returns that same
    stream; when it is NaN or negative (values [open] accepts) the getter
    throws the RangeError of the stream constructor and caches nothing.
    On an open device whose port never got options it throws the
    TypeError of a read on undefined. *)
Theorem readable_getter (w : Polyfill.World) :
  (forall stream,
      Polyfill.readable_ (Polyfill.this w) = Js.Object stream ->
      Polyfill.readable w = (Ok (Js.Object stream), w)) /\
  (Polyfill.readable_ (Polyfill.this w) = Js.Null ->
   Usb.opened (Polyfill.device_ w) = false ->
   Polyfill.readable w = (Ok Js.Null, w)) /\
  (Polyfill.readable_ (Polyfill.this w) = Js.Unassigned ->
   Usb.opened (Polyfill.device_ w) = false ->
   Polyfill.readable w = (Ok Js.Unassigned, w)) /\
  (forall o,
      Js.is_object (Polyfill.readable_ (Polyfill.this w)) = false ->
      Usb.opened (Polyfill.device_ w) = true ->
      Polyfill.serialOptions_ (Polyfill.this w) = Some o ->
      acceptable_highWaterMark (highWaterMark_of o) ->
      let stream := built_readable (Polyfill.this w) o in
      let w' := snd (Polyfill.readable w) in
      fst (Polyfill.readable w) = Ok (Js.Object stream) /\
      Polyfill.this w' =
        Polyfill.set_readable (Js.Object stream) (Polyfill.this w) /\
      Polyfill.readable_controller w' =
        Polyfill.fresh_readable_controller (highWaterMark_of o) /\
      Polyfill.device_ w' = Polyfill.device_ w /\
      Polyfill.writable_controller w' = Polyfill.writable_controller w /\
      Polyfill.readable w' = (Ok (Js.Object stream), w')) /\
  (forall o,
      Js.is_object (Polyfill.readable_ (Polyfill.this w)) = false ->
      Usb.opened (Polyfill.device_ w) = true ->
      Polyfill.serialOptions_ (Polyfill.this w) = Some o ->
      ~ acceptable_highWaterMark (highWaterMark_of o) ->
      Polyfill.readable w = (Throw StreamRangeError, w)) /\
  (Js.is_object (Polyfill.readable_ (Polyfill.this w)) = false ->
   Usb.opened (Polyfill.device_ w) = true ->
   Polyfill.serialOptions_ (Polyfill.this w) = None ->
   Polyfill.readable w = (Throw UndefinedAccess, w)).
Proof.
  unfold Polyfill.readable, Polyfill.the_options, Polyfill.lift_result,
    bind, get, when_.
  split; [ | split; [ | split; [ | split; [ | split]]]].
  - intros stream Hr. rewrite Hr. cbn [Js.is_object negb andb ret].
    now rewrite Hr.
  - intros Hr Ho. rewrite Hr, Ho. cbn [Js.is_object negb andb ret].
    now rewrite Hr.
  - intros Hr Ho. rewrite Hr, Ho. cbn [Js.is_object negb andb ret].
    now rewrite Hr.
  - intros o Hr Ho Hopt Hacc.
    destruct (ExtractHighWaterMark_options o) as [Hh [Hok _]].
    specialize (Hok Hacc).
    destruct w as [p d rc wc n].
    cbn [Polyfill.this Polyfill.device_] in *.
    rewrite Hr, Ho. cbn [negb andb Polyfill.this]. rewrite Hopt.
    cbn [ret]. rewrite Hh, Hok.
    cbn -[highWaterMark_of]. repeat split.
  - intros o Hr Ho Hopt Hacc.
    destruct (ExtractHighWaterMark_options o) as [Hh [_ Hbad]].
    specialize (Hbad Hacc).
    destruct w as [p d rc wc n].
    cbn [Polyfill.this Polyfill.device_] in *.
    rewrite Hr, Ho. cbn [negb andb Polyfill.this]. rewrite Hopt.
    cbn [ret]. rewrite Hh, Hbad.
    reflexivity.
  - intros Hr Ho Hopt.
    destruct w as [p d rc wc n].
    cbn [Polyfill.this Polyfill.device_] in *.
    rewrite Hr, Ho. cbn [negb andb Polyfill.this]. rewrite Hopt.
    reflexivity.
Qed.

Lemma readable_getter_witness :
  fst (Polyfill.readable untouched_world) = Ok Js.Unassigned /\
  fst (Polyfill.readable
         (then_world Polyfill.close (opened_world []))) = Ok Js.Null /\
  fst (Polyfill.readable
         (then_world (Polyfill.open options_negative_buffer) untouched_world))
  = Throw StreamRangeError.
Proof.
  destruct (readable_getter untouched_world) as [_ [_ [Hnever _]]].
  destruct (readable_getter (then_world Polyfill.close (opened_world [])))
    as [_ [Hclosed _]].
  destruct (readable_getter
              (then_world (Polyfill.open options_negative_buffer)
                 untouched_world)) as [_ [_ [_ [_ [Hrange _]]]]].
  split; [rewrite Hnever; reflexivity | ].
  split; [rewrite Hclosed; reflexivity | ].
  rewrite (Hrange options_negative_buffer); try reflexivity.
  simpl. unfold Qle. simpl. lia.
Defined.

(** X6: the [writable] getter returns the cached stream when there is
    one, and what the field holds, null or undefined, when there is none
    and the device is not open, without changing anything.  With no
    cached stream, an open device and options set, it looks at the
    high-water mark, [bufferSize] or 255 when absent: when that is
    neither NaN nor negative it builds a stream over the port's OUT
    endpoint with this high-water mark, caches it and hands out the same
    stream on the next access, the readable side being left alone; when
    it is NaN or negative the getter throws the RangeError of the stream
    constructor and caches nothing. *)
Theorem writable_getter (w : Polyfill.World) :
  (forall stream,
      Polyfill.writable_ (Polyfill.this w) = Js.Object stream ->
      Polyfill.writable w = (Ok (Js.Object stream), w)) /\
  (Polyfill.writable_ (Polyfill.this w) = Js.Null ->
   Usb.opened (Polyfill.device_ w) = false ->
   Polyfill.writable w = (Ok Js.Null, w)) /\
  (Polyfill.writable_ (Polyfill.this w) = Js.Unassigned ->
   Usb.opened (Polyfill.device_ w) = false ->
   Polyfill.writable w = (Ok Js.Unassigned, w)) /\
  (forall o,
      Js.is_object (Polyfill.writable_ (Polyfill.this w)) = false ->
      Usb.opened (Polyfill.device_ w) = true ->
      Polyfill.serialOptions_ (Polyfill.this w) = Some o ->
      acceptable_highWaterMark (highWaterMark_of o) ->
      let stream := built_writable (Polyfill.this w) o in
      let w' := snd (Polyfill.writable w) in
      fst (Polyfill.writable w) = Ok (Js.Object stream) /\
      Polyfill.this w' =
        Polyfill.set_writable (Js.Object stream) (Polyfill.this w) /\
      Polyfill.writable_controller w' = Polyfill.fresh_writable_controller /\
      Polyfill.device_ w' = Polyfill.device_ w /\
      Polyfill.readable_controller w' = Polyfill.readable_controller w /\
      Polyfill.writable w' = (Ok (Js.Object stream), w')) /\
  (forall o,
      Js.is_object (Polyfill.writable_ (Polyfill.this w)) = false ->
      Usb.opened (Polyfill.device_ w) = true ->
      Polyfill.serialOptions_ (Polyfill.this w) = Some o ->
      ~ acceptable_highWaterMark (highWaterMark_of o) ->
      Polyfill.writable w = (Throw StreamRangeError, w)) /\
  (Js.is_object (Polyfill.writable_ (Polyfill.this w)) = false ->
   Usb.opened (Polyfill.device_ w) = true ->
   Polyfill.serialOptions_ (Polyfill.this w) = None ->
   Polyfill.writable w = (Throw UndefinedAccess, w)).
Proof.
  unfold Polyfill.writable, Polyfill.the_options, Polyfill.lift_result,
    bind, get, when_.
  split; [ | split; [ | split; [ | split; [ | split]]]].
  - intros stream Hr. rewrite Hr. cbn [Js.is_object negb andb ret].
    now rewrite Hr.
  - intros Hr Ho. rewrite Hr, Ho. cbn [Js.is_object negb andb ret].
    now rewrite Hr.
  - intros Hr Ho. rewrite Hr, Ho. cbn [Js.is_object negb andb ret].
    now rewrite Hr.
  - intros o Hr Ho Hopt Hacc.
    destruct (ExtractHighWaterMark_options o) as [Hh [Hok _]].
    specialize (Hok Hacc).
    destruct w as [p d rc wc n].
    cbn [Polyfill.this Polyfill.device_] in *.
    rewrite Hr, Ho. cbn [negb andb Polyfill.this]. rewrite Hopt.
    cbn [ret]. rewrite Hh, Hok.
    cbn -[highWaterMark_of]. repeat split.
  - intros o Hr Ho Hopt Hacc.
    destruct (ExtractHighWaterMark_options o) as [Hh [_ Hbad]].
    specialize (Hbad Hacc).
    destruct w as [p d rc wc n].
    cbn [Polyfill.this Polyfill.device_] in *.
    rewrite Hr, Ho. cbn [negb andb Polyfill.this]. rewrite Hopt.
    cbn [ret]. rewrite Hh, Hbad.
    reflexivity.
  - intros Hr Ho Hopt.
    destruct w as [p d rc wc n].
    cbn [Polyfill.this Polyfill.device_] in *.
    rewrite Hr, Ho. cbn [negb andb Polyfill.this]. rewrite Hopt.
    reflexivity.
Qed.

Lemma writable_getter_witness :
  fst (Polyfill.writable (opened_world [])) =
    Ok (Js.Object (built_writable example_port options_9600_8N1)) /\
  fst (Polyfill.writable untouched_world) = Ok Js.Unassigned /\
  fst (Polyfill.writable
         (then_world (Polyfill.open options_negative_buffer) untouched_world))
  = Throw StreamRangeError.
Proof.
  destruct (writable_getter (opened_world [])) as [_ [_ [_ [Hbuild _]]]].
  destruct (writable_getter untouched_world) as [_ [_ [Hnever _]]].
  destruct (writable_getter
              (then_world (Polyfill.open options_negative_buffer)
                 untouched_world)) as [_ [_ [_ [_ [Hrange _]]]]].
  split.
  - destruct (Hbuild options_9600_8N1 eq_refl eq_refl eq_refl) as [H _];
      [ | exact H].
    simpl. unfold Qle. simpl. lia.
  - split; [rewrite Hnever; reflexivity | ].
    rewrite (Hrange options_negative_buffer); try reflexivity.
    simpl. unfold Qle. simpl. lia.
Defined.

(* ------------------------------------------------------------------ *)
(** ** Steady-state reads and writes *)

(** X7: a successful inbound transfer that carries bytes hands exactly
    those bytes to the consumer as one chunk, however many were asked for,
    and neither signals an error nor runs the error callback; a successful
    transfer that carries no data object hands over nothing and changes
    nothing but the device's log. *)
Theorem successful_read_delivers
    (source : Polyfill.UsbEndpointUnderlyingSource) (w : Polyfill.World) :
  (forall bytes rest,
      Usb.script (Polyfill.device_ w) =
        Usb.Resolve {| Usb.status := Usb.status_ok;
                       Usb.data := Some bytes |} :: rest ->
      bytes <> [] ->
      Streams.rstate (Polyfill.readable_controller w) = Streams.Active ->
      let w' := snd (Polyfill.pull source w) in
      fst (Polyfill.pull source w) = Ok tt /\
      Streams.enqueued (Polyfill.readable_controller w') =
        Streams.enqueued (Polyfill.readable_controller w) ++ [bytes] /\
      Streams.rerrors (Polyfill.readable_controller w') =
        Streams.rerrors (Polyfill.readable_controller w) /\
      Streams.rstate (Polyfill.readable_controller w') = Streams.Active /\
      Polyfill.onError_runs w' = Polyfill.onError_runs w /\
      Polyfill.this w' = Polyfill.this w) /\
  ((Usb.script (Polyfill.device_ w) = [] \/
    exists rest,
      Usb.script (Polyfill.device_ w) =
        Usb.Resolve {| Usb.status := Usb.status_ok;
                       Usb.data := None |} :: rest) ->
   let w' := snd (Polyfill.pull source w) in
   fst (Polyfill.pull source w) = Ok tt /\
   Polyfill.readable_controller w' = Polyfill.readable_controller w /\
   Polyfill.onError_runs w' = Polyfill.onError_runs w /\
   Polyfill.this w' = Polyfill.this w).
Proof.
  split.
  - intros bytes rest Hscript Hbytes Hst. cbv zeta.
    unfold Polyfill.pull, bind, get, try_catch, Polyfill.on_device, Usb.invoke.
    rewrite Hscript. simpl.
    unfold Polyfill.on_readable_controller, Streams.enqueue. simpl.
    rewrite Hst. simpl.
    destruct bytes as [ | b bytes]; [contradiction | ]. simpl.
    repeat split.
  - intros Hscript. cbv zeta.
    unfold Polyfill.pull, bind, get, try_catch, Polyfill.on_device, Usb.invoke.
    destruct Hscript as [-> | [rest ->]]; simpl; repeat split.
Qed.

Lemma successful_read_delivers_witness :
  Streams.enqueued
    (Polyfill.readable_controller
       (snd (Polyfill.pull example_source
               (example_world
                  [Usb.Resolve {| Usb.status := Usb.status_ok;
                                  Usb.data := Some [104; 105] |}]
                  (Some (Js.of_Z 255)))))) = [[104; 105]].
Proof.
  destruct (successful_read_delivers example_source
              (example_world
                 [Usb.Resolve {| Usb.status := Usb.status_ok;
                                 Usb.data := Some [104; 105] |}]
                 (Some (Js.of_Z 255)))) as [Hdata _].
  destruct (Hdata [104; 105] []) as [_ [Hq _]].
  - reflexivity.
  - discriminate.
  - reflexivity.
  - exact Hq.
Defined.

(** X8: a successful inbound transfer of zero bytes errors a readable
    stream: the empty chunk is refused by [controller.enqueue], the
    TypeError is caught, passed to [controller.error], and the error
    callback runs once, so the port drops its cached stream. *)
Theorem empty_read_errors_stream
    (source : Polyfill.UsbEndpointUnderlyingSource) (w : Polyfill.World)
    (rest : list Usb.reply) :
  Usb.script (Polyfill.device_ w) =
    Usb.Resolve {| Usb.status := Usb.status_ok; Usb.data := Some [] |}
    :: rest ->
  Streams.rstate (Polyfill.readable_controller w) = Streams.Active ->
  let w' := snd (Polyfill.pull source w) in
  fst (Polyfill.pull source w) = Ok tt /\
  Streams.rstate (Polyfill.readable_controller w') = Streams.Errored /\
  Streams.rerrors (Polyfill.readable_controller w') =
    Streams.rerrors (Polyfill.readable_controller w)
    ++ [Streams.ErrorString StreamTypeError] /\
  Streams.enqueued (Polyfill.readable_controller w') =
    Streams.enqueued (Polyfill.readable_controller w) /\
  Polyfill.onError_runs w' = S (Polyfill.onError_runs w) /\
  (Polyfill.source_onError_ source = Polyfill.InvalidateReadable ->
   Polyfill.readable_ (Polyfill.this w') = Js.Null).
Proof.
  intros Hscript Hst. cbv zeta.
  unfold Polyfill.pull, bind, get, try_catch, Polyfill.on_device, Usb.invoke.
  rewrite Hscript. simpl.
  unfold Polyfill.on_readable_controller, Streams.enqueue. simpl.
  rewrite Hst. simpl.
  destruct (Polyfill.source_onError_ source); simpl;
    rewrite ?Hst; simpl; repeat split; congruence.
Qed.

Lemma empty_read_errors_stream_witness :
  Streams.rstate
    (Polyfill.readable_controller
       (snd (Polyfill.pull example_source
               (example_world
                  [Usb.Resolve {| Usb.status := Usb.status_ok;
                                  Usb.data := Some [] |}]
                  (Some (Js.of_Z 255)))))) = Streams.Errored.
Proof.
  destruct (empty_read_errors_stream example_source
              (example_world
                 [Usb.Resolve {| Usb.status := Usb.status_ok;
                                 Usb.data := Some [] |}]
                 (Some (Js.of_Z 255))) []) as [_ [H _]].
  - reflexivity.
  - reflexivity.
  - exact H.
Defined.

(** X9: [UsbEndpointUnderlyingSink.write] never throws.  When the outbound
    transfer completes with status 'ok' it leaves the controller, the
    port and the error count as they were.  When the transfer is rejected
    or completes with another status, it passes the status or the error
    text to [controller.error] (which errors a writable stream) and runs
    the error callback once: the port drops its cached writable stream
    and keeps its readable stream.  In every case the readable controller
    is untouched and the device stays as open, with the same claimed
    interfaces, as it was. *)
Theorem sink_write_outcomes (sink : Polyfill.UsbEndpointUnderlyingSink)
    (c : Usb.chunk) (w : Polyfill.World) :
  let w' := snd (Polyfill.write sink c w) in
  fst (Polyfill.write sink c w) = Ok tt /\
  Polyfill.readable_controller w' = Polyfill.readable_controller w /\
  Usb.opened (Polyfill.device_ w') = Usb.opened (Polyfill.device_ w) /\
  Usb.claimed (Polyfill.device_ w') = Usb.claimed (Polyfill.device_ w) /\
  ((Usb.script (Polyfill.device_ w) = [] \/
    exists r rest,
      Usb.script (Polyfill.device_ w) = r :: rest /\ ok_reply r) ->
   Polyfill.writable_controller w' = Polyfill.writable_controller w /\
   Polyfill.this w' = Polyfill.this w /\
   Polyfill.onError_runs w' = Polyfill.onError_runs w) /\
  (forall r rest,
      Usb.script (Polyfill.device_ w) = r :: rest -> failed_reply r ->
      Streams.werrors (Polyfill.writable_controller w') =
        Streams.werrors (Polyfill.writable_controller w)
        ++ [write_failure_reason r] /\
      (Streams.wstate (Polyfill.writable_controller w) = Streams.Active ->
       Streams.wstate (Polyfill.writable_controller w') = Streams.Errored) /\
      Polyfill.onError_runs w' = S (Polyfill.onError_runs w) /\
      (Polyfill.sink_onError_ sink = Polyfill.InvalidateWritable ->
       Polyfill.writable_ (Polyfill.this w') = Js.Null /\
       Polyfill.readable_ (Polyfill.this w') =
         Polyfill.readable_ (Polyfill.this w))).
Proof.
  cbv zeta.
  unfold Polyfill.write, bind, try_catch, Polyfill.on_device, Usb.invoke.
  destruct w as [p d rc wc n].
  destruct d as [cfgs cfg op cl vid pid lg sc].
  destruct sc as [ | [[st dat] | name] sc];
    [ | destruct st | ];
    destruct (Polyfill.sink_onError_ sink) eqn:Ecb;
    cbn -[app];
    (split; [reflexivity | ]); (split; [reflexivity | ]);
    (split; [reflexivity | ]); (split; [reflexivity | ]);
    (split;
     [ intros [H | [r [rest [H Hok]]]];
       [ try discriminate H; repeat split
       | try (injection H as <- <-; simpl in Hok;
              first [contradiction | discriminate Hok]);
         repeat split ]
     | intros r rest H Hf; try discriminate H;
       injection H as <- <-; simpl in Hf |- *;
       try congruence;
       destruct (Streams.wstate wc);
       (split; [reflexivity | ]);
       (split; [intros Hw; first [reflexivity | discriminate Hw] | ]);
       (split; [reflexivity | ]);
       intros Hcb; first [discriminate Hcb | split; reflexivity] ]).
Qed.

Lemma sink_write_outcomes_witness :
  let w := then_world Polyfill.writable (opened_world []) in
  let w' :=
    snd (Polyfill.write (Polyfill.underlyingSink
              (built_writable example_port options_9600_8N1))
           (Usb.Uint8Array [1; 2; 3]) w) in
  Polyfill.this w' = Polyfill.this w.
Proof.
  cbv zeta.
  destruct (sink_write_outcomes
              (Polyfill.underlyingSink
                 (built_writable example_port options_9600_8N1))
              (Usb.Uint8Array [1; 2; 3])
              (then_world Polyfill.writable (opened_world [])))
    as [_ [_ [_ [_ [Hok _]]]]].
  destruct Hok as [_ [H _]]; [now left | exact H].
Defined.

Lemma failed_pull_invalidates
    (source : Polyfill.UsbEndpointUnderlyingSource) (w : Polyfill.World)
    (r : Usb.reply) (rest : list Usb.reply) :
  Usb.script (Polyfill.device_ w) = r :: rest ->
  failed_reply r ->
  Polyfill.source_onError_ source = Polyfill.InvalidateReadable ->
  let w1 := snd (Polyfill.pull source w) in
  Polyfill.this w1 = Polyfill.set_readable Js.Null (Polyfill.this w) /\
  Usb.opened (Polyfill.device_ w1) = Usb.opened (Polyfill.device_ w) /\
  Polyfill.writable_controller w1 = Polyfill.writable_controller w.
Proof.
  intros Hscript Hfail Hcb. cbv zeta.
  destruct w as [p d rc wc n].
  destruct d as [cfgs cfg op cl vid pid lg sc].
  simpl in Hscript. subst sc.
  unfold Polyfill.pull, bind, get, try_catch, Polyfill.on_device, Usb.invoke.
  cbn [Polyfill.device_ Usb.script].
  rewrite Hcb.
  destruct r as [[st dat] | name]; simpl in Hfail.
  - destruct st; try contradiction;
      destruct (Streams.rstate rc) eqn:Est;
      destruct dat as [bytes | ]; simpl;
      unfold Polyfill.on_readable_controller, Streams.enqueue; simpl;
      rewrite ?Est; simpl; repeat split.
  - simpl. repeat split.
Qed.

(** X10: a failed inbound transfer on the stream the port handed out
    leaves the port with no readable stream (null).  The next access to
    [readable], with the device still open, builds a new stream over the
    same IN endpoint with a fresh controller (readable, nothing enqueued,
    no error) when the high-water mark of the options is acceptable to
    the stream constructor; when it is NaN or negative the access throws
    the RangeError and the port stays without a readable stream.  In both
    cases the cached writable stream and its controller are as before: a
    read failure invalidates the read direction only. *)
Theorem readable_rebuilt_after_error
    (source : Polyfill.UsbEndpointUnderlyingSource) (w : Polyfill.World)
    (r : Usb.reply) (rest : list Usb.reply) (o : Polyfill.SerialOptions) :
  Usb.script (Polyfill.device_ w) = r :: rest ->
  failed_reply r ->
  Polyfill.source_onError_ source = Polyfill.InvalidateReadable ->
  Usb.opened (Polyfill.device_ w) = true ->
  Polyfill.serialOptions_ (Polyfill.this w) = Some o ->
  let w1 := snd (Polyfill.pull source w) in
  let w2 := snd (Polyfill.readable w1) in
  Polyfill.readable_ (Polyfill.this w1) = Js.Null /\
  (acceptable_highWaterMark (highWaterMark_of o) ->
   fst (Polyfill.readable w1) =
     Ok (Js.Object (built_readable (Polyfill.this w) o)) /\
   Polyfill.readable_ (Polyfill.this w2) =
     Js.Object (built_readable (Polyfill.this w) o) /\
   Polyfill.readable_controller w2 =
     Polyfill.fresh_readable_controller (highWaterMark_of o)) /\
  (~ acceptable_highWaterMark (highWaterMark_of o) ->
   Polyfill.readable w1 = (Throw StreamRangeError, w1)) /\
  Polyfill.writable_ (Polyfill.this w2) = Polyfill.writable_ (Polyfill.this w) /\
  Polyfill.writable_controller w2 = Polyfill.writable_controller w.
Proof.
  intros Hscript Hfail Hcb Hopen Hopt. cbv zeta.
  destruct (failed_pull_invalidates source w r rest Hscript Hfail Hcb)
    as [Hthis [Hop Hwc]].
  cbv zeta in Hthis, Hop, Hwc.
  set (w1 := snd (Polyfill.pull source w)) in *.
  assert (Hr1 : Js.is_object (Polyfill.readable_ (Polyfill.this w1)) = false)
    by (rewrite Hthis; reflexivity).
  assert (Ho1 : Usb.opened (Polyfill.device_ w1) = true) by congruence.
  assert (Hopt1 : Polyfill.serialOptions_ (Polyfill.this w1) = Some o)
    by (rewrite Hthis; exact Hopt).
  destruct (readable_builds w1 o Hr1 Ho1 Hopt1) as [Hbuild Hrefuse].
  assert (Hsame : built_readable (Polyfill.this w1) o =
                  built_readable (Polyfill.this w) o)
    by (rewrite Hthis; reflexivity).
  split; [rewrite Hthis; reflexivity | ].
  split; [ | split].
  - intros Hacc. rewrite (Hbuild Hacc), Hsame. repeat split.
  - exact Hrefuse.
  - destruct (acceptable_highWaterMark_dec (highWaterMark_of o)) as [Hacc | Hacc].
    + rewrite (Hbuild Hacc). cbn [snd Polyfill.this Polyfill.writable_controller].
      rewrite Hthis. split; [reflexivity | exact Hwc].
    + rewrite (Hrefuse Hacc). cbn [snd]. rewrite Hthis.
      split; [reflexivity | exact Hwc].
Qed.

Lemma readable_rebuilt_after_error_witness :
  let w := then_world Polyfill.readable
             (then_world (Polyfill.open options_9600_8N1)
                (example_world
                   [ Usb.Resolve Usb.resolved_ok; Usb.Resolve Usb.resolved_ok;
                     Usb.Resolve Usb.resolved_ok; Usb.Resolve Usb.resolved_ok;
                     Usb.Resolve Usb.resolved_ok; Usb.Reject "NetworkError" ]
                   None)) in
  fst (Polyfill.readable (snd (Polyfill.pull example_source w))) =
  Ok (Js.Object (built_readable (Polyfill.this w) options_9600_8N1)).
Proof.
  cbv zeta.
  destruct (readable_rebuilt_after_error example_source
              (then_world Polyfill.readable
                 (then_world (Polyfill.open options_9600_8N1)
                    (example_world
                       [ Usb.Resolve Usb.resolved_ok; Usb.Resolve Usb.resolved_ok;
                         Usb.Resolve Usb.resolved_ok; Usb.Resolve Usb.resolved_ok;
                         Usb.Resolve Usb.resolved_ok; Usb.Reject "NetworkError" ]
                       None)))
              (Usb.Reject "NetworkError") [] options_9600_8N1)
    as [_ [H _]].
  - reflexivity.
  - exact Logic.I.
  - reflexivity.
  - reflexivity.
  - reflexivity.
  - destruct H as [H _]; [ | exact H].
    simpl. unfold Qle. simpl. lia.
Defined.

(* ------------------------------------------------------------------ *)
(** ** More on control signals *)

Lemma new_calls_none {A : Type} (m : M Polyfill.World A) (w : Polyfill.World) :
  Usb.log (Polyfill.device_ (snd (m w))) = Usb.log (Polyfill.device_ w) ->
  new_calls m w = [].
Proof.
  intros H. unfold new_calls. rewrite H.
  rewrite <- (app_nil_r (Usb.log (Polyfill.device_ w))) at 2.
  apply skipn_length_app.
Qed.

Lemma new_calls_some {A : Type} (m : M Polyfill.World A) (w : Polyfill.World)
    (calls : list Usb.call) :
  Usb.log (Polyfill.device_ (snd (m w))) =
    Usb.log (Polyfill.device_ w) ++ calls ->
  new_calls m w = calls.
Proof. intros H. unfold new_calls. rewrite H. apply skipn_length_app. Qed.

(** X11: a [setSignals] call that provides neither dataTerminalReady nor
    requestToSend makes no Set Control Line State transfer.  If it
    provides nothing at all it makes no device call and fulfils; if it
    provides [break] it makes exactly one Send Break (0x23) control
    transfer on the control interface, with value 0xFFFF to assert the
    break and 0x0000 to release it. *)
Theorem setSignals_break_only (w : Polyfill.World)
    (s : Polyfill.SerialOutputSignals) :
  Polyfill.provided (Polyfill.dataTerminalReady s) = false ->
  Polyfill.provided (Polyfill.requestToSend s) = false ->
  let index :=
    Usb.interfaceNumber (Polyfill.controlInterface_ (Polyfill.this w)) in
  count_request Polyfill.kSetControlLineState
    (new_calls (Polyfill.setSignals s) w) = 0%nat /\
  (Polyfill.provided (Polyfill.break s) = false ->
   new_calls (Polyfill.setSignals s) w = [] /\
   fst (Polyfill.setSignals s w) = Ok tt /\
   Polyfill.device_ (snd (Polyfill.setSignals s w)) = Polyfill.device_ w) /\
  (forall b,
      Polyfill.break s = Js.Val b ->
      new_calls (Polyfill.setSignals s) w =
      [Usb.ControlTransferOut Polyfill.kSendBreak
         (if b then 0xFFFF else 0x0000) index None]).
Proof.
  intros Hd Hr. cbv zeta.
  assert (Hcalls :
    new_calls (Polyfill.setSignals s) w =
    match Polyfill.break s with
    | Js.Val b =>
        [Usb.ControlTransferOut Polyfill.kSendBreak
           (if b then 0xFFFF else 0x0000)
           (Usb.interfaceNumber (Polyfill.controlInterface_ (Polyfill.this w)))
           None]
    | _ => []
    end /\
    (Polyfill.provided (Polyfill.break s) = false ->
     Polyfill.setSignals s w =
     (Ok tt,
      with_this
        (Polyfill.set_outputSignals
           (Polyfill.merge_signals (Polyfill.outputSignals_ (Polyfill.this w)) s)
           (Polyfill.this w)) w))).
  { destruct w as [p d rc wc n].
    destruct d as [cfgs cfg op cl vid pid lg sc].
    destruct s as [dtr rts brk].
    unfold Polyfill.setSignals, bind, get, Polyfill.on_this, modify,
      Polyfill.on_device, Usb.invoke, when_, ret.
    destruct dtr as [ | | dtr]; try discriminate Hd;
      destruct rts as [ | | rts]; try discriminate Hr;
      destruct brk as [ | | [ | ]];
      (split;
       [ first [ apply new_calls_none; reflexivity
               | apply new_calls_some;
                 destruct sc as [ | [r1 | n1] sc]; reflexivity ]
       | intros H; first [discriminate H | reflexivity] ]). }
  destruct Hcalls as [Hcalls Hnone]. rewrite Hcalls.
  split; [destruct (Polyfill.break s) as [ | | []]; reflexivity | ].
  split.
  - intros H. rewrite (Hnone H). simpl.
    destruct (Polyfill.break s); try discriminate H; repeat split.
  - intros b ->. reflexivity.
Qed.

Lemma setSignals_break_only_witness :
  new_calls
    (Polyfill.setSignals (signals Js.Absent Js.Absent (Js.Val true)))
    (example_world [] None) =
  [Usb.ControlTransferOut 0x23 0xFFFF 0 None].
Proof.
  destruct (setSignals_break_only (example_world [] None)
              (signals Js.Absent Js.Absent (Js.Val true)))
    as [_ [_ H]].
  - reflexivity.
  - reflexivity.
  - apply (H true). reflexivity.
Defined.

Lemma setSignals_stores (w : Polyfill.World)
    (s : Polyfill.SerialOutputSignals) :
  Polyfill.outputSignals_ (Polyfill.this (snd (Polyfill.setSignals s w))) =
  Polyfill.merge_signals (Polyfill.outputSignals_ (Polyfill.this w)) s.
Proof.
  destruct w as [p d rc wc n].
  destruct d as [cfgs cfg op cl vid pid lg sc].
  destruct s as [dtr rts brk].
  unfold Polyfill.setSignals, bind, get, Polyfill.on_this, modify,
    Polyfill.on_device, Usb.invoke, when_, ret.
  destruct dtr as [ | | dtr]; destruct rts as [ | | rts];
    destruct brk as [ | | brk];
    destruct sc as [ | [r1 | n1] [ | [r2 | n2] sc]];
    reflexivity.
Qed.

(** X12: [setSignals] stores the new signal state before it talks to the
    device, so the port remembers the requested state whatever the host
    replies: each of the three signals is then what the call gives for
    it (off for a property that holds undefined) and, when the call does
    not have the property, what the port remembered before.  When the
    Set Control Line State transfer is rejected, [setSignals] rejects
    with that error and the Send Break transfer is not made, even if
    [break] was provided, yet the new state, including that break state,
    stays remembered. *)
Theorem setSignals_remembers_before_transfer (w : Polyfill.World)
    (s : Polyfill.SerialOutputSignals) :
  let remembered := Polyfill.outputSignals_ (Polyfill.this w) in
  let after :=
    Polyfill.outputSignals_ (Polyfill.this (snd (Polyfill.setSignals s w))) in
  Polyfill.on_ (Polyfill.dataTerminalReady after) =
    signal_after (Polyfill.dataTerminalReady remembered)
      (Polyfill.dataTerminalReady s) /\
  Polyfill.on_ (Polyfill.requestToSend after) =
    signal_after (Polyfill.requestToSend remembered)
      (Polyfill.requestToSend s) /\
  Polyfill.on_ (Polyfill.break after) =
    signal_after (Polyfill.break remembered) (Polyfill.break s) /\
  (forall name rest,
      Polyfill.provided (Polyfill.dataTerminalReady s)
      || Polyfill.provided (Polyfill.requestToSend s) = true ->
      Usb.script (Polyfill.device_ w) = Usb.Reject name :: rest ->
      fst (Polyfill.setSignals s w) = Throw (HostError name) /\
      count_request Polyfill.kSendBreak
        (new_calls (Polyfill.setSignals s) w) = 0%nat /\
      length (new_calls (Polyfill.setSignals s) w) = 1%nat).
Proof.
  cbv zeta. rewrite setSignals_stores. unfold Polyfill.merge_signals.
  cbn [Polyfill.dataTerminalReady Polyfill.requestToSend Polyfill.break].
  rewrite !spread_signal.
  split; [reflexivity | ]. split; [reflexivity | ]. split; [reflexivity | ].
  destruct w as [p d rc wc n].
  destruct d as [cfgs cfg op cl vid pid lg sc].
  destruct s as [dtr rts brk].
  intros name rest Hprov Hsc. simpl in Hsc. subst sc.
  unfold new_calls, Polyfill.setSignals, bind, get, Polyfill.on_this, modify,
    Polyfill.on_device, Usb.invoke, when_, ret.
  destruct dtr as [ | | dtr]; destruct rts as [ | | rts];
    try discriminate Hprov;
    destruct brk as [ | | brk];
    cbn -[Z.lor Polyfill.merge_signals Polyfill.on_];
    rewrite skipn_length_app; repeat split.
Qed.

Lemma setSignals_remembers_before_transfer_witness :
  fst (Polyfill.setSignals (signals (Js.Val true) Js.Absent (Js.Val true))
         (example_world [Usb.Reject "NetworkError"] None)) =
    Throw (HostError "NetworkError") /\
  Polyfill.on_
    (Polyfill.break
       (Polyfill.outputSignals_
          (Polyfill.this
             (snd (Polyfill.setSignals
                     (signals (Js.Val true) Js.Absent (Js.Val true))
                     (example_world [Usb.Reject "NetworkError"] None)))))) =
    true.
Proof.
  destruct (setSignals_remembers_before_transfer
              (example_world [Usb.Reject "NetworkError"] None)
              (signals (Js.Val true) Js.Absent (Js.Val true)))
    as [_ [_ [Hbreak Hrej]]].
  destruct (Hrej "NetworkError"%string [] eq_refl eq_refl) as [Hres _].
  split; [exact Hres | exact Hbreak].
Defined.

(* ------------------------------------------------------------------ *)
(** ** Runs that reach their end *)

Lemma bind_ok {S A B : Type} (m : M S A) (k : A -> M S B) (s s' : S) (b : B) :
  bind m k s = (Ok b, s') ->
  exists a s1, m s = (Ok a, s1) /\ k a s1 = (Ok b, s').
Proof.
  unfold bind. destruct (m s) as [[a | e] s1]; intros H.
  - now exists a, s1.
  - discriminate H.
Qed.

Lemma invoke_ok (c : Usb.call) (d d' : Usb.USBDevice)
    (r : Usb.USBTransferResult) :
  Usb.invoke c d = (Ok r, d') ->
  d' = accept_call c d /\
  ((Usb.script d = [] /\ r = Usb.resolved_ok) \/
   exists rest, Usb.script d = Usb.Resolve r :: rest).
Proof.
  unfold Usb.invoke, accept_call.
  destruct (Usb.script d) as [ | [r' | name] rest]; intros H;
    try discriminate H; injection H as <- <-.
  - split; [reflexivity | now left].
  - split; [reflexivity | right; now exists rest].
Qed.

Lemma on_device_invoke_ok (c : Usb.call) (w w' : Polyfill.World)
    (r : Usb.USBTransferResult) :
  Polyfill.on_device (Usb.invoke c) w = (Ok r, w') ->
  w' = with_device (accept_call c (Polyfill.device_ w)) w /\
  ((Usb.script (Polyfill.device_ w) = [] /\ r = Usb.resolved_ok) \/
   exists rest, Usb.script (Polyfill.device_ w) = Usb.Resolve r :: rest).
Proof.
  unfold Polyfill.on_device.
  destruct (Usb.invoke c (Polyfill.device_ w)) as [res d'] eqn:E.
  intros H. injection H as -> <-.
  destruct (invoke_ok _ _ _ _ E) as [-> Hs].
  split; [reflexivity | exact Hs].
Qed.

Lemma accept_app (a b : list Usb.call) (d : Usb.USBDevice) :
  accept (a ++ b) d = accept b (accept a d).
Proof. unfold accept. apply fold_left_app. Qed.

Lemma accept_call_log (c : Usb.call) (d : Usb.USBDevice) :
  Usb.log (accept_call c d) = Usb.log d ++ [c].
Proof. unfold accept_call. destruct c; reflexivity. Qed.

Lemma accept_log (calls : list Usb.call) (d : Usb.USBDevice) :
  Usb.log (accept calls d) = Usb.log d ++ calls.
Proof.
  revert d. induction calls as [ | c calls IH]; intros d; simpl.
  - now rewrite app_nil_r.
  - unfold accept in IH |- *. simpl. rewrite IH, accept_call_log.
    now rewrite <- app_assoc.
Qed.

Lemma setLineCoding_ok (w w' : Polyfill.World) :
  Polyfill.setLineCoding w = (Ok tt, w') ->
  exists o payload,
    Polyfill.serialOptions_ (Polyfill.this w) = Some o /\
    Polyfill.lineCodingBuffer o = Ok payload /\
    w' = with_device
           (accept_call
              (Usb.ControlTransferOut Polyfill.kSetLineCoding 0
                 (Usb.interfaceNumber
                    (Polyfill.controlInterface_ (Polyfill.this w)))
                 (Some payload))
              (Polyfill.device_ w)) w.
Proof.
  unfold Polyfill.setLineCoding, Polyfill.the_options. intros H.
  apply bind_ok in H. destruct H as [o [w1 [Ho H]]].
  unfold bind, get in Ho.
  destruct (Polyfill.serialOptions_ (Polyfill.this w)) as [o' | ] eqn:Eo;
    [ | discriminate Ho].
  injection Ho as <- <-.
  apply bind_ok in H. destruct H as [payload [w2 [Hp H]]].
  unfold Polyfill.lift_result in Hp.
  destruct (Polyfill.lineCodingBuffer o') as [pl | e] eqn:Ebuf;
    [ | discriminate Hp].
  injection Hp as <- <-.
  apply bind_ok in H. destruct H as [w3 [w4 [Hg H]]].
  injection Hg as <- <-.
  apply bind_ok in H. destruct H as [r [w5 [Hi H]]].
  apply on_device_invoke_ok in Hi. destruct Hi as [-> _].
  destruct (negb (Usb.is_ok (Usb.status r))); [discriminate H | ].
  injection H as <-.
  exists o', pl. split; [reflexivity | ]. split; [exact Ebuf | reflexivity].
Qed.

Lemma setSignals_ok (s : Polyfill.SerialOutputSignals) (w w' : Polyfill.World) :
  Polyfill.setSignals s w = (Ok tt, w') ->
  let merged :=
    Polyfill.merge_signals (Polyfill.outputSignals_ (Polyfill.this w)) s in
  w' = with_device
         (accept
            (signal_calls (Polyfill.outputSignals_ (Polyfill.this w)) s
               (Usb.interfaceNumber
                  (Polyfill.controlInterface_ (Polyfill.this w))))
            (Polyfill.device_ w))
         (with_this (Polyfill.set_outputSignals merged (Polyfill.this w)) w).
Proof.
  destruct w as [p d rc wc n].
  destruct d as [cfgs cfg op cl vid pid lg sc].
  destruct s as [dtr rts brk].
  cbv zeta.
  unfold Polyfill.setSignals, signal_calls, bind, get, Polyfill.on_this, modify,
    Polyfill.on_device, Usb.invoke, when_, ret.
  destruct dtr as [ | | dtr]; destruct rts as [ | | rts];
    destruct brk as [ | | brk];
    destruct sc as [ | [r1 | n1] [ | [r2 | n2] sc]];
    cbn -[Z.lor Polyfill.merge_signals Polyfill.on_];
    intros H; try discriminate H; injection H as <-; reflexivity.
Qed.

Lemma when_ok (b : bool) (m : M Polyfill.World unit) (w w' : Polyfill.World) :
  when_ b m w = (Ok tt, w') ->
  (b = true /\ m w = (Ok tt, w')) \/ (b = false /\ w' = w).
Proof.
  destruct b; simpl; intros H.
  - left. now split.
  - right. injection H as <-. now split.
Qed.

Lemma invoke_unit_ok (c : Usb.call) (w w' : Polyfill.World) :
  bind (Polyfill.on_device (Usb.invoke c)) (fun _ => ret tt) w = (Ok tt, w') ->
  w' = with_device (accept_call c (Polyfill.device_ w)) w.
Proof.
  intros H. apply bind_ok in H. destruct H as [r [w1 [Hi H]]].
  apply on_device_invoke_ok in Hi. destruct Hi as [-> _].
  now injection H as <-.
Qed.

Lemma open_sequence_ok (w w2 : Polyfill.World) :
  Polyfill.open_sequence w = (Ok tt, w2) ->
  exists o payload,
    Polyfill.serialOptions_ (Polyfill.this w) = Some o /\
    Polyfill.lineCodingBuffer o = Ok payload /\
    w2 = with_device
           (accept (open_trace w payload) (Polyfill.device_ w))
           (with_this
              (Polyfill.set_outputSignals
                 (Polyfill.merge_signals
                    (Polyfill.outputSignals_ (Polyfill.this w))
                    (signals (Js.Val true) Js.Absent Js.Absent))
                 (Polyfill.this w)) w).
Proof.
  unfold Polyfill.open_sequence. intros H.
  apply bind_ok in H. destruct H as [r1 [wa [H1 H]]].
  apply on_device_invoke_ok in H1. destruct H1 as [-> _].
  apply bind_ok in H. destruct H as [wg [wb [Hg H]]].
  injection Hg as <- <-.
  apply bind_ok in H. destruct H as [[] [wc [Hsel H]]].
  apply bind_ok in H. destruct H as [r2 [wd [Hc1 H]]].
  apply on_device_invoke_ok in Hc1. destruct Hc1 as [-> _].
  apply bind_ok in H. destruct H as [[] [we [Hc2 H]]].
  apply bind_ok in H. destruct H as [[] [wf [Hlc H]]].
  apply setLineCoding_ok in Hlc.
  destruct Hlc as [o [payload [Ho [Hp ->]]]].
  apply setSignals_ok in H. cbv zeta in H.
  apply when_ok in Hsel. apply when_ok in Hc2.
  exists o, payload.
  destruct w as [p d rc wc0 n].
  unfold open_trace.
  cbn [Polyfill.this Polyfill.device_ with_device Usb.configuration accept_call
       Usb.effect Usb.record_call Usb.set_opened] in *.
  destruct Hsel as [[Hnull Hsel] | [Hnull ->]];
    [ apply invoke_unit_ok in Hsel; subst wc | ];
    rewrite Hnull;
    (destruct Hc2 as [[Hsame Hc2] | [Hsame ->]];
     [ apply invoke_unit_ok in Hc2; subst we;
       apply negb_true_iff in Hsame
     | apply negb_false_iff in Hsame ]);
    rewrite Hsame;
    cbn [Polyfill.this Polyfill.device_ with_device] in *;
    (split; [exact Ho | ]); (split; [exact Hp | ]);
    subst w2; reflexivity.
Qed.

Lemma open_trace_effects (w : Polyfill.World) (payload : DataView.ArrayBuffer) :
  let d := accept (open_trace w payload) (Polyfill.device_ w) in
  let control :=
    Usb.interfaceNumber (Polyfill.controlInterface_ (Polyfill.this w)) in
  let transfer :=
    Usb.interfaceNumber (Polyfill.transferInterface_ (Polyfill.this w)) in
  Usb.opened d = true /\
  In control (Usb.claimed d) /\
  In transfer (Usb.claimed d) /\
  (forall n, In n (Usb.claimed (Polyfill.device_ w)) -> In n (Usb.claimed d)) /\
  count_request Polyfill.kSetLineCoding (open_trace w payload) = 1%nat /\
  count_request Polyfill.kSetControlLineState (open_trace w payload) = 1%nat /\
  existsb is_close (open_trace w payload) = false.
Proof.
  cbv zeta. unfold open_trace, Polyfill.same_interface.
  destruct (Polyfill.is_null (Usb.configuration (Polyfill.device_ w)));
    destruct (Usb.interfaceNumber (Polyfill.controlInterface_ (Polyfill.this w))
              =? Usb.interfaceNumber
                   (Polyfill.transferInterface_ (Polyfill.this w))) eqn:Es;
    try (apply Z.eqb_eq in Es; rewrite <- Es);
    cbn -[Z.lor]; repeat split; auto.
Qed.

(** X13: when [open] fulfils, validation passed; the device calls made are
    exactly: open, selectConfiguration(1) if and only if no configuration
    was active, claimInterface on the control interface, claimInterface on
    the transfer interface if and only if it is another interface, Set
    Line Coding with the 7-byte payload of the options, and Set Control
    Line State with DTR set (and RTS as remembered); [close] is never
    called.  The device ends open with both interfaces claimed, and the
    port remembers the options and DTR on. *)
Theorem open_fulfilled (o : Polyfill.SerialOptions) (w : Polyfill.World) :
  fst (Polyfill.open o w) = Ok tt ->
  let w' := snd (Polyfill.open o w) in
  let control :=
    Usb.interfaceNumber (Polyfill.controlInterface_ (Polyfill.this w)) in
  let transfer :=
    Usb.interfaceNumber (Polyfill.transferInterface_ (Polyfill.this w)) in
  fst (Polyfill.validateOptions (with_options o w)) = Ok tt /\
  (exists payload,
      Polyfill.lineCodingBuffer o = Ok payload /\
      new_calls (Polyfill.open o) w = open_trace w payload /\
      existsb is_close (open_trace w payload) = false) /\
  Usb.opened (Polyfill.device_ w') = true /\
  In control (Usb.claimed (Polyfill.device_ w')) /\
  In transfer (Usb.claimed (Polyfill.device_ w')) /\
  Polyfill.on_ (Polyfill.dataTerminalReady
                  (Polyfill.outputSignals_ (Polyfill.this w'))) = true /\
  Polyfill.serialOptions_ (Polyfill.this w') = Some o.
Proof.
  intros H. cbv zeta. unfold new_calls.
  rewrite open_unfold in *.
  destruct (fst (Polyfill.validateOptions (with_options o w))) as [[] | e];
    [ | discriminate H].
  split; [reflexivity | ].
  destruct (Polyfill.open_sequence (with_options o w)) as [[[] | e] w2] eqn:E.
  - apply open_sequence_ok in E.
    destruct E as [o' [payload [Ho [Hp ->]]]].
    simpl in Ho. injection Ho as <-.
    pose proof (open_trace_effects (with_options o w) payload) as Heff.
    cbv zeta in Heff.
    destruct Heff as [Hopen [Hc [Ht [_ [_ [_ Hclose]]]]]].
    change (open_trace (with_options o w) payload)
      with (open_trace w payload) in *.
    change (Polyfill.device_ (with_options o w))
      with (Polyfill.device_ w) in *.
    cbn [snd with_device Polyfill.device_ Polyfill.this with_this].
    split.
    { exists payload. split; [exact Hp | ].
      rewrite accept_log, skipn_length_app. split; [reflexivity | exact Hclose]. }
    split; [exact Hopen | ]. split; [exact Hc | ]. split; [exact Ht | ].
    split; reflexivity.
  - exfalso. destruct (open_handler e w2) as [_ [_ [Hh | [name Hh]]]];
      cbv zeta in Hh; rewrite Hh in H; discriminate H.
Qed.

Lemma open_fulfilled_witness :
  new_calls (Polyfill.open options_9600_8N1) (example_world [] None) =
    open_trace (example_world [] None) [0x80; 0x25; 0; 0; 0; 0; 8] /\
  Usb.claimed
    (Polyfill.device_
       (snd (Polyfill.open options_9600_8N1 (example_world [] None)))) =
    [1; 0].
Proof.
  destruct (open_fulfilled options_9600_8N1 (example_world [] None) eq_refl)
    as [_ [[payload [Hp [Hcalls _]]] _]].
  split; [ | reflexivity].
  rewrite Hcalls. vm_compute in Hp. injection Hp as <-. reflexivity.
Defined.

(* ------------------------------------------------------------------ *)
(** ** Runs that stop on an error *)

Lemma bind_throw {S A B : Type} (m : M S A) (k : A -> M S B) (s s' : S)
    (e : exn) :
  bind m k s = (Throw e, s') ->
  m s = (Throw e, s') \/
  exists a s1, m s = (Ok a, s1) /\ k a s1 = (Throw e, s').
Proof.
  unfold bind. destruct (m s) as [[a | e'] s1]; intros H.
  - right. now exists a, s1.
  - left. injection H as <- <-. reflexivity.
Qed.

Lemma on_device_invoke_throw (c : Usb.call) (w w' : Polyfill.World) (e : exn) :
  Polyfill.on_device (Usb.invoke c) w = (Throw e, w') ->
  exists name rest,
    Usb.script (Polyfill.device_ w) = Usb.Reject name :: rest /\
    e = HostError name /\
    w' = with_device (Usb.record_call c (Polyfill.device_ w)) w.
Proof.
  unfold Polyfill.on_device, Usb.invoke.
  destruct (Usb.script (Polyfill.device_ w)) as [ | [r | name] rest];
    intros H; try discriminate H.
  injection H as <- <-. now exists name, rest.
Qed.

Lemma all_ok_accept_call (c : Usb.call) (d : Usb.USBDevice) :
  all_ok (Usb.script d) = true ->
  all_ok (Usb.script (accept_call c d)) = true.
Proof.
  unfold accept_call. intros H.
  assert (Ht : Usb.script (Usb.effect c (Usb.record_call c d)) =
               tl (Usb.script d)) by (destruct c; reflexivity).
  rewrite Ht. destruct (Usb.script d) as [ | r rest]; [reflexivity | ].
  simpl in H |- *. now apply andb_prop in H.
Qed.

Lemma all_ok_no_reject (d : Usb.USBDevice) (name : string)
    (rest : list Usb.reply) :
  Usb.script d = Usb.Reject name :: rest -> all_ok (Usb.script d) = false.
Proof. intros ->. reflexivity. Qed.

Lemma all_ok_status (d : Usb.USBDevice) (r : Usb.USBTransferResult) :
  all_ok (Usb.script d) = true ->
  (Usb.script d = [] /\ r = Usb.resolved_ok) \/
  (exists rest, Usb.script d = Usb.Resolve r :: rest) ->
  Usb.is_ok (Usb.status r) = true.
Proof.
  intros H [[_ ->] | [rest Hs]]; [reflexivity | ].
  rewrite Hs in H. simpl in H. now apply andb_prop in H.
Qed.

Lemma invoke_unit_throw (c : Usb.call) (w w' : Polyfill.World) (e : exn) :
  bind (Polyfill.on_device (Usb.invoke c)) (fun _ => ret tt) w = (Throw e, w') ->
  (exists name, e = HostError name) /\
  all_ok (Usb.script (Polyfill.device_ w)) = false.
Proof.
  intros H. apply bind_throw in H.
  destruct H as [H | [a [s1 [_ H]]]]; [ | discriminate H].
  apply on_device_invoke_throw in H.
  destruct H as [name [rest [Hs [-> _]]]].
  split; [now exists name | now apply (all_ok_no_reject _ name rest)].
Qed.

Lemma lineCodingBuffer_ok (o : Polyfill.SerialOptions) :
  exists payload, Polyfill.lineCodingBuffer o = Ok payload.
Proof. eexists. apply lineCodingBuffer_bytes. Qed.

Lemma setLineCoding_throw (w w' : Polyfill.World) (e : exn)
    (o : Polyfill.SerialOptions) :
  Polyfill.serialOptions_ (Polyfill.this w) = Some o ->
  Polyfill.setLineCoding w = (Throw e, w') ->
  (e = NetworkError \/ exists name, e = HostError name) /\
  all_ok (Usb.script (Polyfill.device_ w)) = false.
Proof.
  intros Ho H.
  destruct (lineCodingBuffer_ok o) as [payload Hp].
  unfold Polyfill.setLineCoding, Polyfill.the_options, bind at 1 2, get in H.
  rewrite Ho in H. unfold ret at 1 in H. cbv iota beta in H.
  unfold bind at 1, Polyfill.lift_result in H. rewrite Hp in H.
  cbv iota beta in H.
  unfold bind at 1, get in H. cbv iota beta in H.
  apply bind_throw in H. destruct H as [H | [r [w1 [Hi H]]]].
  - apply on_device_invoke_throw in H.
    destruct H as [name [rest [Hs [-> _]]]].
    split; [right; now exists name | now apply (all_ok_no_reject _ name rest)].
  - apply on_device_invoke_ok in Hi. destruct Hi as [_ Hs].
    destruct (Usb.is_ok (Usb.status r)) eqn:Er; simpl in H;
      [discriminate H | ].
    injection H as <- _. split; [now left | ].
    destruct (all_ok (Usb.script (Polyfill.device_ w))) eqn:Ea;
      [ | reflexivity].
    rewrite (all_ok_status _ r Ea Hs) in Er. discriminate Er.
Qed.

Lemma setSignals_throw (s : Polyfill.SerialOutputSignals)
    (w w' : Polyfill.World) (e : exn) :
  Polyfill.setSignals s w = (Throw e, w') ->
  (exists name, e = HostError name) /\
  all_ok (Usb.script (Polyfill.device_ w)) = false.
Proof.
  destruct w as [p d rc wc n].
  destruct d as [cfgs cfg op cl vid pid lg sc].
  destruct s as [dtr rts brk].
  unfold Polyfill.setSignals, bind, get, Polyfill.on_this, modify,
    Polyfill.on_device, Usb.invoke, when_, ret.
  destruct dtr as [ | | dtr]; destruct rts as [ | | rts];
    destruct brk as [ | | brk];
    destruct sc as [ | [r1 | n1] [ | [r2 | n2] sc]];
    cbn -[Z.lor Polyfill.merge_signals Polyfill.on_];
    intros H; try discriminate H; injection H as <- _;
    (split; [eexists; reflexivity | ]);
    rewrite ?andb_false_r; reflexivity.
Qed.

Lemma open_sequence_throw (w w2 : Polyfill.World) (e : exn)
    (o : Polyfill.SerialOptions) :
  Polyfill.serialOptions_ (Polyfill.this w) = Some o ->
  Polyfill.open_sequence w = (Throw e, w2) ->
  (e = NetworkError \/ exists name, e = HostError name) /\
  all_ok (Usb.script (Polyfill.device_ w)) = false.
Proof.
  intros Ho H.
  assert (Hback : forall c d,
             all_ok (Usb.script (accept_call c d)) = false ->
             all_ok (Usb.script d) = false).
  { intros c d Hf. destruct (all_ok (Usb.script d)) eqn:Ea; [ | reflexivity].
    rewrite (all_ok_accept_call c d Ea) in Hf. discriminate Hf. }
  unfold Polyfill.open_sequence in H.
  apply bind_throw in H. destruct H as [H | [r1 [wa [H1 H]]]].
  { apply on_device_invoke_throw in H.
    destruct H as [name [rest [Hs [-> _]]]].
    split; [right; now exists name | now apply (all_ok_no_reject _ name rest)]. }
  apply on_device_invoke_ok in H1. destruct H1 as [-> _].
  apply bind_throw in H. destruct H as [H | [wg [wb [Hg H]]]];
    [discriminate H | ].
  injection Hg as <- <-.
  assert (Hstep : forall (b : bool) c (wx wy : Polyfill.World) (u : unit),
    when_ b (bind (Polyfill.on_device (Usb.invoke c)) (fun _ => ret tt)) wx
      = (Ok u, wy) ->
    Polyfill.this wy = Polyfill.this wx /\
    (all_ok (Usb.script (Polyfill.device_ wy)) = false ->
     all_ok (Usb.script (Polyfill.device_ wx)) = false)).
  { intros b c wx wy [] Hw. apply when_ok in Hw.
    destruct Hw as [[_ Hw] | [_ ->]]; [ | now split].
    apply invoke_unit_ok in Hw. subst wy. split; [reflexivity | ].
    apply Hback. }
  assert (Hstop : forall (b : bool) c (wx wy : Polyfill.World) e',
    when_ b (bind (Polyfill.on_device (Usb.invoke c)) (fun _ => ret tt)) wx
      = (Throw e', wy) ->
    (exists name, e' = HostError name) /\
    all_ok (Usb.script (Polyfill.device_ wx)) = false).
  { intros b c wx wy e' Hw. destruct b; [ | discriminate Hw].
    now apply invoke_unit_throw in Hw. }
  apply bind_throw in H. destruct H as [H | [u1 [wc [Hsel H]]]].
  { apply Hstop in H. destruct H as [[name ->] Hf].
    split; [right; now exists name | ].
    exact (Hback Usb.Open (Polyfill.device_ w) Hf). }
  apply Hstep in Hsel. destruct Hsel as [Hthis1 Hb1].
  apply bind_throw in H. destruct H as [H | [r2 [wd [Hc1 H]]]].
  { apply on_device_invoke_throw in H.
    destruct H as [name [rest [Hs [-> _]]]].
    split; [right; now exists name | ].
    apply (Hback Usb.Open). apply Hb1.
    now apply (all_ok_no_reject _ name rest). }
  apply on_device_invoke_ok in Hc1. destruct Hc1 as [-> _].
  apply bind_throw in H. destruct H as [H | [u2 [we [Hc2 H]]]].
  { apply Hstop in H. destruct H as [[name ->] Hf].
    split; [right; now exists name | ].
    apply (Hback Usb.Open). apply Hb1.
    exact (Hback (Usb.ClaimInterface _) (Polyfill.device_ wc) Hf). }
  apply Hstep in Hc2. destruct Hc2 as [Hthis2 Hb2].
  assert (Hchain : all_ok (Usb.script (Polyfill.device_ we)) = false ->
                   all_ok (Usb.script (Polyfill.device_ w)) = false).
  { intros Hf. apply (Hback Usb.Open). apply Hb1.
    apply Hb2 in Hf.
    exact (Hback (Usb.ClaimInterface _) (Polyfill.device_ wc) Hf). }
  assert (Hoe : Polyfill.serialOptions_ (Polyfill.this we) = Some o).
  { rewrite Hthis2. cbn [with_device Polyfill.this]. rewrite Hthis1.
    exact Ho. }
  apply bind_throw in H. destruct H as [H | [u3 [wf [Hlc H]]]].
  { destruct (setLineCoding_throw _ _ _ o Hoe H) as [He Hf].
    split; [exact He | now apply Hchain]. }
  destruct u3. apply setLineCoding_ok in Hlc.
  destruct Hlc as [o' [payload [_ [_ ->]]]].
  apply setSignals_throw in H. destruct H as [[name ->] Hf].
  split; [right; now exists name | ].
  apply Hchain.
  exact (Hback (Usb.ControlTransferOut _ _ _ _) (Polyfill.device_ we) Hf).
Qed.

Lemma open_handler_rejected (error : exn) (w2 : Polyfill.World) (name : string) :
  fst (bind get (fun w : Polyfill.World =>
         bind (when_ (Usb.opened (Polyfill.device_ w))
                 (bind (Polyfill.on_device (Usb.invoke Usb.Close))
                       (fun _ => ret tt)))
              (fun _ => @throw _ unit (SetupError error))) w2) =
    Throw (HostError name) ->
  Usb.opened
    (Polyfill.device_
       (snd (bind get (fun w : Polyfill.World =>
               bind (when_ (Usb.opened (Polyfill.device_ w))
                       (bind (Polyfill.on_device (Usb.invoke Usb.Close))
                             (fun _ => ret tt)))
                    (fun _ => @throw _ unit (SetupError error))) w2))) = true.
Proof.
  unfold bind, get, throw, Polyfill.on_device, Usb.invoke.
  destruct (Usb.opened (Polyfill.device_ w2)) eqn:Eo; simpl.
  - destruct (Usb.script (Polyfill.device_ w2)) as [ | [r | n] rest]; simpl;
      intros H; try discriminate H. exact Eo.
  - intros H. discriminate H.
Qed.

Lemma validateOptions_throws (w : Polyfill.World) (o : Polyfill.SerialOptions)
    (e : exn) :
  Polyfill.serialOptions_ (Polyfill.this w) = Some o ->
  fst (Polyfill.validateOptions w) = Throw e ->
  exists f, e = RangeError f.
Proof.
  intros Ho. rewrite (validateOptions_run w o Ho). simpl.
  destruct (Polyfill.isValidBaudRate _); simpl;
    [ | intros H; injection H as <-; now eexists].
  destruct (Polyfill.isValidDataBits _); simpl;
    [ | intros H; injection H as <-; now eexists].
  destruct (Polyfill.isValidStopBits _); simpl;
    [ | intros H; injection H as <-; now eexists].
  destruct (Polyfill.isValidParity _); simpl;
    [discriminate | intros H; injection H as <-; now eexists].
Qed.

(** X14: [open] ends in one of four ways: it fulfils; it throws the
    RangeError of validation, having changed nothing but the stored
    options; it rejects with the setup error wrapping either the
    NetworkError of a line-coding transfer whose status is not 'ok' or an
    error raised by the host; or it rejects with the host's error for the
    [close] of the handler, and then the device is still open.  On a host
    that carries out every call with status 'ok', [open] fulfils exactly
    when validation passes. *)
Theorem open_outcomes (o : Polyfill.SerialOptions) (w : Polyfill.World) :
  let w' := snd (Polyfill.open o w) in
  (fst (Polyfill.open o w) = Ok tt \/
   (throws_RangeError (fst (Polyfill.open o w)) /\ w' = with_options o w) \/
   (exists e,
       fst (Polyfill.open o w) = Throw (SetupError e) /\
       (e = NetworkError \/ exists name, e = HostError name)) \/
   (exists name,
       fst (Polyfill.open o w) = Throw (HostError name) /\
       Usb.opened (Polyfill.device_ w') = true)) /\
  (all_ok (Usb.script (Polyfill.device_ w)) = true ->
   (fst (Polyfill.open o w) = Ok tt <->
    fst (Polyfill.validateOptions (with_options o w)) = Ok tt)).
Proof.
  cbv zeta. rewrite open_unfold.
  destruct (fst (Polyfill.validateOptions (with_options o w)))
    as [[] | e] eqn:Ev.
  - destruct (Polyfill.open_sequence (with_options o w))
      as [[[] | e] w2] eqn:E.
    + split; [now left | ]. intros _. now split.
    + destruct (open_sequence_throw (with_options o w) w2 e o eq_refl E)
        as [He Hnot].
      change (Polyfill.device_ (with_options o w))
        with (Polyfill.device_ w) in Hnot.
      split.
      * destruct (open_handler e w2) as [_ [_ [Hh | [name Hh]]]];
          cbv zeta in Hh.
        -- right. right. left. exists e. now split.
        -- right. right. right. exists name. split; [exact Hh | ].
           now apply (open_handler_rejected e w2 name).
      * intros Ha. rewrite Ha in Hnot. discriminate Hnot.
  - destruct (validateOptions_throws (with_options o w) o e eq_refl Ev)
      as [f ->].
    split.
    + right. left. split; [now exists f | reflexivity].
    + intros _. simpl. split; discriminate.
Qed.

Lemma open_outcomes_witness :
  fst (Polyfill.open options_9600_8N1
         (example_world
            [Usb.Resolve {| Usb.status := Usb.status_ok;
                            Usb.data := Some [1] |}] None)) = Ok tt.
Proof.
  destruct (open_outcomes options_9600_8N1
              (example_world
                 [Usb.Resolve {| Usb.status := Usb.status_ok;
                                 Usb.data := Some [1] |}] None))
    as [_ Hiff].
  apply Hiff; reflexivity.
Defined.

(* ------------------------------------------------------------------ *)
(** ** Closing the port *)

Lemma close_run (w : Polyfill.World) :
  Polyfill.close w =
  match readable_refusal w, writable_refusal w with
  | Some e, None =>
      (Throw e,
       {| Polyfill.this := Polyfill.this w;
          Polyfill.device_ := Polyfill.device_ w;
          Polyfill.readable_controller := Polyfill.readable_controller w;
          Polyfill.writable_controller :=
            Polyfill.writable_controller (torn_down w);
          Polyfill.onError_runs := Polyfill.onError_runs w |})
  | Some e, Some _ => (Throw e, w)
  | None, Some e =>
      (Throw e,
       {| Polyfill.this := Polyfill.this w;
          Polyfill.device_ := Polyfill.device_ w;
          Polyfill.readable_controller :=
            Polyfill.readable_controller (torn_down w);
          Polyfill.writable_controller := Polyfill.writable_controller w;
          Polyfill.onError_runs := Polyfill.onError_runs w |})
  | None, None =>
      if Usb.opened (Polyfill.device_ w)
      then bind (Polyfill.setSignals
                   (signals (Js.Val false) (Js.Val false) Js.Absent))
                (fun _ => bind (Polyfill.on_device (Usb.invoke Usb.Close))
                               (fun _ => ret tt)) (torn_down w)
      else (Ok tt, torn_down w)
  end.
Proof.
  destruct w as [p d rc wc n].
  destruct p as [po ci ti ie oe so rd wr sg].
  destruct rc as [ds rs enq rerr rl]. destruct wc as [ws werr wl].
  unfold Polyfill.close, readable_refusal, writable_refusal, torn_down,
    cancelled, aborted, Polyfill.cancel_readable, Polyfill.abort_writable,
    Polyfill.on_readable_controller, Polyfill.on_writable_controller,
    Streams.cancel, Streams.abort, promise, bind at 1 2 3 4, get.
  cbn [Polyfill.this Polyfill.readable_ Polyfill.writable_
       Polyfill.readable_controller Polyfill.writable_controller
       Polyfill.device_ Polyfill.onError_runs
       Streams.rlocked Streams.rstate Streams.wlocked Streams.wstate fst snd].
  destruct rd as [ | | rd], wr as [ | | wr], rl, wl, rs, ws;
    cbn -[Polyfill.setSignals signals];
    try reflexivity;
    destruct (Usb.opened d); reflexivity.
Qed.

(** X15: [close] first calls [cancel()] on the cached readable stream and
    [abort()] on the cached writable stream, both before it waits for
    either.  When [cancel()] refuses, because a reader holds the stream
    (TypeError) or the stream is errored (its stored error), [close]
    rejects with that error; when only [abort()] refuses, because a
    writer holds the stream, it rejects with that TypeError.  In both
    cases the port keeps its streams, no call reaches the device, and
    the stream that did not refuse has been cancelled or aborted all the
    same.  When neither refuses, [close] drops both cached streams
    (null); on a device that is not open it then makes no device call and
    fulfils; on an open device it sends Set Control Line State with value
    0 (DTR and RTS off, whatever they were) and then calls [close] on the
    device: when the host carries both out the device ends closed with no
    interface claimed and the port remembers DTR and RTS off; when the
    host rejects the signal transfer, [close] rejects with that error
    without calling [close] on the device, which stays open with its
    interfaces claimed although the streams are already gone. *)
Theorem close_outcomes (w : Polyfill.World) :
  let w' := snd (Polyfill.close w) in
  let index :=
    Usb.interfaceNumber (Polyfill.controlInterface_ (Polyfill.this w)) in
  let line_state_off :=
    Usb.ControlTransferOut Polyfill.kSetControlLineState 0 index None in
  (forall e,
      readable_refusal w = Some e ->
      fst (Polyfill.close w) = Throw e /\
      Polyfill.this w' = Polyfill.this w /\
      Polyfill.device_ w' = Polyfill.device_ w /\
      Polyfill.readable_controller w' = Polyfill.readable_controller w /\
      (writable_refusal w = None ->
       Polyfill.writable_controller w' =
       Polyfill.writable_controller (torn_down w)) /\
      (writable_refusal w <> None ->
       Polyfill.writable_controller w' = Polyfill.writable_controller w)) /\
  (forall e,
      readable_refusal w = None ->
      writable_refusal w = Some e ->
      fst (Polyfill.close w) = Throw e /\
      Polyfill.this w' = Polyfill.this w /\
      Polyfill.device_ w' = Polyfill.device_ w /\
      Polyfill.readable_controller w' =
        Polyfill.readable_controller (torn_down w) /\
      Polyfill.writable_controller w' = Polyfill.writable_controller w) /\
  (readable_refusal w = None ->
   writable_refusal w = None ->
   Polyfill.readable_ (Polyfill.this w') = Js.Null /\
   Polyfill.writable_ (Polyfill.this w') = Js.Null /\
   (Usb.opened (Polyfill.device_ w) = false ->
    Polyfill.close w = (Ok tt, torn_down w) /\
    new_calls Polyfill.close w = []) /\
   (Usb.opened (Polyfill.device_ w) = true ->
    all_ok (Usb.script (Polyfill.device_ w)) = true ->
    fst (Polyfill.close w) = Ok tt /\
    new_calls Polyfill.close w = [line_state_off; Usb.Close] /\
    Usb.opened (Polyfill.device_ w') = false /\
    Usb.claimed (Polyfill.device_ w') = [] /\
    Polyfill.dataTerminalReady (Polyfill.outputSignals_ (Polyfill.this w')) =
      Js.Val false /\
    Polyfill.requestToSend (Polyfill.outputSignals_ (Polyfill.this w')) =
      Js.Val false /\
    Polyfill.break (Polyfill.outputSignals_ (Polyfill.this w')) =
      Polyfill.break (Polyfill.outputSignals_ (Polyfill.this w))) /\
   (forall name rest,
       Usb.opened (Polyfill.device_ w) = true ->
       Usb.script (Polyfill.device_ w) = Usb.Reject name :: rest ->
       fst (Polyfill.close w) = Throw (HostError name) /\
       new_calls Polyfill.close w = [line_state_off] /\
       Usb.opened (Polyfill.device_ w') = true /\
       Usb.claimed (Polyfill.device_ w') =
         Usb.claimed (Polyfill.device_ w))).
Proof.
  cbv zeta. unfold new_calls. rewrite close_run.
  split; [ | split].
  - intros e ->.
    destruct (writable_refusal w) as [e' | ]; cbn [fst snd
      Polyfill.this Polyfill.device_ Polyfill.readable_controller
      Polyfill.writable_controller];
      repeat split; try reflexivity; intros H; congruence.
  - intros e -> ->. repeat split.
  - intros -> ->.
    assert (Ht : Polyfill.device_ (torn_down w) = Polyfill.device_ w /\
                 Polyfill.readable_ (Polyfill.this (torn_down w)) = Js.Null /\
                 Polyfill.writable_ (Polyfill.this (torn_down w)) = Js.Null /\
                 Polyfill.controlInterface_ (Polyfill.this (torn_down w)) =
                   Polyfill.controlInterface_ (Polyfill.this w) /\
                 Polyfill.outputSignals_ (Polyfill.this (torn_down w)) =
                   Polyfill.outputSignals_ (Polyfill.this w))
      by (destruct w as [[] ? ? ? ?]; repeat split).
    destruct Ht as [Hd [Hr [Hw [Hc Hs]]]].
    generalize dependent (torn_down w). intros t Hd Hr Hw Hc Hs.
    rewrite <- Hd, <- Hc, <- Hs. clear Hd Hc Hs w.
    destruct t as [p d rc wc n].
    destruct d as [cfgs cfg op cl vid pid lg sc].
    destruct p as [po ci ti ie oe so rd wr sg].
    simpl in Hr, Hw. subst rd wr.
    cbn [Polyfill.device_ Usb.opened Usb.script Polyfill.this
         Polyfill.controlInterface_ Polyfill.outputSignals_ Usb.log
         Usb.claimed].
    destruct op.
    + unfold Polyfill.setSignals, bind, get, Polyfill.on_this, modify,
        Polyfill.on_device, Usb.invoke, when_, ret.
      destruct sg as [dtr rts brk].
      destruct sc as [ | [[st1 dat1] | n1] [ | [[st2 dat2] | n2] sc]];
        cbn -[app skipn];
        rewrite <- ?app_assoc, ?skipn_length_app;
        (split; [reflexivity | ]); (split; [reflexivity | ]);
        (split; [intros H; discriminate H | ]);
        (split;
         [ intros _ Hok; try discriminate Hok;
           try (destruct st1; try discriminate Hok);
           try (destruct st2; try discriminate Hok);
           repeat split
         | intros name rest _ Hsc; try discriminate Hsc;
           injection Hsc as <- <-; repeat split ]).
    + cbn -[app skipn].
      rewrite skipn_all.
      (split; [reflexivity | ]); (split; [reflexivity | ]).
      split; [intros _; split; reflexivity | ].
      split; [intros H; discriminate H | intros name rest H; discriminate H].
Qed.

Lemma close_outcomes_witness :
  new_calls Polyfill.close (opened_world []) =
    [Usb.ControlTransferOut 0x22 0 0 None; Usb.Close] /\
  Usb.claimed (Polyfill.device_ (snd (Polyfill.close (opened_world [])))) = [] /\
  fst (Polyfill.close reader_held_world) = Throw StreamLockedError /\
  Polyfill.this (snd (Polyfill.close reader_held_world)) =
    Polyfill.this reader_held_world.
Proof.
  destruct (close_outcomes (opened_world [])) as [_ [_ H]].
  destruct (H eq_refl eq_refl) as [_ [_ [_ [Hok _]]]].
  destruct (Hok eq_refl eq_refl) as [_ [Hcalls [_ [Hcl _]]]].
  destruct (close_outcomes reader_held_world) as [Hheld _].
  destruct (Hheld StreamLockedError eq_refl) as [Hthrow [Hthis _]].
  split; [exact Hcalls | ]. split; [exact Hcl | ].
  split; [exact Hthrow | exact Hthis].
Defined.

(* ------------------------------------------------------------------ *)
(** ** Reconfiguring the port *)

Lemma setLineCoding_frame (w : Polyfill.World) :
  let w' := snd (Polyfill.setLineCoding w) in
  Polyfill.this w' = Polyfill.this w /\
  Usb.opened (Polyfill.device_ w') = Usb.opened (Polyfill.device_ w) /\
  Usb.claimed (Polyfill.device_ w') = Usb.claimed (Polyfill.device_ w) /\
  Polyfill.readable_controller w' = Polyfill.readable_controller w /\
  Polyfill.writable_controller w' = Polyfill.writable_controller w.
Proof.
  cbv zeta.
  unfold Polyfill.setLineCoding, Polyfill.the_options, bind, get,
    Polyfill.lift_result, Polyfill.on_device, Usb.invoke.
  destruct (Polyfill.serialOptions_ (Polyfill.this w)) as [o | ];
    [ | repeat split].
  cbn [ret]. destruct (lineCodingBuffer_ok o) as [payload ->].
  destruct (Usb.script (Polyfill.device_ w)) as [ | [[st dat] | name] rest];
    try destruct st; repeat split.
Qed.

Lemma setLineCoding_result (w : Polyfill.World) (o : Polyfill.SerialOptions) :
  Polyfill.serialOptions_ (Polyfill.this w) = Some o ->
  match Usb.script (Polyfill.device_ w) with
  | [] => fst (Polyfill.setLineCoding w) = Ok tt
  | Usb.Resolve r :: _ =>
      fst (Polyfill.setLineCoding w) =
      if Usb.is_ok (Usb.status r) then Ok tt else Throw NetworkError
  | Usb.Reject name :: _ =>
      fst (Polyfill.setLineCoding w) = Throw (HostError name)
  end.
Proof.
  intros Ho.
  unfold Polyfill.setLineCoding, Polyfill.the_options, bind, get,
    Polyfill.lift_result, Polyfill.on_device, Usb.invoke.
  rewrite Ho. cbn [ret]. destruct (lineCodingBuffer_ok o) as [payload ->].
  destruct (Usb.script (Polyfill.device_ w)) as [ | [[st dat] | name] rest];
    try destruct st; reflexivity.
Qed.

Lemma spread_takes_over {A : Type} (stored given : Js.field A) :
  takes_over stored given (Js.spread stored given).
Proof.
  unfold takes_over. destruct given; simpl; split; congruence.
Qed.

Lemma absent_takes_over {A : Type} (given : Js.field A) :
  takes_over Js.Absent given given.
Proof. unfold takes_over. split; congruence. Qed.

(** X16: [reconfigure] stores new options before it validates: the baud
    rate the call gives and, for each other property, what the call gives
    when it has the property and what the port held before when it has
    not.  It never changes whether the device is open, which interfaces
    are claimed, the cached streams or the remembered signals.  When
    validation of the stored options throws, that is its whole effect:
    no device call is made, and the error is thrown before [reconfigure]
    returns.  When validation passes it makes exactly one Set Line Coding
    transfer, on the control interface, whose payload encodes the stored
    options, and returns a promise: fulfilled if the host completes that
    transfer with status 'ok', rejected with the NetworkError if the
    status is another one, and rejected with the host's error if the
    transfer is rejected. *)
Theorem reconfigure_outcomes (o : Polyfill.SerialOptions)
    (w : Polyfill.World) :
  let w' := snd (Polyfill.reconfigure o w) in
  let index :=
    Usb.interfaceNumber (Polyfill.controlInterface_ (Polyfill.this w)) in
  exists stored,
    Polyfill.this w' =
      Polyfill.set_serialOptions (Some stored) (Polyfill.this w) /\
    Polyfill.baudRate stored = Polyfill.baudRate o /\
    takes_over (stored_property Polyfill.dataBits w) (Polyfill.dataBits o)
      (Polyfill.dataBits stored) /\
    takes_over (stored_property Polyfill.stopBits w) (Polyfill.stopBits o)
      (Polyfill.stopBits stored) /\
    takes_over (stored_property Polyfill.parity w) (Polyfill.parity o)
      (Polyfill.parity stored) /\
    takes_over (stored_property Polyfill.bufferSize w) (Polyfill.bufferSize o)
      (Polyfill.bufferSize stored) /\
    takes_over (stored_property Polyfill.flowControl w)
      (Polyfill.flowControl o) (Polyfill.flowControl stored) /\
    Usb.opened (Polyfill.device_ w') = Usb.opened (Polyfill.device_ w) /\
    Usb.claimed (Polyfill.device_ w') = Usb.claimed (Polyfill.device_ w) /\
    snd (Polyfill.reconfigure_call o w) = w' /\
    (forall e,
        fst (Polyfill.validateOptions (with_options stored w)) = Throw e ->
        Polyfill.reconfigure_call o w = (ThrownSync e, with_options stored w) /\
        new_calls (Polyfill.reconfigure o) w = []) /\
    (fst (Polyfill.validateOptions (with_options stored w)) = Ok tt ->
     exists payload,
       Polyfill.lineCodingBuffer stored = Ok payload /\
       new_calls (Polyfill.reconfigure o) w =
         [Usb.ControlTransferOut Polyfill.kSetLineCoding 0 index
            (Some payload)] /\
       match Usb.script (Polyfill.device_ w) with
       | [] => fst (Polyfill.reconfigure_call o w) = Fulfilled tt
       | Usb.Resolve r :: _ =>
           fst (Polyfill.reconfigure_call o w) =
           if Usb.is_ok (Usb.status r) then Fulfilled tt
           else Rejected NetworkError
       | Usb.Reject name :: _ =>
           fst (Polyfill.reconfigure_call o w) = Rejected (HostError name)
       end).
Proof.
  cbv zeta.
  pose proof (reconfigure_unfold o w) as Hrec. cbv zeta in Hrec.
  exists (Polyfill.merge_options (Polyfill.serialOptions_ (Polyfill.this w)) o).
  assert (Hfields :
    let merged :=
      Polyfill.merge_options (Polyfill.serialOptions_ (Polyfill.this w)) o in
    Polyfill.baudRate merged = Polyfill.baudRate o /\
    takes_over (stored_property Polyfill.dataBits w) (Polyfill.dataBits o)
      (Polyfill.dataBits merged) /\
    takes_over (stored_property Polyfill.stopBits w) (Polyfill.stopBits o)
      (Polyfill.stopBits merged) /\
    takes_over (stored_property Polyfill.parity w) (Polyfill.parity o)
      (Polyfill.parity merged) /\
    takes_over (stored_property Polyfill.bufferSize w) (Polyfill.bufferSize o)
      (Polyfill.bufferSize merged) /\
    takes_over (stored_property Polyfill.flowControl w)
      (Polyfill.flowControl o) (Polyfill.flowControl merged)).
  { cbv zeta. unfold stored_property, Polyfill.merge_options.
    destruct (Polyfill.serialOptions_ (Polyfill.this w)) as [old | ].
    - cbn [Polyfill.baudRate Polyfill.dataBits Polyfill.stopBits
           Polyfill.parity Polyfill.bufferSize Polyfill.flowControl].
      split; [reflexivity | ].
      repeat split; apply spread_takes_over.
    - split; [reflexivity | ].
      repeat split; apply absent_takes_over. }
  cbv zeta in Hfields.
  set (merged := Polyfill.merge_options
                   (Polyfill.serialOptions_ (Polyfill.this w)) o) in *.
  destruct Hfields as [Hb [Hd [Hs [Hp [Hbs Hf]]]]].
  pose proof (setLineCoding_frame (with_options merged w)) as Hframe.
  cbv zeta in Hframe. destruct Hframe as [Hthis [Hop [Hcl _]]].
  destruct (reconfigure_call_agrees o w) as [Hsnd _].
  pose proof (reconfigure_call_unfold o w) as Hcall. cbv zeta in Hcall.
  fold merged in Hcall.
  unfold new_calls. rewrite Hsnd, Hcall.
  destruct (fst (Polyfill.validateOptions (with_options merged w)))
    as [[] | e0] eqn:Ev; rewrite Hrec.
  - split; [exact Hthis | ].
    split; [exact Hb | ]. split; [exact Hd | ]. split; [exact Hs | ].
    split; [exact Hp | ]. split; [exact Hbs | ]. split; [exact Hf | ].
    split; [exact Hop | ]. split; [exact Hcl | ].
    split; [reflexivity | ].
    split; [intros e H; discriminate H | ]. intros _.
    destruct (lineCodingBuffer_ok merged) as [payload Hpl].
    exists payload. split; [exact Hpl | ]. split.
    + pose proof (setLineCoding_calls (with_options merged w) merged payload
                    eq_refl Hpl) as Hcalls.
      unfold new_calls in Hcalls. exact Hcalls.
    + pose proof (setLineCoding_result (with_options merged w) merged eq_refl)
        as Hres.
      unfold async.
      destruct (Polyfill.setLineCoding (with_options merged w))
        as [[[] | e] w2]; cbn [fst] in Hres |- *;
        change (Polyfill.device_ (with_options merged w))
          with (Polyfill.device_ w) in Hres;
        destruct (Usb.script (Polyfill.device_ w)) as [ | [r | name] rest];
        try discriminate Hres;
        try (destruct (Usb.is_ok (Usb.status r)); try discriminate Hres);
        try reflexivity;
        injection Hres as ->; reflexivity.
  - split; [reflexivity | ].
    split; [exact Hb | ]. split; [exact Hd | ]. split; [exact Hs | ].
    split; [exact Hp | ]. split; [exact Hbs | ]. split; [exact Hf | ].
    split; [reflexivity | ]. split; [reflexivity | ].
    split; [reflexivity | ].
    split; [ | intros H; discriminate H].
    intros e H. injection H as <-. split; [reflexivity | ].
    apply skipn_all.
Qed.

Lemma reconfigure_outcomes_witness :
  exists payload,
    new_calls (Polyfill.reconfigure (options_baud_only (Js.of_Z 115200)))
      (opened_world []) =
    [Usb.ControlTransferOut 0x20 0 0 (Some payload)] /\
    payload = [0; 194; 1; 0; 0; 0; 8].
Proof.
  destruct (reconfigure_outcomes (options_baud_only (Js.of_Z 115200))
              (opened_world []))
    as [stored [Hthis [_ [_ [_ [_ [_ [_ [_ [_ [_ [_ H]]]]]]]]]]]].
  assert (Hst : stored =
                Polyfill.merge_options (Some options_9600_8N1)
                  (options_baud_only (Js.of_Z 115200))).
  { apply (f_equal Polyfill.serialOptions_) in Hthis.
    vm_compute in Hthis. injection Hthis as <-. reflexivity. }
  subst stored.
  destruct (H eq_refl) as [payload [Hp [Hcalls _]]].
  exists payload. split; [exact Hcalls | ].
  vm_compute in Hp. now injection Hp as <-.
Defined.

(** X17: a rejected [reconfigure] leaves its options stored: once a
    [reconfigure] has given a dataBits value that is not accepted, it and
    every later [reconfigure] that gives no dataBits throw a RangeError
    without any device call, whatever else the later call asks for. *)
Theorem rejected_reconfigure_sticks (o1 o2 : Polyfill.SerialOptions)
    (w : Polyfill.World) (v : Js.number) :
  Polyfill.dataBits o1 = Js.Val v ->
  Polyfill.isValidDataBits (Some v) = false ->
  Polyfill.dataBits o2 = Js.Absent ->
  let w1 := snd (Polyfill.reconfigure o1 w) in
  throws_RangeError (fst (Polyfill.reconfigure o1 w)) /\
  new_calls (Polyfill.reconfigure o1) w = [] /\
  throws_RangeError (fst (Polyfill.reconfigure o2 w1)) /\
  new_calls (Polyfill.reconfigure o2) w1 = [].
Proof.
  intros H1 Hv H2. cbv zeta.
  assert (Hstuck : forall (o : Polyfill.SerialOptions) (w0 : Polyfill.World),
    Polyfill.dataBits
      (Polyfill.merge_options (Polyfill.serialOptions_ (Polyfill.this w0)) o)
      = Js.Val v ->
    throws_RangeError (fst (Polyfill.reconfigure o w0)) /\
    new_calls (Polyfill.reconfigure o) w0 = [] /\
    Polyfill.serialOptions_ (Polyfill.this (snd (Polyfill.reconfigure o w0))) =
      Some (Polyfill.merge_options
              (Polyfill.serialOptions_ (Polyfill.this w0)) o)).
  { intros o w0 Hd.
    pose proof (reconfigure_unfold o w0) as Hrec. cbv zeta in Hrec.
    set (merged := Polyfill.merge_options
                     (Polyfill.serialOptions_ (Polyfill.this w0)) o) in *.
    assert (Hval : exists f,
      fst (Polyfill.validateOptions (with_options merged w0)) =
      Throw (RangeError f)).
    { rewrite (validateOptions_run (with_options merged w0) merged eq_refl).
      rewrite Hd. cbn [Js.read fst]. rewrite Hv.
      destruct (Polyfill.isValidBaudRate _); simpl; eexists; reflexivity. }
    destruct Hval as [f Hf]. rewrite Hf in Hrec.
    unfold new_calls. rewrite Hrec.
    split; [now exists f | ]. split; [apply skipn_all | reflexivity]. }
  assert (Hm1 : Polyfill.dataBits
                  (Polyfill.merge_options
                     (Polyfill.serialOptions_ (Polyfill.this w)) o1) = Js.Val v).
  { destruct (Polyfill.serialOptions_ (Polyfill.this w)); simpl;
      rewrite H1; reflexivity. }
  destruct (Hstuck o1 w Hm1) as [Ht1 [Hc1 Hs1]].
  split; [exact Ht1 | ]. split; [exact Hc1 | ].
  assert (Hm2 : Polyfill.dataBits
                  (Polyfill.merge_options
                     (Polyfill.serialOptions_
                        (Polyfill.this (snd (Polyfill.reconfigure o1 w)))) o2)
                = Js.Val v).
  { rewrite Hs1. simpl. rewrite H2. simpl. exact Hm1. }
  destruct (Hstuck o2 _ Hm2) as [Ht2 [Hc2 _]].
  split; [exact Ht2 | exact Hc2].
Qed.

Lemma rejected_reconfigure_sticks_witness :
  throws_RangeError
    (fst (Polyfill.reconfigure (options_baud_only (Js.of_Z 19200))
            (snd (Polyfill.reconfigure options_9_data_bits
                    (opened_world []))))).
Proof.
  destruct (rejected_reconfigure_sticks options_9_data_bits
              (options_baud_only (Js.of_Z 19200)) (opened_world [])
              (Js.of_Z 9)) as [_ [_ [H _]]].
  - reflexivity.
  - reflexivity.
  - reflexivity.
  - exact H.
Defined.

Lemma indexOf_stop_bits (x : Js.number) (s : Z) :
  Js.num_eq x (Js.of_Z s) -> In s [1; 2] ->
  Js.indexOf Js.strict_eq Polyfill.kStopBitsIndexMapping x = stop_bits_code s.
Proof.
  intros Heq Hin. destruct x as [q | | |]; simpl in Heq; try contradiction.
  unfold Js.indexOf, Polyfill.kStopBitsIndexMapping, Js.indexOf_from,
    Js.strict_eq, Js.of_Z.
  rewrite !(Qeq_bool_right _ _ _ Heq).
  simpl in Hin. destruct Hin as [<- | [<- | []]]; reflexivity.
Qed.

(** X18: for options that pass validation with all four fields given, the
    payload [setLineCoding] sends is the baud rate modulo 2^32 in four
    little-endian bytes, then stop-bits code 0 for 1 stop bit and 2 for 2
    stop bits (never the code 1 of 1.5 stop bits), then parity code 0 for
    none, 1 for odd and 2 for even, then the data bits as they are. *)
Theorem valid_options_payload (baud data stop : Js.number) (par : string)
    (buffer : Js.field Js.number) (flow : Js.field string) (z d s : Z) :
  Js.num_eq baud (Js.of_Z z) ->
  Js.num_eq data (Js.of_Z d) -> In d [5; 6; 7; 8; 16] ->
  Js.num_eq stop (Js.of_Z s) -> In s [1; 2] ->
  In par ["none"; "odd"; "even"]%string ->
  Polyfill.lineCodingBuffer (fully_specified baud data stop par buffer flow) =
  Ok (DataView.le_bytes32 (z mod 2 ^ 32)
      ++ [stop_bits_code s; parity_code_of par; d]).
Proof.
  intros Hb Hd Hdin Hs Hsin Hp.
  rewrite lineCodingBuffer_bytes. cbv zeta.
  cbn [fully_specified Polyfill.baudRate Polyfill.dataBits Polyfill.stopBits
       Polyfill.parity Js.read Js.nullish].
  rewrite (indexOf_stop_bits stop s Hs Hsin).
  assert (Hu : Js.ToUint 32 baud = z mod 2 ^ 32).
  { destruct baud as [q | | |]; simpl in Hb; try contradiction.
    unfold Js.ToUint. now rewrite (truncate_integer q z Hb). }
  rewrite Hu.
  assert (Hdv : Js.ToUint 8 data = d).
  { apply ToUint_integer; [exact Hd | ].
    simpl in Hdin. destruct Hdin as [<- | [<- | [<- | [<- | [<- | []]]]]];
      split; lia. }
  rewrite Hdv.
  assert (Hsc : Js.ToUint 8 (Js.of_Z (stop_bits_code s)) = stop_bits_code s).
  { simpl in Hsin. destruct Hsin as [<- | [<- | []]]; reflexivity. }
  rewrite Hsc.
  simpl in Hp. destruct Hp as [<- | [<- | [<- | []]]]; reflexivity.
Qed.

Lemma valid_options_payload_witness :
  Polyfill.lineCodingBuffer
    (fully_specified (Js.of_Z 9600) (Js.of_Z 7) (Js.of_Z 2) "even"
       Js.Absent Js.Absent) =
  Ok [0x80; 0x25; 0; 0; 2; 2; 7].
Proof.
  apply (valid_options_payload (Js.of_Z 9600) (Js.of_Z 7) (Js.of_Z 2) "even"
           Js.Absent Js.Absent 9600 7 2).
  - reflexivity.
  - reflexivity.
  - simpl. tauto.
  - reflexivity.
  - simpl. tauto.
  - simpl. tauto.
Defined.

(* ------------------------------------------------------------------ *)
(** ** The legacy generation: validation and out-of-table codes *)

Lemma legacy_includes_of_Z (x : Js.number) (zs : list Z) :
  Js.includes Js.same_value_zero (map Js.of_Z zs) x = true <->
  number_among x zs.
Proof. apply includes_of_Z. Qed.

(** X19: the legacy [validateOptions] passes exactly when baudrate is an
    integer, databits is one of 5, 6, 7, 8, 16, stopbits is 1 or 2 and
    parity is one of none, even, mark, odd, space; otherwise it throws the
    RangeError of the first of these fields, in this order, that fails.
    In particular 1.5 stop bits, which the encoding table knows, is
    rejected. *)
Theorem legacy_validation (p : Legacy.SerialPort) :
  let o := Legacy.serialOptions_ p in
  let baud_ok := Js.is_integer (Legacy.baudrate o) in
  let data_ok := number_among (Legacy.databits o) [5; 6; 7; 8; 16] in
  let stop_ok := number_among (Legacy.stopbits o) [1; 2] in
  let parity_ok :=
    In (Legacy.parity o) ["none"; "even"; "mark"; "odd"; "space"]%string in
  snd (Legacy.validateOptions p) = p /\
  (fst (Legacy.validateOptions p) = Ok tt <->
   baud_ok /\ data_ok /\ stop_ok /\ parity_ok) /\
  (fst (Legacy.validateOptions p) = Throw (RangeError BaudRate) <->
   ~ baud_ok) /\
  (fst (Legacy.validateOptions p) = Throw (RangeError DataBits) <->
   baud_ok /\ ~ data_ok) /\
  (fst (Legacy.validateOptions p) = Throw (RangeError StopBits) <->
   baud_ok /\ data_ok /\ ~ stop_ok) /\
  (fst (Legacy.validateOptions p) = Throw (RangeError Parity) <->
   baud_ok /\ data_ok /\ stop_ok /\ ~ parity_ok) /\
  ~ number_among (Js.Fin (3 # 2)) [1; 2].
Proof.
  cbv zeta.
  pose proof (isValidBaudRate_integer (Legacy.baudrate (Legacy.serialOptions_ p)))
    as Hb.
  assert (Hd : Legacy.isValidDataBits (Legacy.databits (Legacy.serialOptions_ p))
               = true <->
               number_among (Legacy.databits (Legacy.serialOptions_ p))
                 [5; 6; 7; 8; 16]).
  { change (Legacy.isValidDataBits ?x) with
      (Js.includes Js.same_value_zero (map Js.of_Z [16; 8; 7; 6; 5]) x).
    rewrite includes_of_Z. unfold number_among.
    split; intros [z [Hin Heq]]; exists z; (split; [ | exact Heq]);
      simpl in Hin |- *; tauto. }
  assert (Hs : Legacy.isValidStopBits (Legacy.stopbits (Legacy.serialOptions_ p))
               = true <->
               number_among (Legacy.stopbits (Legacy.serialOptions_ p)) [1; 2]).
  { change (Legacy.isValidStopBits ?x) with
      (Js.includes Js.same_value_zero (map Js.of_Z [1; 2]) x).
    apply includes_of_Z. }
  assert (Hp : Legacy.isValidParity (Legacy.parity (Legacy.serialOptions_ p))
               = true <->
               In (Legacy.parity (Legacy.serialOptions_ p))
                  ["none"; "even"; "mark"; "odd"; "space"]%string).
  { unfold Legacy.isValidParity, Js.includes. rewrite existsb_exists. split.
    - intros [y [Hin Hy]]. apply String.eqb_eq in Hy. now subst y.
    - intros Hin. exists (Legacy.parity (Legacy.serialOptions_ p)).
      split; [exact Hin | apply String.eqb_refl]. }
  assert (Hft : forall P : Prop, (false = true <-> P) -> ~ P)
    by (intros P [_ H] HP; discriminate (H HP)).
  assert (Htt : forall P : Prop, (true = true <-> P) -> P)
    by (intros P [H _]; now apply H).
  assert (Hhalf : ~ number_among (Js.Fin (3 # 2)) [1; 2]).
  { intros [z [Hin Heq]]. simpl in Heq. unfold Qeq in Heq. simpl in Heq.
    simpl in Hin. lia. }
  unfold Legacy.validateOptions, bind, get, throw, ret.
  cbn [fst snd].
  destruct (Legacy.isValidBaudRate _);
    [ apply Htt in Hb | apply Hft in Hb ];
    [ destruct (Legacy.isValidDataBits _);
      [ apply Htt in Hd | apply Hft in Hd ];
      [ destruct (Legacy.isValidStopBits _);
        [ apply Htt in Hs | apply Hft in Hs ];
        [ destruct (Legacy.isValidParity _);
          [ apply Htt in Hp | apply Hft in Hp ] | ] | ] | ];
    cbn [negb fst snd];
    (split; [reflexivity | ]);
    repeat (split; [split; [intros H; try discriminate H; tauto
                           | intros H; try reflexivity; tauto] | ]);
    exact Hhalf.
Qed.

Lemma legacy_validation_witness :
  fst (Legacy.validateOptions port_9600_7E2) = Ok tt.
Proof.
  destruct (legacy_validation port_9600_7E2) as [_ [[_ H] _]].
  apply H. repeat split.
  - exists 9600. reflexivity.
  - exists 7. split; [simpl; tauto | reflexivity].
  - exists 2. split; [simpl; tauto | reflexivity].
  - simpl. tauto.
Defined.

Lemma indexOf_stopbits_cases (x : Js.number) :
  number_in x Legacy.kStopbitsIndexMapping \/
  Js.indexOf Js.strict_eq Legacy.kStopbitsIndexMapping x = -1.
Proof.
  unfold Js.indexOf, Legacy.kStopbitsIndexMapping, Js.indexOf_from.
  destruct (Js.strict_eq (Js.of_Z 1) x) eqn:E1.
  { left. exists (Js.of_Z 1). split; [simpl; tauto | ].
    destruct x; simpl in E1 |- *; try discriminate E1.
    apply Qeq_bool_iff in E1. now symmetry. }
  destruct (Js.strict_eq (Js.Fin (3 # 2)) x) eqn:E2.
  { left. exists (Js.Fin (3 # 2)). split; [simpl; tauto | ].
    destruct x; simpl in E2 |- *; try discriminate E2.
    apply Qeq_bool_iff in E2. now symmetry. }
  destruct (Js.strict_eq (Js.of_Z 2) x) eqn:E3.
  { left. exists (Js.of_Z 2). split; [simpl; tauto | ].
    destruct x; simpl in E3 |- *; try discriminate E3.
    apply Qeq_bool_iff in E3. now symmetry. }
  right. reflexivity.
Qed.

Lemma indexOf_parity_cases (s : string) :
  In s Legacy.kParityIndexMapping \/
  Js.indexOf String.eqb Legacy.kParityIndexMapping s = -1.
Proof.
  unfold Js.indexOf, Legacy.kParityIndexMapping, Js.indexOf_from.
  destruct (String.eqb "none" s) eqn:E1;
    [left; apply String.eqb_eq in E1; subst; simpl; tauto | ].
  destruct (String.eqb "odd" s) eqn:E2;
    [left; apply String.eqb_eq in E2; subst; simpl; tauto | ].
  destruct (String.eqb "even" s) eqn:E3;
    [left; apply String.eqb_eq in E3; subst; simpl; tauto | ].
  destruct (String.eqb "mark" s) eqn:E4;
    [left; apply String.eqb_eq in E4; subst; simpl; tauto | ].
  destruct (String.eqb "space" s) eqn:E5;
    [left; apply String.eqb_eq in E5; subst; simpl; tauto | ].
  right. reflexivity.
Qed.

(** X20: the legacy encoder never fails and always yields 7 bytes.  A
    stopbits value that is not in the encoding table is written as the
    byte 255, and so is a parity that is not in its table; decoding the
    buffer then gives 1 stop bit, respectively parity "none": what is
    outside the tables comes back as the default, not as itself. *)
Theorem legacy_out_of_table_encoding (p : Legacy.SerialPort) :
  let o := Legacy.serialOptions_ p in
  exists buffer decoded,
    Legacy.getLineCodingStructure p = Ok buffer /\
    length buffer = 7%nat /\
    decode_encode p = Ok decoded /\
    (~ number_in (Legacy.stopbits o) Legacy.kStopbitsIndexMapping ->
     nth 4 buffer 0 = 255 /\ Legacy.stopbits decoded = Js.of_Z 1) /\
    (~ In (Legacy.parity o) Legacy.kParityIndexMapping ->
     nth 5 buffer 0 = 255 /\ Legacy.parity decoded = "none"%string).
Proof.
  cbv zeta. unfold decode_encode.
  rewrite getLineCodingStructure_bytes. cbv zeta.
  rewrite readLineCoding_7. cbv zeta.
  eexists _, _. split; [reflexivity | ]. split; [reflexivity | ].
  split; [reflexivity | ].
  cbn [nth Legacy.stopbits Legacy.parity Legacy.set_databits
       Legacy.set_parity Legacy.set_stopbits Legacy.set_baudrate].
  split.
  - intros Hout.
    destruct (indexOf_stopbits_cases
                (Legacy.stopbits (Legacy.serialOptions_ p))) as [Hin | ->];
      [contradiction | ].
    split; reflexivity.
  - intros Hout.
    destruct (indexOf_parity_cases
                (Legacy.parity (Legacy.serialOptions_ p))) as [Hin | ->];
      [contradiction | ].
    split; reflexivity.
Qed.

Lemma legacy_out_of_table_encoding_witness :
  exists buffer decoded,
    Legacy.getLineCodingStructure
      {| Legacy.transferInterface_ := no_interface;
         Legacy.controlInterface_ := no_interface;
         Legacy.serialOptions_ :=
           Legacy.set_parity "mark-space" Legacy.kDefaultSerialOptions |}
      = Ok buffer /\
    nth 5 buffer 0 = 255 /\
    decode_encode
      {| Legacy.transferInterface_ := no_interface;
         Legacy.controlInterface_ := no_interface;
         Legacy.serialOptions_ :=
           Legacy.set_parity "mark-space" Legacy.kDefaultSerialOptions |}
      = Ok decoded /\
    Legacy.parity decoded = "none"%string.
Proof.
  destruct (legacy_out_of_table_encoding
              {| Legacy.transferInterface_ := no_interface;
                 Legacy.controlInterface_ := no_interface;
                 Legacy.serialOptions_ :=
                   Legacy.set_parity "mark-space" Legacy.kDefaultSerialOptions |})
    as [buffer [decoded [Hb [_ [Hd [_ Hpar]]]]]].
  exists buffer, decoded.
  destruct Hpar as [H5 Hp].
  - simpl. intros [H | [H | [H | [H | [H | []]]]]]; discriminate H.
  - repeat split; assumption.
Defined.

(* ------------------------------------------------------------------ *)
(** ** The legacy generation: endpoints and writes *)

Lemma legacy_endpoint_inner (dir : USBDirection) (eps : list Usb.USBEndpoint)
    (found : option Usb.USBEndpoint) :
  fold_left
    (fun found' endpoint =>
       if Legacy.direction_eqb (Usb.direction endpoint) dir
       then Some endpoint else found')
    eps found =
  match find (fun e => Legacy.direction_eqb (Usb.direction e) dir) (rev eps) with
  | Some e => Some e
  | None => found
  end.
Proof.
  revert found. induction eps as [ | x eps IH] using rev_ind; intros found.
  - reflexivity.
  - rewrite fold_left_app, rev_app_distr. simpl.
    destruct (Legacy.direction_eqb (Usb.direction x) dir); [reflexivity | ].
    apply IH.
Qed.

Lemma find_app_last {A : Type} (f : A -> bool) (a b : list A) :
  find f (a ++ b) =
  match find f a with
  | Some x => Some x
  | None => find f b
  end.
Proof.
  induction a as [ | x a IH]; simpl; [reflexivity | ].
  destruct (f x); [reflexivity | exact IH].
Qed.

Lemma legacy_getDirectionEndpoint_last (p : Legacy.SerialPort)
    (dir : USBDirection) :
  Legacy.getDirectionEndpoint p dir =
  find (fun e => Legacy.direction_eqb (Usb.direction e) dir)
       (rev (all_endpoints (Legacy.transferInterface_ p))).
Proof.
  unfold Legacy.getDirectionEndpoint, all_endpoints.
  induction (Usb.alternates (Legacy.transferInterface_ p)) as [ | x l IH]
    using rev_ind.
  - reflexivity.
  - rewrite fold_left_app, flat_map_app, rev_app_distr. simpl.
    rewrite app_nil_r, legacy_endpoint_inner, find_app_last, IH.
    reflexivity.
Qed.

(** X21: the legacy [getDirectionEndpoint] returns the last endpoint with
    the direction among all endpoints of all alternate settings of the
    transfer interface, and [undefined] when none has it.  Without an
    OUT endpoint the legacy [write] makes no device call, whatever the
    chunk, errors the controller and returns normally.  With one, a
    Uint8Array chunk is sent to that last OUT endpoint in exactly one
    outbound transfer, and [write] returns normally: a rejected transfer
    is passed to [controller.error], a transfer that completes, whatever
    its status, leaves the controller untouched. *)
Theorem legacy_write_outcomes (w : Legacy.World) (c : Usb.chunk) :
  Legacy.getDirectionEndpoint (Legacy.this w) dir_out =
    find (fun e => Legacy.direction_eqb (Usb.direction e) dir_out)
         (rev (all_endpoints (Legacy.transferInterface_ (Legacy.this w)))) /\
  (Legacy.getDirectionEndpoint (Legacy.this w) dir_out = None ->
   Legacy.write c w =
   (Ok tt,
    legacy_with_controller
      (snd (Streams.werror
              (Streams.ErrorObject (PlainError "No OUT endpoint available."))
              (Legacy.out_controller w))) w)) /\
  (forall endpoint,
      Legacy.getDirectionEndpoint (Legacy.this w) dir_out = Some endpoint ->
      Usb.instanceof_Uint8Array c = true ->
      fst (Legacy.write c w) = Ok tt /\
      legacy_new_calls (Legacy.write c) w =
        [Usb.TransferOut (Usb.endpointNumber endpoint) c] /\
      (forall name rest,
          Usb.script (Legacy.device_ w) = Usb.Reject name :: rest ->
          Legacy.out_controller (snd (Legacy.write c w)) =
          snd (Streams.werror (Streams.ErrorString (HostError name))
                 (Legacy.out_controller w))) /\
      ((Usb.script (Legacy.device_ w) = [] \/
        exists r rest, Usb.script (Legacy.device_ w) = Usb.Resolve r :: rest) ->
       Legacy.out_controller (snd (Legacy.write c w)) =
       Legacy.out_controller w)).
Proof.
  split; [apply legacy_getDirectionEndpoint_last | ].
  unfold legacy_new_calls, Legacy.write, bind, get, try_catch.
  split.
  - intros ->. reflexivity.
  - intros endpoint -> ->.
    unfold Legacy.on_device, Legacy.on_controller, Usb.invoke.
    destruct w as [p d oc].
    destruct d as [cfgs cfg op cl vid pid lg sc].
    destruct sc as [ | [r | n] sc]; cbn -[app skipn];
      rewrite skipn_length_app;
      (split; [reflexivity | ]); (split; [reflexivity | ]);
      (split;
       [ intros name rest H; try discriminate H;
         injection H as <- <-; reflexivity
       | intros [H | [r0 [rest H]]]; try discriminate H; reflexivity ]).
Qed.

Lemma legacy_write_outcomes_witness :
  legacy_new_calls (Legacy.write (Usb.Uint8Array [104; 105]))
    (legacy_example_world []) =
  [Usb.TransferOut 1 (Usb.Uint8Array [104; 105])].
Proof.
  destruct (legacy_write_outcomes (legacy_example_world [])
              (Usb.Uint8Array [104; 105])) as [_ [_ H]].
  destruct (H out_endpoint_1 eq_refl eq_refl) as [_ [Hcalls _]].
  exact Hcalls.
Defined.

(* ------------------------------------------------------------------ *)
(** ** The legacy generation: recognizing and constructing ports *)

Lemma isSerialDevice_alternates (alts : list Usb.USBAlternateInterface)
    (flags : bool * bool) :
  fold_left
    (fun (flags'' : bool * bool) alternate =>
       (if Usb.interfaceClass alternate =? 10 then true else fst flags'',
        if Usb.interfaceClass alternate =? 2 then true else snd flags''))
    alts flags =
  (fst flags || existsb (fun a => Usb.interfaceClass a =? 10) alts,
   snd flags || existsb (fun a => Usb.interfaceClass a =? 2) alts).
Proof.
  revert flags. induction alts as [ | a alts IH]; intros [t w]; simpl.
  - now rewrite !orb_false_r.
  - rewrite IH. simpl.
    destruct (Usb.interfaceClass a =? 10), (Usb.interfaceClass a =? 2);
      simpl; now rewrite ?orb_true_r.
Qed.

Lemma isSerialDevice_interfaces (ifaces : list Usb.USBInterface)
    (flags : bool * bool) :
  fold_left
    (fun flags' thisInterface =>
       fold_left
         (fun (flags'' : bool * bool) alternate =>
            (if Usb.interfaceClass alternate =? 10 then true else fst flags'',
             if Usb.interfaceClass alternate =? 2 then true else snd flags''))
         (Usb.alternates thisInterface) flags')
    ifaces flags =
  (fst flags || existsb (some_alternate_declaresb 10) ifaces,
   snd flags || existsb (some_alternate_declaresb 2) ifaces).
Proof.
  revert flags. induction ifaces as [ | i ifaces IH]; intros [t w]; simpl.
  - now rewrite !orb_false_r.
  - rewrite isSerialDevice_alternates, IH. simpl.
    unfold some_alternate_declaresb. now rewrite !orb_assoc.
Qed.

Lemma isSerialDevice_configurations (configs : list Usb.USBConfiguration)
    (flags : bool * bool) :
  fold_left
    (fun flags0 config =>
       fold_left
         (fun flags' thisInterface =>
            fold_left
              (fun (flags'' : bool * bool) alternate =>
                 (if Usb.interfaceClass alternate =? 10 then true
                  else fst flags'',
                  if Usb.interfaceClass alternate =? 2 then true
                  else snd flags''))
              (Usb.alternates thisInterface) flags')
         (Usb.interfaces config) flags0)
    configs flags =
  (fst flags || configurations_declare 10 configs,
   snd flags || configurations_declare 2 configs).
Proof.
  revert flags. induction configs as [ | c configs IH]; intros [t w]; simpl.
  - now rewrite !orb_false_r.
  - rewrite isSerialDevice_interfaces, IH. simpl.
    now rewrite !orb_assoc.
Qed.

Lemma configurations_declare_spec (classCode : Z) (device : Usb.USBDevice) :
  configurations_declare classCode (Usb.configurations device) = true <->
  device_declares classCode device.
Proof.
  unfold configurations_declare, device_declares, some_alternate_declaresb.
  rewrite existsb_exists. split.
  - intros [config [Hc H]]. apply existsb_exists in H.
    destruct H as [iface [Hi H]]. apply existsb_exists in H.
    destruct H as [alt [Ha H]]. apply Z.eqb_eq in H.
    now exists config, iface, alt.
  - intros [config [iface [alt [Hc [Hi [Ha H]]]]]].
    exists config. split; [exact Hc | ].
    apply existsb_exists. exists iface. split; [exact Hi | ].
    apply existsb_exists. exists alt. split; [exact Ha | now apply Z.eqb_eq].
Qed.

(** X22: the legacy [isSerialDevice] holds exactly when some alternate
    setting of some interface of some configuration declares class 10 and
    some alternate setting, possibly of another interface in another
    configuration, declares class 2; whether a configuration is active
    plays no part. *)
Theorem isSerialDevice_spec (device : Usb.USBDevice) :
  (LegacyPort.isSerialDevice device = true <->
   device_declares 10 device /\ device_declares 2 device) /\
  (forall active,
      LegacyPort.isSerialDevice (Usb.set_configuration active device) =
      LegacyPort.isSerialDevice device).
Proof.
  split.
  - unfold LegacyPort.isSerialDevice.
    rewrite (isSerialDevice_configurations (Usb.configurations device)
               (false, false)).
    cbn [fst snd orb]. rewrite andb_true_iff.
    now rewrite !configurations_declare_spec.
  - intros active. reflexivity.
Qed.

Lemma isSerialDevice_spec_witness :
  device_declares 10 unconfigured_device /\
  device_declares 2 unconfigured_device.
Proof.
  destruct (isSerialDevice_spec unconfigured_device) as [[H _] _].
  apply H. reflexivity.
Defined.

Lemma find_some_alternate (classCode : Z) (l : list Usb.USBInterface)
    (iface : Usb.USBInterface) :
  find (some_alternate_declaresb classCode) l = Some iface ->
  In iface l /\ some_alternate_declares classCode iface.
Proof.
  intros H. apply find_some in H. destruct H as [Hin H].
  split; [exact Hin | ].
  unfold some_alternate_declaresb in H. apply existsb_exists in H.
  destruct H as [alt [Ha Hc]]. exists alt.
  split; [exact Ha | now apply Z.eqb_eq].
Qed.

Lemma find_declares_none (classCode : Z) (l : list Usb.USBInterface) :
  (forall iface, In iface l -> ~ some_alternate_declares classCode iface) ->
  find (some_alternate_declaresb classCode) (rev l) = None.
Proof.
  intros Hnone.
  destruct (find (some_alternate_declaresb classCode) (rev l)) as [i | ] eqn:E;
    [ | reflexivity].
  apply find_some_alternate in E. destruct E as [Hin Hd].
  apply in_rev in Hin. now destruct (Hnone i Hin).
Qed.

Lemma find_declares_some (classCode : Z) (l : list Usb.USBInterface)
    (iface : Usb.USBInterface) :
  In iface l -> some_alternate_declares classCode iface ->
  exists found, find (some_alternate_declaresb classCode) (rev l) = Some found.
Proof.
  intros Hin [alt [Ha Hc]].
  destruct (find (some_alternate_declaresb classCode) (rev l)) as [i | ] eqn:E;
    [now exists i | ].
  apply in_rev in Hin.
  pose proof (find_none _ _ E iface Hin) as Hf.
  unfold some_alternate_declaresb in Hf.
  assert (Ht : existsb (fun alternate => Usb.interfaceClass alternate =? classCode)
                 (Usb.alternates iface) = true).
  { apply existsb_exists. exists alt. split; [exact Ha | now apply Z.eqb_eq]. }
  rewrite Ht in Hf. discriminate Hf.
Qed.

(** X23: the legacy constructor returns a port only if the options pass
    validation, the device passes [isSerialDevice] and a configuration is
    active; the port then holds the given options (the defaults when none
    are given) and interfaces of the active configuration of which some
    alternate setting declares class 10, respectively class 2.  A device
    that passes [isSerialDevice] but has no active configuration makes
    the constructor throw the TypeError of a read on null; a device that
    does not pass makes it throw its own TypeError; options that fail
    validation make it throw the RangeError before the device is looked
    at.  A device that passes but whose active configuration has no
    interface of class 10, or has one but none of class 2, makes it throw
    the Error that names the missing interface; with both present the
    constructor returns. *)
Theorem legacy_constructor (device : Usb.USBDevice)
    (given : option Legacy.SerialOptions) :
  let options :=
    match given with
    | Some o => o
    | None => Legacy.kDefaultSerialOptions
    end in
  let blank :=
    {| Legacy.transferInterface_ := LegacyPort.unassigned;
       Legacy.controlInterface_ := LegacyPort.unassigned;
       Legacy.serialOptions_ := options |} in
  (forall port,
      LegacyPort.new_SerialPort device given = LegacyPort.Returned port ->
      fst (Legacy.validateOptions blank) = Ok tt /\
      LegacyPort.isSerialDevice device = true /\
      Legacy.serialOptions_ port = options /\
      exists active,
        Usb.configuration device = Some active /\
        In (Legacy.transferInterface_ port) (Usb.interfaces active) /\
        some_alternate_declares 10 (Legacy.transferInterface_ port) /\
        In (Legacy.controlInterface_ port) (Usb.interfaces active) /\
        some_alternate_declares 2 (Legacy.controlInterface_ port)) /\
  (fst (Legacy.validateOptions blank) = Ok tt ->
   LegacyPort.isSerialDevice device = true ->
   Usb.configuration device = None ->
   LegacyPort.new_SerialPort device given = LegacyPort.Thrown UndefinedAccess) /\
  (fst (Legacy.validateOptions blank) = Ok tt ->
   LegacyPort.isSerialDevice device = false ->
   LegacyPort.new_SerialPort device given =
   LegacyPort.ThrownTypeError "This is not a serial port") /\
  (forall e,
      fst (Legacy.validateOptions blank) = Throw e ->
      LegacyPort.new_SerialPort device given = LegacyPort.Thrown e) /\
  (forall active,
      fst (Legacy.validateOptions blank) = Ok tt ->
      LegacyPort.isSerialDevice device = true ->
      Usb.configuration device = Some active ->
      (forall iface, In iface (Usb.interfaces active) ->
                     ~ some_alternate_declares 10 iface) ->
      LegacyPort.new_SerialPort device given =
      LegacyPort.Thrown (PlainError "Unable to find data transfer interface.")) /\
  (forall active transfer,
      fst (Legacy.validateOptions blank) = Ok tt ->
      LegacyPort.isSerialDevice device = true ->
      Usb.configuration device = Some active ->
      In transfer (Usb.interfaces active) ->
      some_alternate_declares 10 transfer ->
      (forall iface, In iface (Usb.interfaces active) ->
                     ~ some_alternate_declares 2 iface) ->
      LegacyPort.new_SerialPort device given =
      LegacyPort.Thrown (PlainError "Unable to find control interface.")) /\
  (forall active transfer control,
      fst (Legacy.validateOptions blank) = Ok tt ->
      LegacyPort.isSerialDevice device = true ->
      Usb.configuration device = Some active ->
      In transfer (Usb.interfaces active) ->
      some_alternate_declares 10 transfer ->
      In control (Usb.interfaces active) ->
      some_alternate_declares 2 control ->
      exists port,
        LegacyPort.new_SerialPort device given = LegacyPort.Returned port).
Proof.
  cbv zeta. unfold LegacyPort.new_SerialPort, LegacyPort.setPort,
    LegacyPort.getTransferInterface, LegacyPort.getControlInterface.
  destruct (fst (Legacy.validateOptions _)) as [[] | e0].
  - split.
    + intros port H.
      destruct (LegacyPort.isSerialDevice device); [ | discriminate H].
      simpl in H.
      destruct (Usb.configuration device) as [active | ] eqn:Ea.
      * rewrite (legacy_lookup_is_last device active 10 Ea) in H.
        rewrite (legacy_lookup_is_last device active 2 Ea) in H.
        destruct (find (some_alternate_declaresb 10) _) as [ti | ] eqn:Et;
          [ | discriminate H].
        destruct (find (some_alternate_declaresb 2) _) as [ci | ] eqn:Ec;
          [ | discriminate H].
        injection H as <-.
        apply find_some_alternate in Et. apply find_some_alternate in Ec.
        destruct Et as [Hti Htd]. destruct Ec as [Hci Hcd].
        apply in_rev in Hti. apply in_rev in Hci.
        split; [reflexivity | ]. split; [reflexivity | ].
        split; [reflexivity | ].
        exists active. repeat split; assumption.
      * unfold Legacy.getInterfaceWithClass in H. rewrite Ea in H.
        discriminate H.
    + split; [ | split; [ | split; [ | split; [ | split]]]].
      * intros _ -> Ha. simpl.
        unfold Legacy.getInterfaceWithClass. rewrite Ha. reflexivity.
      * intros _ ->. reflexivity.
      * intros e H. discriminate H.
      * intros active _ -> Ea Hnone. simpl.
        rewrite (legacy_lookup_is_last device active 10 Ea).
        rewrite (find_declares_none 10 _ Hnone). reflexivity.
      * intros active transfer _ -> Ea Hin Hd Hnone. simpl.
        rewrite (legacy_lookup_is_last device active 10 Ea).
        rewrite (legacy_lookup_is_last device active 2 Ea).
        destruct (find_declares_some 10 _ _ Hin Hd) as [ti ->].
        rewrite (find_declares_none 2 _ Hnone). reflexivity.
      * intros active transfer control _ -> Ea Hin Hd Hin' Hd'. simpl.
        rewrite (legacy_lookup_is_last device active 10 Ea).
        rewrite (legacy_lookup_is_last device active 2 Ea).
        destruct (find_declares_some 10 _ _ Hin Hd) as [ti ->].
        destruct (find_declares_some 2 _ _ Hin' Hd') as [ci ->].
        eexists. reflexivity.
  - split; [intros port H; discriminate H | ].
    split; [intros H; discriminate H | ].
    split; [intros H; discriminate H | ].
    split; [intros e H; now injection H as <- | ].
    split; [intros active H; discriminate H | ].
    split; [intros active transfer H; discriminate H | ].
    intros active transfer control H; discriminate H.
Qed.

Lemma legacy_constructor_witness :
  LegacyPort.new_SerialPort unconfigured_device None =
  LegacyPort.Thrown UndefinedAccess.
Proof.
  destruct (legacy_constructor unconfigured_device None) as [_ [H _]].
  apply H; reflexivity.
Defined.

Lemma legacy_constructor_unconfigured (device : Usb.USBDevice) :
  LegacyPort.isSerialDevice device = true ->
  Usb.configuration device = None ->
  LegacyPort.new_SerialPort device None = LegacyPort.Thrown UndefinedAccess.
Proof.
  intros Hs Ha.
  unfold LegacyPort.new_SerialPort, LegacyPort.setPort,
    LegacyPort.getTransferInterface, Legacy.getInterfaceWithClass.
  change (fst (Legacy.validateOptions _)) with (@Ok unit tt).
  cbv iota beta. now rewrite Hs, Ha.
Qed.

Lemma legacy_constructor_serial (device : Usb.USBDevice) (message : string) :
  LegacyPort.isSerialDevice device = true ->
  LegacyPort.new_SerialPort device None <> LegacyPort.ThrownTypeError message.
Proof.
  intros Hs.
  unfold LegacyPort.new_SerialPort, LegacyPort.setPort.
  change (fst (Legacy.validateOptions _)) with (@Ok unit tt).
  cbv iota beta. rewrite Hs. cbn [negb].
  destruct (LegacyPort.getTransferInterface device) as [[ti | ] | e];
    try discriminate.
  destruct (LegacyPort.getControlInterface device) as [[ci | ] | e];
    discriminate.
Qed.

(** X24: the legacy [getPorts] does not survive a device it cannot
    construct: if some listed device passes [isSerialDevice] but has no
    active configuration, the whole call throws and no port is returned,
    whatever the other devices are.  Devices that do not pass
    [isSerialDevice] are skipped. *)
Theorem legacy_getPorts_throws (devices : list Usb.USBDevice)
    (device : Usb.USBDevice) :
  In device devices ->
  LegacyPort.isSerialDevice device = true ->
  Usb.configuration device = None ->
  (exists e, LegacyPort.getPorts devices = LegacyPort.Thrown e) /\
  (forall skipped,
      LegacyPort.isSerialDevice skipped = false ->
      LegacyPort.getPorts (skipped :: devices) = LegacyPort.getPorts devices).
Proof.
  intros Hin Hs Ha. split.
  - induction devices as [ | d devices IH]; [destruct Hin | ].
    cbn [LegacyPort.getPorts].
    destruct Hin as [-> | Hin].
    + rewrite Hs, (legacy_constructor_unconfigured device Hs Ha).
      now exists UndefinedAccess.
    + destruct (LegacyPort.isSerialDevice d) eqn:Ed; [ | exact (IH Hin)].
      destruct (LegacyPort.new_SerialPort d None) as [port | e | m] eqn:En.
      * destruct (IH Hin) as [e ->]. now exists e.
      * now exists e.
      * now destruct (legacy_constructor_serial d m Ed).
  - intros skipped Hk. simpl. now rewrite Hk.
Qed.

Lemma legacy_getPorts_throws_witness :
  exists e,
    LegacyPort.getPorts [two_port_device []; unconfigured_device] =
    LegacyPort.Thrown e.
Proof.
  destruct (legacy_getPorts_throws [two_port_device []; unconfigured_device]
              unconfigured_device) as [H _].
  - simpl. tauto.
  - reflexivity.
  - reflexivity.
  - exact H.
Defined.

(* ------------------------------------------------------------------ *)
(** ** The legacy generation: setting and reading the line coding *)

Lemma legacy_validateOptions_state (p : Legacy.SerialPort) :
  snd (Legacy.validateOptions p) = p.
Proof.
  unfold Legacy.validateOptions, bind, get, throw, ret.
  destruct (Legacy.isValidBaudRate _); [ | reflexivity].
  destruct (Legacy.isValidDataBits _); [ | reflexivity].
  destruct (Legacy.isValidStopBits _); [ | reflexivity].
  destruct (Legacy.isValidParity _); reflexivity.
Qed.

Lemma legacy_skipn_app {A : Type} (l l' : list A) :
  skipn (length l) (l ++ l') = l'.
Proof. induction l as [ | a l IH]; [reflexivity | exact IH]. Qed.

(** X25: the legacy [setOptions] stores the options it is given (the ones
    it already holds when none are given) before it validates them, so
    they stay stored when validation throws, and then no call reaches the
    device.  Options that pass validation are sent in exactly one Set Line
    Coding transfer (0x20) whose index is 0, whatever the number of the
    control interface, and whose payload is the encoding of the stored
    options; the result is the host's: a rejection is thrown, a completed
    transfer is returned as it is, whatever its status. *)
Theorem legacy_setOptions (w : Legacy.World)
    (given : option Legacy.SerialOptions) :
  let options :=
    match given with
    | Some o => o
    | None => Legacy.serialOptions_ (Legacy.this w)
    end in
  let stored := Legacy.set_serialOptions options (Legacy.this w) in
  Legacy.this (snd (LegacyPort.setOptions given w)) = stored /\
  (forall e,
      fst (Legacy.validateOptions stored) = Throw e ->
      LegacyPort.setOptions given w = (Throw e, legacy_with_this stored w)) /\
  (fst (Legacy.validateOptions stored) = Ok tt ->
   exists buffer,
     Legacy.getLineCodingStructure stored = Ok buffer /\
     legacy_new_calls (LegacyPort.setOptions given) w =
       [Usb.ControlTransferOut 0x20 0 0 (Some buffer)] /\
     (forall name rest,
         Usb.script (Legacy.device_ w) = Usb.Reject name :: rest ->
         fst (LegacyPort.setOptions given w) = Throw (HostError name)) /\
     (forall r rest,
         Usb.script (Legacy.device_ w) = Usb.Resolve r :: rest ->
         fst (LegacyPort.setOptions given w) = Ok r)).
Proof.
  cbv zeta.
  set (stored := Legacy.set_serialOptions _ (Legacy.this w)).
  assert (Hrun : LegacyPort.setOptions given w =
                 match fst (Legacy.validateOptions stored) with
                 | Ok _ => LegacyPort.setSerialOptions (legacy_with_this stored w)
                 | Throw e => (Throw e, legacy_with_this stored w)
                 end).
  { unfold LegacyPort.setOptions, bind, Legacy.on_this, modify.
    cbn [Legacy.this Legacy.device_ Legacy.out_controller].
    fold stored.
    pose proof (legacy_validateOptions_state stored) as Hst.
    destruct (Legacy.validateOptions stored) as [[[] | e] p'];
      cbn [fst snd] in Hst |- *; subst p'; reflexivity. }
  assert (Hsend : LegacyPort.setSerialOptions (legacy_with_this stored w) =
                  let (r, d) :=
                    Usb.invoke
                      (Usb.ControlTransferOut 0x20 0 0
                         (Some
                            match Legacy.getLineCodingStructure stored with
                            | Ok b => b
                            | Throw _ => []
                            end)) (Legacy.device_ w) in
                  (r, legacy_with_device d (legacy_with_this stored w))).
  { unfold LegacyPort.setSerialOptions, bind, get, Legacy.lift_result,
      Legacy.on_device.
    cbn [Legacy.this Legacy.device_ Legacy.out_controller legacy_with_this].
    rewrite getLineCodingStructure_bytes. cbv zeta. reflexivity. }
  split; [ | split].
  - rewrite Hrun.
    destruct (fst (Legacy.validateOptions stored)); [ | reflexivity].
    rewrite Hsend. destruct (Usb.invoke _ _). reflexivity.
  - intros e He. rewrite Hrun, He. reflexivity.
  - intros Hok. rewrite (getLineCodingStructure_bytes stored). cbv zeta.
    eexists. split; [reflexivity | ].
    unfold legacy_new_calls. rewrite Hrun, Hok, Hsend.
    rewrite (getLineCodingStructure_bytes stored). cbv zeta.
    unfold Usb.invoke.
    destruct (Usb.script (Legacy.device_ w)) as [ | [r | name] rest] eqn:Es;
      cbn [fst snd legacy_with_device Legacy.device_ Usb.effect
           Usb.record_call Usb.log];
      (split; [apply legacy_skipn_app | ]);
      (split; [intros name' rest' H | intros r' rest' H]);
      try discriminate H; injection H as -> ->; reflexivity.
Qed.

Lemma legacy_setOptions_witness :
  exists buffer,
    legacy_new_calls (LegacyPort.setOptions None)
      (legacy_example_world [Usb.Reject "NetworkError"]) =
      [Usb.ControlTransferOut 0x20 0 0 (Some buffer)] /\
    fst (LegacyPort.setOptions None
           (legacy_example_world [Usb.Reject "NetworkError"])) =
    Throw (HostError "NetworkError").
Proof.
  destruct (legacy_setOptions
              (legacy_example_world [Usb.Reject "NetworkError"]) None)
    as [_ [_ H]].
  destruct (H eq_refl) as [buffer [_ [Hcalls [Hrej _]]]].
  exists buffer. split; [exact Hcalls | ].
  exact (Hrej "NetworkError"%string [] eq_refl).
Defined.

Lemma legacy_getInfo_run (w : Legacy.World) :
  LegacyPort.getInfo w =
  let (r, d) :=
    Usb.invoke (Usb.ControlTransferIn 0x21 0 0 7) (Legacy.device_ w) in
  let w' := legacy_with_device d w in
  match r with
  | Throw e => (Throw e, w')
  | Ok response =>
      if Usb.is_ok (Usb.status response) then
        match Usb.data response with
        | None => (Throw UndefinedAccess, w')
        | Some buffer =>
            let (r', p) := Legacy.readLineCoding buffer (Legacy.this w) in
            (match r' with
             | Ok o => Ok (Some o)
             | Throw e => Throw e
             end, legacy_with_this p w')
        end
      else (Ok None, w')
  end.
Proof.
  unfold LegacyPort.getInfo, bind, Legacy.on_device, Legacy.on_this, ret,
    throw.
  change Legacy.kGetLineCoding with 0x21.
  destruct (Usb.invoke _ (Legacy.device_ w)) as [[response | e] d];
    [ | reflexivity].
  cbv zeta.
  destruct (Usb.is_ok (Usb.status response)); [ | reflexivity].
  destruct (Usb.data response) as [buffer | ]; [ | reflexivity].
  cbn [Legacy.this Legacy.device_ Legacy.out_controller].
  destruct (Legacy.readLineCoding buffer (Legacy.this w)) as [[o | e] p];
    reflexivity.
Qed.

Lemma legacy_invoke_in (w : Legacy.World) (c : Usb.call) :
  Usb.log (snd (Usb.invoke c (Legacy.device_ w))) =
  Usb.log (Legacy.device_ w) ++ [c].
Proof.
  unfold Usb.invoke.
  destruct (Usb.script (Legacy.device_ w)) as [ | [r | name] rest];
    destruct c; reflexivity.
Qed.

(** X26: the legacy [getInfo] makes exactly one call, a Get Line Coding
    transfer (0x21) of 7 bytes with index 0.  A rejected transfer is thrown
    and a transfer whose status is not 'ok' gives [undefined]; both leave
    the port as it was.  An 'ok' transfer without data throws the
    TypeError of a read on undefined.  An 'ok' transfer with at least 7
    bytes returns the port's options, now holding the baud rate of bytes
    0 to 3 (little-endian), a stop-bits and a parity value of the
    decoding tables and the data bits of byte 6, the other fields as
    before.  A reply of 4 to 6 bytes throws the RangeError of the view
    after the baud rate of the port's options has been overwritten; a
    reply of fewer than 4 bytes throws it with the port as it was. *)
Theorem legacy_getInfo (w : Legacy.World) :
  let after := snd (LegacyPort.getInfo w) in
  let result := fst (LegacyPort.getInfo w) in
  let baud buffer :=
    Js.of_Z (nth 0 buffer 0 + 256 * nth 1 buffer 0 + 65536 * nth 2 buffer 0
             + 16777216 * nth 3 buffer 0) in
  legacy_new_calls LegacyPort.getInfo w = [Usb.ControlTransferIn 0x21 0 0 7] /\
  (forall name rest,
      Usb.script (Legacy.device_ w) = Usb.Reject name :: rest ->
      result = Throw (HostError name) /\ Legacy.this after = Legacy.this w) /\
  (forall r rest,
      Usb.script (Legacy.device_ w) = Usb.Resolve r :: rest ->
      (Usb.is_ok (Usb.status r) = false ->
       result = Ok None /\ Legacy.this after = Legacy.this w) /\
      (Usb.is_ok (Usb.status r) = true -> Usb.data r = None ->
       result = Throw UndefinedAccess /\ Legacy.this after = Legacy.this w) /\
      (forall buffer,
          Usb.is_ok (Usb.status r) = true -> Usb.data r = Some buffer ->
          ((7 <= length buffer)%nat ->
           exists o,
             result = Ok (Some o) /\
             Legacy.this after = Legacy.set_serialOptions o (Legacy.this w) /\
             Legacy.baudrate o = baud buffer /\
             In (Legacy.stopbits o) Legacy.kStopbitsIndexMapping /\
             In (Legacy.parity o) Legacy.kParityIndexMapping /\
             Legacy.databits o = Js.of_Z (nth 6 buffer 0) /\
             Legacy.buffersize o =
               Legacy.buffersize (Legacy.serialOptions_ (Legacy.this w)) /\
             Legacy.rtscts o =
               Legacy.rtscts (Legacy.serialOptions_ (Legacy.this w))) /\
          ((4 <= length buffer < 7)%nat ->
           result = Throw DataViewRangeError /\
           Legacy.baudrate (Legacy.serialOptions_ (Legacy.this after)) =
             baud buffer) /\
          ((length buffer < 4)%nat ->
           result = Throw DataViewRangeError /\
           Legacy.this after = Legacy.this w))).
Proof.
  cbv zeta. split; [ | split].
  - unfold legacy_new_calls. rewrite legacy_getInfo_run.
    pose proof (legacy_invoke_in w (Usb.ControlTransferIn 0x21 0 0 7)) as Hlog.
    destruct (Usb.invoke _ (Legacy.device_ w)) as [[response | e] d];
      cbn [snd] in Hlog; cbv zeta.
    + assert (Hd : forall x : Result (option Legacy.SerialOptions) * Legacy.World,
                 Usb.log (Legacy.device_ (snd x)) = Usb.log d ->
                 skipn (length (Usb.log (Legacy.device_ w)))
                   (Usb.log (Legacy.device_ (snd x))) =
                 [Usb.ControlTransferIn 0x21 0 0 7]).
      { intros x ->. rewrite Hlog. apply legacy_skipn_app. }
      apply Hd.
      destruct (Usb.is_ok (Usb.status response)); [ | reflexivity].
      destruct (Usb.data response) as [buffer | ]; [ | reflexivity].
      destruct (Legacy.readLineCoding buffer (Legacy.this w)). reflexivity.
    + cbn [snd legacy_with_device Legacy.device_]. rewrite Hlog.
      apply legacy_skipn_app.
  - intros name rest Hs. rewrite legacy_getInfo_run.
    unfold Usb.invoke. rewrite Hs. split; reflexivity.
  - intros r rest Hs.
    assert (Hrun : LegacyPort.getInfo w =
                   let w' :=
                     legacy_with_device
                       (Usb.effect (Usb.ControlTransferIn 0x21 0 0 7)
                          (Usb.record_call (Usb.ControlTransferIn 0x21 0 0 7)
                             (Legacy.device_ w))) w in
                   if Usb.is_ok (Usb.status r) then
                     match Usb.data r with
                     | None => (Throw UndefinedAccess, w')
                     | Some buffer =>
                         let (r', p) :=
                           Legacy.readLineCoding buffer (Legacy.this w) in
                         (match r' with
                          | Ok o => Ok (Some o)
                          | Throw e => Throw e
                          end, legacy_with_this p w')
                     end
                   else (Ok None, w')).
    { rewrite legacy_getInfo_run. unfold Usb.invoke. rewrite Hs. reflexivity. }
    rewrite Hrun. cbv zeta. clear Hrun.
    split; [ | split].
    + intros ->. split; reflexivity.
    + intros -> ->. split; reflexivity.
    + intros buffer -> ->.
      destruct buffer as
        [ | b0 [ | b1 [ | b2 [ | b3 [ | b4 [ | b5 [ | b6 rest']]]]]]];
        (split; [ | split]); intros Hlen; cbn [length] in Hlen; try lia;
        try (split; reflexivity).
      eexists. split; [reflexivity | ].
      split; [reflexivity | ].
      split; [reflexivity | ].
      cbn [Legacy.stopbits Legacy.parity Legacy.databits Legacy.buffersize
           Legacy.rtscts Legacy.set_databits Legacy.set_parity
           Legacy.set_stopbits Legacy.set_baudrate nth].
      split.
      { change (Z.of_nat (length Legacy.kStopbitsIndexMapping)) with 3.
        destruct (b4 <? 3) eqn:E4; [ | simpl; tauto].
        apply nth_In. apply Z.ltb_lt in E4. simpl. lia. }
      split.
      { change (Z.of_nat (length Legacy.kParityIndexMapping)) with 5.
        destruct (b5 <? 5) eqn:E5; [ | simpl; tauto].
        apply nth_In. apply Z.ltb_lt in E5. simpl. lia. }
      split; [reflexivity | ]. split; reflexivity.
Qed.

Lemma legacy_getInfo_witness :
  fst (LegacyPort.getInfo
         (legacy_example_world
            [Usb.Resolve {| Usb.status := Usb.status_ok;
                            Usb.data := Some [0x80; 0x25; 0; 0; 0] |}])) =
  Throw DataViewRangeError /\
  Legacy.baudrate
    (Legacy.serialOptions_
       (Legacy.this
          (snd (LegacyPort.getInfo
                  (legacy_example_world
                     [Usb.Resolve {| Usb.status := Usb.status_ok;
                                     Usb.data := Some [0x80; 0x25; 0; 0; 0] |}])))))
  = Js.of_Z 9600.
Proof.
  destruct (legacy_getInfo
              (legacy_example_world
                 [Usb.Resolve {| Usb.status := Usb.status_ok;
                                 Usb.data := Some [0x80; 0x25; 0; 0; 0] |}]))
    as [_ [_ H]].
  destruct (H _ _ eq_refl) as [_ [_ Hdata]].
  destruct (Hdata [0x80; 0x25; 0; 0; 0] eq_refl eq_refl) as [_ [Hshort _]].
  apply Hshort. simpl. lia.
Defined.

(* ------------------------------------------------------------------ *)
(** ** Requesting a port *)

Lemma merge_polyfillOptions_twice
    (given : option Polyfill.SerialPolyfillOptions) :
  Polyfill.merge_polyfillOptions (Some (Polyfill.merge_polyfillOptions given)) =
  Polyfill.merge_polyfillOptions given.
Proof.
  destruct given as [[p c t] | ]; [ | reflexivity].
  destruct p, c, t; reflexivity.
Qed.

Lemma merged_control_class_read
    (given : option Polyfill.SerialPolyfillOptions) :
  Js.read
    (Polyfill.usbControlInterfaceClass (Polyfill.merge_polyfillOptions given)) =
  requested_class 2 (given_control_class given).
Proof.
  destruct given as [[p c t] | ]; [destruct c | ]; reflexivity.
Qed.

(** X27: the filters [requestPort] hands to the host are never empty and
    each carries as class code the control-interface class the caller's
    polyfill options ask for, 2 where the caller gives none (and
    undefined where the caller's property holds undefined); the
    transfer-interface class plays no part.  Without options, without
    [filters] or with an empty [filters] array the list is a single
    filter with that class code and no vendor or product id.  Otherwise
    there is one filter per given filter, in order, with the vendor id
    and product id copied where they are defined and left out where they
    are not. *)
Theorem requestPort_filters (options : option Serial.SerialPortRequestOptions)
    (polyfillOptions : option Polyfill.SerialPolyfillOptions) :
  let usbFilters :=
    Serial.usbFilters options
      (Polyfill.merge_polyfillOptions polyfillOptions) in
  let classCode := requested_class 2 (given_control_class polyfillOptions) in
  usbFilters <> [] /\
  (forall f, In f usbFilters -> Js.read (Serial.classCode f) = classCode) /\
  (forall f, In f usbFilters -> Serial.classCode f <> Js.Absent) /\
  (forall p c t t',
      Serial.usbFilters options
        (Polyfill.merge_polyfillOptions
           (Some {| Polyfill.protocol := p;
                    Polyfill.usbControlInterfaceClass := c;
                    Polyfill.usbTransferInterfaceClass := t |})) =
      Serial.usbFilters options
        (Polyfill.merge_polyfillOptions
           (Some {| Polyfill.protocol := p;
                    Polyfill.usbControlInterfaceClass := c;
                    Polyfill.usbTransferInterfaceClass := t' |}))) /\
  ((options = None \/
    exists o, options = Some o /\
              (Js.read (Serial.filters o) = None \/
               Js.read (Serial.filters o) = Some [])) ->
   exists f,
     usbFilters = [f] /\
     Serial.vendorId f = Js.Absent /\ Serial.productId f = Js.Absent) /\
  (forall o given,
      options = Some o ->
      Js.read (Serial.filters o) = Some given ->
      given <> [] ->
      Forall2
        (fun filter f =>
           Serial.vendorId f =
             match Js.read (Serial.usbVendorId filter) with
             | Some v => Js.Val v
             | None => Js.Absent
             end /\
           Serial.productId f =
             match Js.read (Serial.usbProductId filter) with
             | Some v => Js.Val v
             | None => Js.Absent
             end)
        given usbFilters).
Proof.
  cbv zeta.
  assert (Hclass : forall opts filter,
             Serial.classCode (Serial.usbFilter_of opts filter) =
             Serial.written (Js.read (Polyfill.usbControlInterfaceClass opts))).
  { intros opts filter. unfold Serial.usbFilter_of.
    destruct (Js.read (Serial.usbVendorId filter)),
      (Js.read (Serial.usbProductId filter)); reflexivity. }
  assert (Hrun : forall opts,
             Serial.usbFilters options opts =
             match options with
             | Some o =>
                 match Js.read (Serial.filters o) with
                 | Some (filter :: given) =>
                     map (Serial.usbFilter_of opts) (filter :: given)
                 | _ => [Serial.class_filter opts]
                 end
             | None => [Serial.class_filter opts]
             end).
  { intros opts. unfold Serial.usbFilters.
    destruct options as [o | ]; [ | reflexivity].
    destruct (Js.read (Serial.filters o)) as [[ | filter given] | ];
      reflexivity. }
  assert (Hcode : forall f,
             In f (Serial.usbFilters options
                     (Polyfill.merge_polyfillOptions polyfillOptions)) ->
             Serial.classCode f =
             Serial.written
               (requested_class 2 (given_control_class polyfillOptions))).
  { intros f. rewrite Hrun, <- merged_control_class_read.
    set (merged := Polyfill.merge_polyfillOptions polyfillOptions).
    assert (Hsingle : In f [Serial.class_filter merged] ->
                      Serial.classCode f =
                      Serial.written
                        (Js.read (Polyfill.usbControlInterfaceClass merged))).
    { intros [<- | []]. reflexivity. }
    destruct options as [o | ]; [ | exact Hsingle].
    destruct (Js.read (Serial.filters o)) as [[ | filter given] | ];
      try exact Hsingle.
    intros Hin. apply in_map_iff in Hin. destruct Hin as [x [<- _]].
    apply Hclass. }
  split; [ | split; [ | split; [ | split; [ | split]]]].
  - rewrite Hrun.
    destruct options as [o | ]; [ | discriminate].
    destruct (Js.read (Serial.filters o)) as [[ | filter given] | ];
      discriminate.
  - intros f Hin. rewrite (Hcode f Hin).
    destruct (requested_class 2 _); reflexivity.
  - intros f Hin. rewrite (Hcode f Hin).
    destruct (requested_class 2 _); discriminate.
  - intros p c t t'. rewrite !Hrun.
    destruct options as [o | ]; [ | reflexivity].
    destruct (Js.read (Serial.filters o)) as [[ | filter given] | ];
      reflexivity.
  - rewrite Hrun.
    intros [-> | [o [-> [-> | ->]]]]; eexists;
      (split; [reflexivity | split; reflexivity]).
  - intros o given -> Hg Hne. rewrite Hrun, Hg.
    destruct given as [ | filter given]; [now destruct Hne | ].
    clear Hg Hne. generalize (filter :: given). intros l.
    induction l as [ | x l IH]; simpl; constructor; [ | exact IH].
    unfold Serial.usbFilter_of.
    destruct (Js.read (Serial.usbVendorId x)),
      (Js.read (Serial.usbProductId x)); split; reflexivity.
Qed.

Lemma requestPort_filters_witness :
  exists f,
    Serial.usbFilters
      (Some {| Serial.filters := Js.Val [] |})
      (Polyfill.merge_polyfillOptions None) = [f] /\
    Serial.vendorId f = Js.Absent /\ Serial.productId f = Js.Absent.
Proof.
  destruct (requestPort_filters
              (Some {| Serial.filters := Js.Val [] |}) None)
    as [_ [_ [_ [_ [H _]]]]].
  apply H. right. eexists. split; [reflexivity | ]. right. reflexivity.
Defined.

(** X28: [requestPort] rejects with the host's error when the chooser
    rejects.  When the chooser resolves with a device, the result is what
    the constructor gives for that device and the caller's polyfill
    options, merging them a second time changes nothing; so a device the
    constructor does not recognize makes [requestPort] fail with the
    constructor's error, where [getPorts] would leave it out, and a port
    that is returned is the one [getPorts] lists for that device. *)
Theorem requestPort_outcomes
    (requestDevice : list Serial.USBDeviceFilter -> Result Usb.USBDevice)
    (options : option Serial.SerialPortRequestOptions)
    (polyfillOptions : option Polyfill.SerialPolyfillOptions) :
  let asked :=
    requestDevice
      (Serial.usbFilters options
         (Polyfill.merge_polyfillOptions polyfillOptions)) in
  (forall e,
      asked = Throw e ->
      Serial.requestPort requestDevice options polyfillOptions = Throw e) /\
  (forall device,
      asked = Ok device ->
      Serial.requestPort requestDevice options polyfillOptions =
      Polyfill.new_SerialPort device polyfillOptions /\
      (forall e,
          Polyfill.new_SerialPort device polyfillOptions = Throw e ->
          Polyfill.getPorts [device] polyfillOptions = []) /\
      (forall port,
          Serial.requestPort requestDevice options polyfillOptions = Ok port ->
          Polyfill.getPorts [device] polyfillOptions = [port])).
Proof.
  cbv zeta. unfold Serial.requestPort. split.
  - intros e ->. reflexivity.
  - intros device ->. cbn [Polyfill.bind_result].
    assert (Hsame : Polyfill.new_SerialPort device
                      (Some (Polyfill.merge_polyfillOptions polyfillOptions)) =
                    Polyfill.new_SerialPort device polyfillOptions).
    { unfold Polyfill.new_SerialPort.
      now rewrite merge_polyfillOptions_twice. }
    rewrite Hsame. split; [reflexivity | ].
    split.
    + intros e He. unfold Polyfill.getPorts. cbn [flat_map]. now rewrite He.
    + intros port Hp. unfold Polyfill.getPorts. cbn [flat_map].
      now rewrite Hp.
Qed.

Lemma requestPort_outcomes_witness :
  Serial.requestPort (vendor_chooser 0x2341 (two_port_device []))
    (Some {| Serial.filters :=
               Js.Val [{| Serial.usbVendorId := Js.Absent;
                          Serial.usbProductId := Js.Val 0x43 |}] |})
    None =
  Throw (HostError "NotFoundError").
Proof.
  destruct (requestPort_outcomes
              (vendor_chooser 0x2341 (two_port_device []))
              (Some {| Serial.filters :=
                         Js.Val [{| Serial.usbVendorId := Js.Absent;
                                    Serial.usbProductId := Js.Val 0x43 |}] |})
              None) as [H _].
  apply H. reflexivity.
Defined.
